(** * PubMedRAG: ingestion, chunking, co-authorship graph and answer parsing

    A shallow embedding of the Python sources

      - [pubmed_ingestor.py]  ([PubMedIngestor._chunk_text], [fetch_and_ingest]),
      - [mongodb_handler.py]  ([MongoDBHandler.insert_article],
                               [get_author_network_data], [get_all_articles],
                               [get_article_count], [clear_database]),
      - [chromadb_handler.py] ([ChromaDBHandler._generate_embeddings],
                               [add_chunks], [query_chunks]),
      - [main.py]             (the context block and the response-parsing step
                               of [ask_question]),

    together with the properties of these functions.

    Conventions.  A Python [str] is a [string]; each [ascii] stands for the
    code point of the same number, so the texts covered are those whose code
    points are below 256.  A Python [dict] with a fixed set of keys is a record
    whose fields are options ([None] = key absent); a [dict] used as a map is
    an association list in insertion order, which is the iteration order of a
    Python dict.  A Python [int] is a [Z] where its sign matters and a [nat]
    where it is a length or an index.  Calls that can raise return a
    [result].  Logging and calls to the external services are recorded in a
    trace of [event]s returned next to the value. *)

From Stdlib Require Import List Bool Arith ZArith Lia.
From Stdlib Require Import Ascii String DecimalString.
From Stdlib Require Import Permutation Sorted.
From Stdlib Require OrderedTypeEx DecimalNat.
Import ListNotations.

Open Scope string_scope.
Open Scope list_scope.

(** ** Python values shared by the modules *)

(** The exceptions the modelled code can meet.  [RequestError] is a failed
    request to the bibliographic source, [OperationFailure] and
    [DuplicateKeyError] are pymongo's, [ValueError] is what
    [datetime.strptime] raises, and [OtherError] stands for any other
    exception of an external service. *)
Inductive exn : Type :=
| ZeroDivisionError
| AttributeError
| KeyError
| IndexError
| TypeError
| ValueError
| OperationFailure
| DuplicateKeyError
| RequestError
| OtherError.

Inductive result (A : Type) : Type :=
| Ok (a : A)
| Raise (e : exn).
Arguments Ok {A} a.
Arguments Raise {A} e.

(** [str(n)] for a non-negative integer. *)
Definition str_of_nat (n : nat) : string :=
  NilEmpty.string_of_uint (Nat.to_uint n).

(** [sep.join(parts)]. *)
Definition join (sep : string) (parts : list string) : string :=
  String.concat sep parts.

(** ** Text primitives: [str.isspace], [str.strip], [re.split] *)

Module Text.

(** [c.isspace()], which is also what [\s] matches in a [str] pattern:
    TAB, LF, VT, FF, CR, the separators 0x1c..0x1f, SPACE, NEL (0x85) and
    NO-BREAK SPACE (0xa0). *)
Definition isspace (c : ascii) : bool :=
  let n := nat_of_ascii c in
  (((9 <=? n) && (n <=? 13)) || ((28 <=? n) && (n <=? 32))
   || (n =? 133) || (n =? 160))%nat.

(** The character class [[.!?]]. *)
Definition is_sentence_end (c : ascii) : bool :=
  let n := nat_of_ascii c in
  ((n =? 46) || (n =? 33) || (n =? 63))%nat.

Definition is_empty (s : string) : bool :=
  match s with
  | EmptyString => true
  | String _ _ => false
  end.

Fixpoint lstrip (s : string) : string :=
  match s with
  | EmptyString => EmptyString
  | String c s' => if isspace c then lstrip s' else s
  end.

Fixpoint rstrip (s : string) : string :=
  match s with
  | EmptyString => EmptyString
  | String c s' =>
      let r := rstrip s' in
      if isspace c && is_empty r then EmptyString else String c r
  end.

(** [s.strip()]. *)
Definition strip (s : string) : string := rstrip (lstrip s).

(** The scanner behind [re.split(r'(?<=[.!?])\s+', text)].  A match starts at
    a whitespace character whose predecessor is in [[.!?]] and extends over
    the whole whitespace run; matches are taken left to right.  [InPiece b]:
    inside a piece, [b] telling whether the previous character is in [[.!?]]
    (the lookbehind); [InSeparator]: inside a matched whitespace run. *)
Inductive scan_state : Type :=
| InPiece (behind : bool)
| InSeparator.

(** [scan st s] is the piece under construction followed by the later
    pieces. *)
Fixpoint scan (st : scan_state) (s : string) : string * list string :=
  match s with
  | EmptyString => (EmptyString, [])
  | String c s' =>
      match st with
      | InSeparator =>
          if isspace c then scan InSeparator s'
          else let (p, ps) := scan (InPiece (is_sentence_end c)) s' in
               (String c p, ps)
      | InPiece behind =>
          if behind && isspace c
          then let (p, ps) := scan InSeparator s' in (EmptyString, p :: ps)
          else let (p, ps) := scan (InPiece (is_sentence_end c)) s' in
               (String c p, ps)
      end
  end.

(** [re.split(r'(?<=[.!?])\s+', text)]: one piece more than there are
    matches; the empty text gives the one piece [""]. *)
Definition re_split (text : string) : list string :=
  let (p, ps) := scan (InPiece false) text in p :: ps.

End Text.

(** ** pubmed_ingestor.py: the chunker *)

Module Chunker.
Import Text.

(** The condition of line 65:
    [(i + 1) % chunk_size_sentences == 0 or i == len(sentences) - 1].
    Python's [%] takes the sign of the divisor, as [Z.modulo] does; the
    caller has excluded a zero divisor. *)
Definition window_closes (i len : nat) (chunk_size_sentences : Z) : bool :=
  ((Z.of_nat i + 1) mod chunk_size_sentences =? 0)%Z
  || (Z.of_nat i =? Z.of_nat len - 1)%Z.

(** The loop of lines 63-68 from index [i] on, with the two accumulators
    [current_chunk] and [chunks]. *)
Fixpoint chunk_loop (chunk_size_sentences : Z) (len i : nat)
    (sentences : list string) (current_chunk chunks : list string)
    : list string :=
  match sentences with
  | [] => chunks
  | sentence :: rest =>
      let current_chunk := current_chunk ++ [strip sentence] in
      if window_closes i len chunk_size_sentences then
        let chunks :=
          match current_chunk with
          | [] => chunks
          | _ :: _ => chunks ++ [join " " current_chunk]
          end in
        chunk_loop chunk_size_sentences len (S i) rest [] chunks
      else
        chunk_loop chunk_size_sentences len (S i) rest current_chunk chunks
  end.

(** [PubMedIngestor._chunk_text(self, text, chunk_size_sentences)].  The
    method receives the object as [self], whatever its state, and does not
    read it.  A zero window size raises [ZeroDivisionError] at the first
    evaluation of [%]; the empty text returns before that.  (The
    [logging.debug] call is below the configured level and emits nothing.) *)
Definition _chunk_text {Self : Type} (self : Self) (text : string)
    (chunk_size_sentences : Z) : result (list string) :=
  if is_empty text then Ok []
  else
    let sentences := re_split text in
    if (chunk_size_sentences =? 0)%Z then Raise ZeroDivisionError
    else Ok (chunk_loop chunk_size_sentences (List.length sentences) 0
               sentences [] []).

(** The sentences the loop of [_chunk_text] iterates over: none for the
    empty text (lines 57-58), the pieces of [re.split] otherwise (line 60). *)
Definition sentences_of (text : string) : list string :=
  if is_empty text then [] else re_split text.

(** The same loop, keeping each window as the list of its (stripped)
    sentences instead of joining it: the windows behind the chunks. *)
Fixpoint window_loop (chunk_size_sentences : Z) (len i : nat)
    (sentences : list string) (current_chunk : list string)
    (windows : list (list string)) : list (list string) :=
  match sentences with
  | [] => windows
  | sentence :: rest =>
      let current_chunk := current_chunk ++ [strip sentence] in
      if window_closes i len chunk_size_sentences then
        let windows :=
          match current_chunk with
          | [] => windows
          | _ :: _ => windows ++ [current_chunk]
          end in
        window_loop chunk_size_sentences len (S i) rest [] windows
      else
        window_loop chunk_size_sentences len (S i) rest current_chunk windows
  end.

(** [ceil(n / w)] for a positive [w]. *)
Definition ceil_div (n : nat) (w : Z) : Z := ((Z.of_nat n + w - 1) / w)%Z.

(** Windows of [w] sentences each, but for a last one of 1 to [w]. *)
Definition well_windowed (w : Z) (tail : list (list string)) : Prop :=
  tail = [] \/
  exists body last,
    tail = body ++ [last] /\
    Forall (fun g => Z.of_nat (List.length g) = w) body /\
    1 <= List.length last /\ (Z.of_nat (List.length last) <= w)%Z.

End Chunker.

(** ** Python dicts used as maps *)

Module Dict.

(** A dict with [str] keys: the items in insertion order, one per key. *)
Definition t (V : Type) : Type := list (string * V).

Fixpoint get {V : Type} (d : t V) (k : string) : option V :=
  match d with
  | [] => None
  | (k', v) :: d' => if String.eqb k k' then Some v else get d' k
  end.

(** [k in d]. *)
Definition mem {V : Type} (d : t V) (k : string) : bool :=
  match get d k with
  | Some _ => true
  | None => false
  end.

(** [d[k] = v]: replaces the value of an existing key in place, appends a
    new key at the end. *)
Fixpoint set {V : Type} (d : t V) (k : string) (v : V) : t V :=
  match d with
  | [] => [(k, v)]
  | (k', v') :: d' =>
      if String.eqb k k' then (k', v) :: d' else (k', v') :: set d' k v
  end.

(** In-place mutation of the object stored under [k]; [d[k]] must exist
    (the callers test it first). *)
Fixpoint update {V : Type} (d : t V) (k : string) (f : V -> V) : t V :=
  match d with
  | [] => []
  | (k', v') :: d' =>
      if String.eqb k k' then (k', f v') :: d' else (k', v') :: update d' k f
  end.

(** [list(d.values())]. *)
Definition values {V : Type} (d : t V) : list V := map snd d.

End Dict.

(** ** The records of the data model *)

(** An article document, as [fetch_and_ingest] builds it and MongoDB stores
    it.  A field is [None] when the key is absent from the dict. *)
Module Article.
Record t : Type := {
  _id : option string;
  title : option string;
  abstract : option string;
  authors : option (list string);
  publication_date : option string;
  source : option string
}.
End Article.

(** An author node of the graph: [{"id", "name", "type"}]. *)
Module Node.
Record t : Type := { id : string; name : string; type : string }.
End Node.

(** An entry of a link's article list: [{"pmid", "title"}]. *)
Module LinkArticle.
Record t : Type := { pmid : string; title : string }.
End LinkArticle.

(** A co-authorship link: [{"source", "target", "articles"}]. *)
Module Link.
Record t : Type := {
  source : string;
  target : string;
  articles : list LinkArticle.t
}.
End Link.

(** The graph handed to the presentation layer: [{"nodes", "links"}]. *)
Module Graph.
Record t : Type := { nodes : list Node.t; links : list Link.t }.
End Graph.

(** The metadata of a chunk:
    [{"article_id", "chunk_index", "source", "title"}]. *)
Module Metadata.
Record t : Type := {
  article_id : string;
  chunk_index : nat;
  source : string;
  title : string
}.
End Metadata.

(** A record of [Medline.parse]: the fields the ingestor reads. *)
Module Medline.
Record t : Type := {
  PMID : option string;
  TI : option string;
  AB : option string;
  AU : option (list string);
  DP : option string
}.
End Medline.

(** ** Traces: log records and calls to the external services *)

Inductive level : Type := DEBUG | INFO | WARNING | ERROR.

(** One constructor per [logging] call of the modelled functions, carrying
    the values the message is formatted from. *)
Inductive message : Type :=
(* mongodb_handler.insert_article *)
| InsertNotConnected          (* "MongoDB connection not established. Cannot insert article." *)
| InsertMissingId             (* "Article data must contain a '_id' field (PubMed ID)." *)
| InsertAlreadyExists (id : string)  (* "Article with PubMed ID {id} already exists. Skipping insertion." *)
| Inserted (id : string)      (* "Inserted article with ID: {id}" *)
| InsertOperationFailed (e : exn)    (* "MongoDB operation failed during insertion: {e}" *)
| InsertUnexpected (e : exn)  (* "An unexpected error occurred during article insertion: {e}" *)
(* mongodb_handler.get_author_network_data *)
| NetworkNotConnected         (* "MongoDB connection not established. Cannot get network data." *)
| NetworkForSpecified (n : nat)      (* "Generating network data for {n} specified articles." *)
| NetworkForAll               (* "Generating network data for all articles in the database." *)
| NetworkGenerated (n_nodes n_links : nat)  (* "Generated author network data: {n} nodes, {m} links." *)
(* chromadb_handler *)
| EmbedModelNotLoaded         (* "Embedding model not loaded. Cannot generate embeddings." *)
| EmbedError (e : exn)        (* "Error generating embeddings: {e}" *)
| AddCollectionNotInitialized (* "ChromaDB collection not initialized. Cannot add chunks." *)
| AddModelNotLoaded           (* "Embedding model not loaded. Cannot add chunks." *)
| AddLengthsDiffer            (* "Lengths of texts, metadatas, and ids must be equal." *)
| AddEmbeddingsFailed         (* "Failed to generate embeddings for chunks." *)
| AddDone (n : nat) (collection_name : string)  (* "Added {n} chunks to ChromaDB collection '{name}'." *)
| AddError (e : exn)          (* "Error adding chunks to ChromaDB: {e}" *)
(* pubmed_ingestor.fetch_and_ingest *)
| IngestStart (term : string) (max_results : Z)  (* "Starting ingestion for term: '{term}' with max results: {max_results}" *)
| IngestFound (n : nat) (term : string)   (* "Found {n} PubMed IDs for term '{term}'." *)
| IngestNoArticles (term : string)        (* "No articles found for term '{term}'." *)
| IngestUnrecognizedDate (pmid : option string) (raw : string)  (* "Unrecognized date format for PMID {pmid}: {raw}" *)
| IngestDateError (raw : string) (pmid : option string)  (* "Could not parse date '{raw}' for PMID {pmid}" *)
| IngestSkipMissingPmid (position : nat)  (* "Skipping article {i+1} due to missing PMID." *)
| IngestProcessed (position total : nat) (pmid title50 : string)  (* "Processed article {i+1}/{len(id_list)}: PMID {pmid}, Title: {title[:50]}..." *)
| IngestAttemptInsert (n : nat)           (* "Attempting to insert {n} articles into MongoDB." *)
| IngestAttemptAdd (n : nat)              (* "Attempting to add {n} chunks to ChromaDB." *)
| IngestNoChunks                          (* "No chunks generated for ChromaDB." *)
| IngestCompleted (term : string)         (* "Ingestion process completed for term: '{term}'." *)
| IngestRequestError (e : exn)            (* "Entrez API request error: {e}. ..."; in a clause body no run reaches *)
| IngestUnexpected (e : exn)              (* "An unexpected error occurred during ingestion: {e}"; as above *)
(* main.ask_question *)
| AskUnexpectedStructure.     (* "LLM response structure unexpected: {llm_result}" *)

(** What a function does besides computing: the log records it emits and
    the calls it makes to the stores, the embedding model and the
    bibliographic source, in order. *)
Inductive event : Type :=
| Log (lvl : level) (msg : message)
| MongoFindOne (id : string)
| MongoInsertOne (article_data : Article.t)
| MongoFind (ids : option (list string))
| ModelEncode (texts : list string)
| ChromaAdd (ids documents : list string) (metadatas : list Metadata.t)
| EntrezSearch (term : string) (retmax : Z)
| EntrezFetch (ids : list string).

Definition trace : Type := list event.

(** ** mongodb_handler.py *)

Module Mongo.

(** The [articles] collection: the stored documents, each under its [_id],
    in insertion order (the order [find] returns them in). *)
Definition collection : Type := list (string * Article.t).

(** [collection.find_one({'_id': id})]. *)
Definition find_one (coll : collection) (id : string) : option Article.t :=
  Dict.get coll id.

(** [collection.insert_one(doc)] for a document whose [_id] is [id]: the
    store refuses a second document under an [_id]. *)
Definition insert_one (coll : collection) (id : string) (doc : Article.t)
    : result collection :=
  if Dict.mem coll id then Raise DuplicateKeyError
  else Ok (coll ++ [(id, doc)]).

(** [collection.find(query_filter, projection)] with [query_filter] either
    [{}] ([None] here) or [{"_id": {"$in": ids}}]. *)
Definition find (coll : collection) (ids : option (list string))
    : list (string * Article.t) :=
  match ids with
  | None => coll
  | Some ids => filter (fun d => existsb (String.eqb (fst d)) ids) coll
  end.

(** [collection.count_documents({'_id': id})]. *)
Definition count_id (coll : collection) (id : string) : nat :=
  List.length (filter (fun d => String.eqb id (fst d)) coll).

(** The handler object: [articles_collection] is [None] until [connect]
    succeeds. *)
Record MongoDBHandler : Type := {
  articles_collection : option collection
}.

(** [except OperationFailure] also catches its subclass
    [DuplicateKeyError]. *)
Definition is_operation_failure (e : exn) : bool :=
  match e with
  | OperationFailure | DuplicateKeyError => true
  | _ => false
  end.

(** [MongoDBHandler.insert_article(self, article_data)]: the returned
    identifier ([None] on failure), the handler afterwards and the trace. *)
Definition insert_article (self : MongoDBHandler) (article_data : Article.t)
    : option string * MongoDBHandler * trace :=
  match articles_collection self with
  | None => (None, self, [Log ERROR InsertNotConnected])
  | Some coll =>
      match Article._id article_data with
      | None => (None, self, [Log ERROR InsertMissingId])
      | Some id =>
          match find_one coll id with
          | Some existing_article =>
              (Some id, self,
               [MongoFindOne id; Log INFO (InsertAlreadyExists id)])
          | None =>
              match insert_one coll id article_data with
              | Ok coll' =>
                  (Some id, {| articles_collection := Some coll' |},
                   [MongoFindOne id; MongoInsertOne article_data;
                    Log INFO (Inserted id)])
              | Raise e =>
                  (None, self,
                   [MongoFindOne id; MongoInsertOne article_data;
                    Log ERROR (if is_operation_failure e
                               then InsertOperationFailed e
                               else InsertUnexpected e)])
              end
          end
      end
  end.

(** The order of [str]: by code point, lexicographically. *)
Definition le (a b : string) : Prop := String.leb a b = true.

(** [sorted(authors)]. *)
Fixpoint insert_sorted (x : string) (l : list string) : list string :=
  match l with
  | [] => [x]
  | y :: l' => if String.leb x y then x :: l else y :: insert_sorted x l'
  end.

Fixpoint sorted (l : list string) : list string :=
  match l with
  | [] => []
  | x :: l' => insert_sorted x (sorted l')
  end.

(** [itertools.combinations(l, 2)]: the pairs of elements at positions
    [i < j], in lexicographic order of the positions. *)
Fixpoint combinations2 {A : Type} (l : list A) : list (A * A) :=
  match l with
  | [] => []
  | x :: l' => map (pair x) l' ++ combinations2 l'
  end.

(** Lines 176-182: every author becomes a node, the first occurrence
    wins. *)
Definition add_nodes (nodes : Dict.t Node.t) (authors : list string)
    : Dict.t Node.t :=
  fold_left
    (fun nodes author_name =>
       if Dict.mem nodes author_name then nodes
       else Dict.set nodes author_name
              {| Node.id := author_name; Node.name := author_name;
                 Node.type := "author" |})
    authors nodes.

(** [f"{author1}--{author2}"]. *)
Definition link_key (author1 author2 : string) : string :=
  author1 ++ "--" ++ author2.

(** Lines 188-201, the body of the loop over the pairs. *)
Definition add_link (article_pmid article_title : string)
    (links : Dict.t Link.t) (pair : string * string) : Dict.t Link.t :=
  let (author1, author2) := pair in
  let key := link_key author1 author2 in
  let links :=
    if Dict.mem links key then links
    else Dict.set links key
           {| Link.source := author1; Link.target := author2;
              Link.articles := [] |} in
  Dict.update links key
    (fun l =>
       {| Link.source := Link.source l; Link.target := Link.target l;
          Link.articles :=
            Link.articles l ++
            [{| LinkArticle.pmid := article_pmid;
                LinkArticle.title := article_title |}] |}).

(** Lines 186-201: the links one article contributes. *)
Definition add_links (article_pmid article_title : string)
    (authors : list string) (links : Dict.t Link.t) : Dict.t Link.t :=
  if (1 <? List.length authors)%nat then
    fold_left (add_link article_pmid article_title)
      (combinations2 (sorted authors)) links
  else links.

(** [article.get('title', 'No Title')] and [article.get('authors', [])]. *)
Definition title_of (article : Article.t) : string :=
  match Article.title article with
  | Some t => t
  | None => "No Title"
  end.

Definition authors_of (article : Article.t) : list string :=
  match Article.authors article with
  | Some l => l
  | None => []
  end.

(** Lines 170-201, the body of the loop over the articles, on the two
    dicts [nodes] and [links]. *)
Definition add_article (state : Dict.t Node.t * Dict.t Link.t)
    (article : string * Article.t) : Dict.t Node.t * Dict.t Link.t :=
  let (nodes, links) := state in
  let article_pmid := fst article in
  let article_title := title_of (snd article) in
  let authors := authors_of (snd article) in
  (add_nodes nodes authors,
   add_links article_pmid article_title authors links).

(** What the loop body does to [links], which does not depend on
    [nodes]. *)
Definition links_step (links : Dict.t Link.t) (d : string * Article.t)
    : Dict.t Link.t :=
  add_links (fst d) (title_of (snd d)) (authors_of (snd d)) links.

(** A link whose two ends differ. *)
Definition no_self_link (l : Link.t) : Prop := Link.source l <> Link.target l.

(** The graph built from the articles a query returned. *)
Definition build_graph (articles : list (string * Article.t)) : Graph.t :=
  let (nodes, links) := fold_left add_article articles ([], []) in
  {| Graph.nodes := Dict.values nodes; Graph.links := Dict.values links |}.

(** [MongoDBHandler.get_author_network_data(self, article_pmids)].  The
    argument is [None] or a list; [if article_pmids:] holds for a non-empty
    list only.  The handler is not modified; no call of the [try] block
    raises on documents of this shape. *)
Definition get_author_network_data (self : MongoDBHandler)
    (article_pmids : option (list string)) : Graph.t * trace :=
  match articles_collection self with
  | None =>
      ({| Graph.nodes := []; Graph.links := [] |},
       [Log ERROR NetworkNotConnected])
  | Some coll =>
      let (query_filter, announced) :=
        match article_pmids with
        | Some (p :: ps) =>
            (Some (p :: ps),
             Log INFO (NetworkForSpecified (List.length (p :: ps))))
        | _ => (None, Log INFO NetworkForAll)
        end in
      let g := build_graph (find coll query_filter) in
      (g, [announced; MongoFind query_filter;
           Log INFO (NetworkGenerated (List.length (Graph.nodes g))
                                      (List.length (Graph.links g)))])
  end.

End Mongo.

(** ** chromadb_handler.py *)

Module Chroma.

Section Handler.

(** An embedding: a list of floats, of which nothing is inspected. *)
Context {vector : Type}.

(** A stored chunk. *)
Record Row : Type := {
  row_id : string;
  document : string;
  metadata : Metadata.t;
  embedding : vector
}.

(** The handler object.  [model] is the loaded SentenceTransformer, given by
    what [model.encode(texts).tolist()] returns or raises; [collection] and
    [model] are [None] until [connect] succeeds. *)
Record ChromaDBHandler : Type := {
  collection : option (list Row);
  model : option (list string -> result (list vector));
  collection_name : string
}.

(** [collection.add(documents, embeddings, metadatas, ids)] of the vector
    index: the rows afterwards, or the exception raised. *)
Variable collection_add :
  list Row -> list string -> list vector -> list Metadata.t -> list string ->
  result (list Row).

(** [ChromaDBHandler._generate_embeddings(self, texts)]. *)
Definition _generate_embeddings (self : ChromaDBHandler)
    (texts : list string) : list vector * trace :=
  match model self with
  | None => ([], [Log ERROR EmbedModelNotLoaded])
  | Some encode =>
      match encode texts with
      | Ok embeddings => (embeddings, [ModelEncode texts])
      | Raise e => ([], [ModelEncode texts; Log ERROR (EmbedError e)])
      end
  end.

(** [len(texts) == len(metadatas) == len(ids)]. *)
Definition same_lengths (texts : list string) (metadatas : list Metadata.t)
    (ids : list string) : bool :=
  (List.length texts =? List.length metadatas)%nat
  && (List.length metadatas =? List.length ids)%nat.

(** [ChromaDBHandler.add_chunks(self, texts, metadatas, ids)]: the boolean
    returned, the handler afterwards and the trace. *)
Definition add_chunks (self : ChromaDBHandler) (texts : list string)
    (metadatas : list Metadata.t) (ids : list string)
    : bool * ChromaDBHandler * trace :=
  match collection self with
  | None => (false, self, [Log ERROR AddCollectionNotInitialized])
  | Some rows =>
      match model self with
      | None => (false, self, [Log ERROR AddModelNotLoaded])
      | Some _ =>
          if negb (same_lengths texts metadatas ids) then
            (false, self, [Log ERROR AddLengthsDiffer])
          else
            let (embeddings, t1) := _generate_embeddings self texts in
            match embeddings with
            | [] => (false, self, t1 ++ [Log ERROR AddEmbeddingsFailed])
            | _ :: _ =>
                match collection_add rows texts embeddings metadatas ids with
                | Ok rows' =>
                    (true,
                     {| collection := Some rows'; model := model self;
                        collection_name := collection_name self |},
                     t1 ++ [ChromaAdd ids texts metadatas;
                            Log INFO (AddDone (List.length texts)
                                              (collection_name self))])
                | Raise e =>
                    (false, self,
                     t1 ++ [ChromaAdd ids texts metadatas;
                            Log ERROR (AddError e)])
                end
            end
      end
  end.

End Handler.

Arguments Row : clear implicits.
Arguments ChromaDBHandler : clear implicits.

End Chroma.

(** ** pubmed_ingestor.py: the ingestion pipeline *)

Module Ingest.
Import Chunker.

(** The report of counts the specification speaks of. *)
Record Counts : Type := { processed : nat; ingested : nat; skipped : nat }.

(** The four lists [fetch_and_ingest] fills while parsing. *)
Record Batch : Type := {
  articles_to_mongo : list Article.t;
  chunks_to_chroma_texts : list string;
  chunks_to_chroma_metadatas : list Metadata.t;
  chunks_to_chroma_ids : list string
}.

Definition empty_batch : Batch :=
  {| articles_to_mongo := []; chunks_to_chroma_texts := [];
     chunks_to_chroma_metadatas := []; chunks_to_chroma_ids := [] |}.

(** [f"{pmid}_chunk_{j}"]. *)
Definition chunk_id (pmid : string) (j : nat) : string :=
  pmid ++ "_chunk_" ++ str_of_nat j.

(** Lines 147-155: the loop over [enumerate(chunks)] from index [j] on. *)
Fixpoint add_chunks_of (pmid title : string) (j : nat) (chunks : list string)
    (b : Batch) : Batch :=
  match chunks with
  | [] => b
  | chunk :: rest =>
      add_chunks_of pmid title (S j) rest
        {| articles_to_mongo := articles_to_mongo b;
           chunks_to_chroma_texts := chunks_to_chroma_texts b ++ [chunk];
           chunks_to_chroma_metadatas :=
             chunks_to_chroma_metadatas b ++
             [{| Metadata.article_id := pmid; Metadata.chunk_index := j;
                 Metadata.source := "abstract"; Metadata.title := title |}];
           chunks_to_chroma_ids :=
             chunks_to_chroma_ids b ++ [chunk_id pmid j] |}
  end.

(** [record.get("TI", "No Title Available")],
    [record.get("AB", "No Abstract Available")] and [record.get("AU", [])]. *)
Definition title_of (record : Medline.t) : string :=
  match Medline.TI record with
  | Some t => t
  | None => "No Title Available"
  end.

Definition abstract_of (record : Medline.t) : string :=
  match Medline.AB record with
  | Some a => a
  | None => "No Abstract Available"
  end.

Definition authors_of (record : Medline.t) : list string :=
  match Medline.AU record with
  | Some l => l
  | None => []
  end.

(** The chunks of an abstract for the default window of three sentences,
    which [_chunk_text] always returns. *)
Definition abstract_chunks (abstract : string) : list string :=
  match _chunk_text tt abstract 3 with
  | Ok chunks => chunks
  | Raise _ => []
  end.

(** The identifier a record is ingested under: [None] when line 131 skips
    it. *)
Definition ingested_id (record : Medline.t) : option string :=
  match Medline.PMID record with
  | None | Some EmptyString => None
  | Some pmid => Some pmid
  end.

(** What one record is to contribute to the three chunk lists: the chunks
    of its abstract, and for the chunk of index [j] the identifier
    [<pmid>_chunk_<j>] and the metadata naming the article and [j]. *)
Definition record_texts (record : Medline.t) : list string :=
  match ingested_id record with
  | None => []
  | Some _ => abstract_chunks (abstract_of record)
  end.

Definition record_ids (record : Medline.t) : list string :=
  match ingested_id record with
  | None => []
  | Some pmid =>
      map (chunk_id pmid)
          (seq 0 (List.length (abstract_chunks (abstract_of record))))
  end.

Definition record_metadatas (record : Medline.t) : list Metadata.t :=
  match ingested_id record with
  | None => []
  | Some pmid =>
      map (fun j =>
             {| Metadata.article_id := pmid; Metadata.chunk_index := j;
                Metadata.source := "abstract";
                Metadata.title := title_of record |})
          (seq 0 (List.length (abstract_chunks (abstract_of record))))
  end.

(** The identifiers the specification gives the chunks of an article [A]
    that has [n] chunks: [A_chunk_0], ..., [A_chunk_(n-1)], the index
    written in decimal. *)
Definition spec_chunk_ids (A : string) (n : nat) : list string :=
  map (fun j => (A ++ "_chunk_" ++
                 NilEmpty.string_of_uint (Nat.to_uint j))%string)
      (seq 0 n).

Definition spec_record_ids (record : Medline.t) : list string :=
  match ingested_id record with
  | None => []
  | Some A =>
      spec_chunk_ids A (List.length (abstract_chunks (abstract_of record)))
  end.

Section Pipeline.

Context {vector : Type}.

(** The vector index, as in [Chroma]. *)
Variable collection_add :
  list (Chroma.Row vector) -> list string -> list vector ->
  list Metadata.t -> list string -> result (list (Chroma.Row vector)).

(** The bibliographic source: [Entrez.esearch] followed by [Entrez.read],
    giving [record["IdList"]], and [Entrez.efetch] followed by
    [Medline.parse], giving the records. *)
Variable esearch : string -> Z -> result (list string).
Variable efetch : list string -> result (list Medline.t).

(** [re.match(pattern, s)] on the three date patterns, and
    [datetime.strptime(s, format).isoformat()], [None] standing for the
    [ValueError] it raises on a string it cannot parse. *)
Variable re_match : string -> string -> bool.
Variable strptime_isoformat : string -> string -> option string.

(** The ingestor object. *)
Record PubMedIngestor : Type := {
  mongo_handler : Mongo.MongoDBHandler;
  chroma_handler : Chroma.ChromaDBHandler vector
}.

(** Lines 116-129: the publication date of a record. *)
Definition parse_publication_date (pmid : option string)
    (pub_date_raw : option string) : option string * trace :=
  match pub_date_raw with
  | None | Some EmptyString => (None, [])
  | Some raw =>
      let parsed format :=
        match strptime_isoformat raw format with
        | Some d => (Some d, [])
        | None => (None, [Log WARNING (IngestDateError raw pmid)])
        end in
      if re_match "^\d{4}\s[A-Za-z]{3}\s\d{1,2}$" raw then parsed "%Y %b %d"
      else if re_match "^\d{4}\s[A-Za-z]{3}$" raw then parsed "%Y %b"
      else if re_match "^\d{4}$" raw then parsed "%Y"
      else (None, [Log WARNING (IngestUnrecognizedDate pmid raw)])
  end.

(** Lines 109-157: the loop over [enumerate(records)] from index [i] on;
    [total] is [len(id_list)].  The trace is kept when a call raises. *)
Fixpoint parse_records (self : PubMedIngestor) (total i : nat)
    (records : list Medline.t) (b : Batch) : result Batch * trace :=
  match records with
  | [] => (Ok b, [])
  | record :: rest =>
      let pmid := Medline.PMID record in
      let title := title_of record in
      let abstract := abstract_of record in
      let authors := authors_of record in
      let (publication_date, t_date) :=
        parse_publication_date pmid (Medline.DP record) in
      match pmid with
      | None | Some EmptyString =>
          let (r, t) := parse_records self total (S i) rest b in
          (r, t_date ++ [Log WARNING (IngestSkipMissingPmid (i + 1))] ++ t)
      | Some pmid =>
          let article_data :=
            {| Article._id := Some pmid;
               Article.title := Some title;
               Article.abstract := Some abstract;
               Article.authors := Some authors;
               Article.publication_date := publication_date;
               Article.source := Some "PubMed" |} in
          let b :=
            {| articles_to_mongo := articles_to_mongo b ++ [article_data];
               chunks_to_chroma_texts := chunks_to_chroma_texts b;
               chunks_to_chroma_metadatas := chunks_to_chroma_metadatas b;
               chunks_to_chroma_ids := chunks_to_chroma_ids b |} in
          match _chunk_text self abstract 3 with
          | Raise e => (Raise e, t_date)
          | Ok chunks =>
              let b := add_chunks_of pmid title 0 chunks b in
              let (r, t) := parse_records self total (S i) rest b in
              (r, t_date ++
                  [Log INFO (IngestProcessed (i + 1) total pmid
                               (substring 0 50 title))] ++ t)
          end
      end
  end.

(** Lines 162-163: one [insert_article] call per parsed article, the
    returned identifiers dropped. *)
Fixpoint insert_all (mongo : Mongo.MongoDBHandler)
    (articles : list Article.t) : Mongo.MongoDBHandler * trace :=
  match articles with
  | [] => (mongo, [])
  | article_data :: rest =>
      let '(_, mongo, t1) := Mongo.insert_article mongo article_data in
      let (mongo, t2) := insert_all mongo rest in
      (mongo, t1 ++ t2)
  end.

(** The two [except] clauses of lines 178-181.  The first one names
    [Entrez.RequestError], an attribute the module [Bio.Entrez] does not
    have.  When an exception [e] reaches the clauses, evaluating the first
    raises [AttributeError]; this exception leaves the function, no clause
    body runs and nothing is logged. *)
Definition escaping_exception (e : exn) : exn := AttributeError.

(** [PubMedIngestor.fetch_and_ingest(self, term, max_results)]: the value
    returned to the caller or the exception that reaches it, the ingestor
    afterwards and the trace.  No [return] of the function carries a value,
    so a call that returns returns [None]. *)
Definition fetch_and_ingest (self : PubMedIngestor) (term : string)
    (max_results : Z) : result (option Counts) * PubMedIngestor * trace :=
  let t0 := [Log INFO (IngestStart term max_results);
             EntrezSearch term max_results] in
  match esearch term max_results with
  | Raise e => (Raise (escaping_exception e), self, t0)
  | Ok id_list =>
      let t1 := t0 ++ [Log INFO (IngestFound (List.length id_list) term)] in
      match id_list with
      | [] => (Ok None, self, t1 ++ [Log WARNING (IngestNoArticles term)])
      | _ :: _ =>
          let t2 := t1 ++ [EntrezFetch id_list] in
          match efetch id_list with
          | Raise e => (Raise (escaping_exception e), self, t2)
          | Ok records =>
              let (parsed, t_parse) :=
                parse_records self (List.length id_list) 0 records
                  empty_batch in
              match parsed with
              | Raise e => (Raise (escaping_exception e), self, t2 ++ t_parse)
              | Ok b =>
                  let (mongo, t_mongo) :=
                    insert_all (mongo_handler self) (articles_to_mongo b) in
                  let '(chroma, t_chroma) :=
                    match chunks_to_chroma_texts b with
                    | [] =>
                        (chroma_handler self, [Log WARNING IngestNoChunks])
                    | _ :: _ =>
                        let '(_, chroma, t) :=
                          Chroma.add_chunks collection_add
                            (chroma_handler self)
                            (chunks_to_chroma_texts b)
                            (chunks_to_chroma_metadatas b)
                            (chunks_to_chroma_ids b) in
                        (chroma,
                         Log INFO (IngestAttemptAdd
                                     (List.length (chunks_to_chroma_texts b)))
                         :: t)
                    end in
                  (Ok None,
                   {| mongo_handler := mongo; chroma_handler := chroma |},
                   t2 ++ t_parse ++
                   [Log INFO (IngestAttemptInsert
                                (List.length (articles_to_mongo b)))] ++
                   t_mongo ++ t_chroma ++ [Log INFO (IngestCompleted term)])
              end
          end
      end
  end.

(** A run reaches completion when it gets to the last line of the [try]
    block, which logs the completion. *)
Definition completed (term : string) (t : trace) : Prop :=
  In (Log INFO (IngestCompleted term)) t.

End Pipeline.

Arguments PubMedIngestor : clear implicits.

End Ingest.

(** ** main.py: parsing the answer of the generation service *)

Module Ask.

(** The value [response.json()] returns.  Of a number only its being zero
    matters here. *)
#[local] Unset Elimination Schemes.
Inductive json : Type :=
| JNull
| JBool (b : bool)
| JNumber (z : Z)
| JString (s : string)
| JArray (items : list json)
| JObject (members : list (string * json)).
#[local] Set Elimination Schemes.

(** Truth value of a Python object. *)
Definition truthy (v : json) : bool :=
  match v with
  | JNull => false
  | JBool b => b
  | JNumber z => negb (z =? 0)%Z
  | JString s => negb (Text.is_empty s)
  | JArray items => match items with [] => false | _ :: _ => true end
  | JObject members => match members with [] => false | _ :: _ => true end
  end.

(** [v.get(key, default)]: only a dict has the method. *)
Definition get (v : json) (key : string) (default : json) : result json :=
  match v with
  | JObject members =>
      match Dict.get members key with
      | Some x => Ok x
      | None => Ok default
      end
  | _ => Raise AttributeError
  end.

(** [v[key]] for a string key. *)
Definition item (v : json) (key : string) : result json :=
  match v with
  | JObject members =>
      match Dict.get members key with
      | Some x => Ok x
      | None => Raise KeyError
      end
  | _ => Raise TypeError
  end.

(** [v[0]]. *)
Definition item0 (v : json) : result json :=
  match v with
  | JArray (x :: _) => Ok x
  | JArray [] => Raise IndexError
  | JString (String c _) => Ok (JString (String c EmptyString))
  | JString EmptyString => Raise IndexError
  | JObject _ => Raise KeyError
  | _ => Raise TypeError
  end.

Definition bind {A B : Type} (r : result A) (k : A -> result B) : result B :=
  match r with
  | Ok a => k a
  | Raise e => Raise e
  end.

Notation "x <- r ;; k" := (bind r (fun x => k))
  (at level 61, r at next level, right associativity).

Definition fallback_answer : json := JString "Could not generate an answer.".

(** Lines 221-227 of [ask_question]: the answer taken from [llm_result], or
    the exception the step raises, and the trace. *)
Definition parse_answer (llm_result : json) : result json * trace :=
  let generated_answer := fallback_answer in
  let enter :=
    if truthy llm_result
    then (candidates <- get llm_result "candidates" JNull ;;
          Ok (truthy candidates))
    else Ok false in
  match enter with
  | Raise e => (Raise e, [])
  | Ok false => (Ok generated_answer, [Log ERROR AskUnexpectedStructure])
  | Ok true =>
      (candidates <- item llm_result "candidates" ;;
       first_candidate <- item0 candidates ;;
       content <- get first_candidate "content" JNull ;;
       has_parts <-
         (if truthy content
          then (content <- item first_candidate "content" ;;
                parts <- get content "parts" JNull ;;
                Ok (truthy parts))
          else Ok false) ;;
       if has_parts : bool
       then (content <- item first_candidate "content" ;;
             parts <- item content "parts" ;;
             part <- item0 parts ;;
             get part "text" generated_answer)
       else Ok generated_answer,
       [])
  end.

(** The field [text] under [candidates[0].content.parts[0]] is absent from
    a response at some level: the member is missing from the object that
    should hold it, or the array that should hold the object is empty. *)
Inductive answer_field_absent : json -> Prop :=
| absent_candidates members :
    Dict.get members "candidates" = None ->
    answer_field_absent (JObject members)
| absent_first_candidate members :
    Dict.get members "candidates" = Some (JArray []) ->
    answer_field_absent (JObject members)
| absent_content members candidate others :
    Dict.get members "candidates" = Some (JArray (JObject candidate :: others)) ->
    Dict.get candidate "content" = None ->
    answer_field_absent (JObject members)
| absent_parts members candidate others content :
    Dict.get members "candidates" = Some (JArray (JObject candidate :: others)) ->
    Dict.get candidate "content" = Some (JObject content) ->
    Dict.get content "parts" = None ->
    answer_field_absent (JObject members)
| absent_first_part members candidate others content :
    Dict.get members "candidates" = Some (JArray (JObject candidate :: others)) ->
    Dict.get candidate "content" = Some (JObject content) ->
    Dict.get content "parts" = Some (JArray []) ->
    answer_field_absent (JObject members)
| absent_text members candidate others content part more :
    Dict.get members "candidates" = Some (JArray (JObject candidate :: others)) ->
    Dict.get candidate "content" = Some (JObject content) ->
    Dict.get content "parts" = Some (JArray (JObject part :: more)) ->
    Dict.get part "text" = None ->
    answer_field_absent (JObject members).

(** The nested answer field of a response, read as JSON: the member
    [text] of the first element of [parts] of [content] of the first element
    of [candidates]; [None] when it is absent at any level. *)
Definition member (v : json) (key : string) : option json :=
  match v with
  | JObject members => Dict.get members key
  | _ => None
  end.

Definition first (v : json) : option json :=
  match v with
  | JArray (x :: _) => Some x
  | _ => None
  end.

Definition and_then {A B : Type} (o : option A) (k : A -> option B)
    : option B :=
  match o with
  | Some a => k a
  | None => None
  end.

Definition answer_field (llm_result : json) : option json :=
  and_then (member llm_result "candidates") (fun candidates =>
  and_then (first candidates) (fun candidate =>
  and_then (member candidate "content") (fun content =>
  and_then (member content "parts") (fun parts =>
  and_then (first parts) (fun part =>
  member part "text"))))).

(** The value of a member of an object, [None] (JSON [null]) when it is
    missing: what [.get(key)] gives. *)
Definition member_or_null (members : list (string * json)) (key : string)
    : json :=
  match Dict.get members key with
  | Some v => v
  | None => JNull
  end.

(** The answer field is absent because at some level the member is
    missing, [null] or empty (falsy), the levels above being objects and
    non-empty arrays of objects: the response itself, [candidates],
    [content] and [parts] missing or falsy, or [text] missing. *)
Inductive level_missing_or_empty : json -> Prop :=
| empty_response r :
    truthy r = false ->
    level_missing_or_empty r
| empty_candidates members :
    truthy (member_or_null members "candidates") = false ->
    level_missing_or_empty (JObject members)
| empty_content members candidate others :
    Dict.get members "candidates" = Some (JArray (JObject candidate :: others)) ->
    truthy (member_or_null candidate "content") = false ->
    level_missing_or_empty (JObject members)
| empty_parts members candidate others content :
    Dict.get members "candidates" = Some (JArray (JObject candidate :: others)) ->
    Dict.get candidate "content" = Some (JObject content) ->
    truthy (member_or_null content "parts") = false ->
    level_missing_or_empty (JObject members)
| missing_text members candidate others content part more :
    Dict.get members "candidates" = Some (JArray (JObject candidate :: others)) ->
    Dict.get candidate "content" = Some (JObject content) ->
    Dict.get content "parts" = Some (JArray (JObject part :: more)) ->
    Dict.get part "text" = None ->
    level_missing_or_empty (JObject members).

End Ask.

(** ** Sample data *)

Module Samples.

Definition article (id title : string) (authors : list string) : Article.t :=
  {| Article._id := Some id;
     Article.title := Some title;
     Article.abstract := Some "Background. Methods. Results. Conclusion.";
     Article.authors := Some authors;
     Article.publication_date := None;
     Article.source := Some "PubMed" |}.

Definition stored (id title : string) (authors : list string)
    : string * Article.t :=
  (id, article id title authors).

Definition connected (coll : Mongo.collection) : Mongo.MongoDBHandler :=
  {| Mongo.articles_collection := Some coll |}.

(** A Medline record with a ten-sentence abstract. *)
Definition record_A : Medline.t :=
  {| Medline.PMID := Some "A";
     Medline.TI := Some "Ten sentences";
     Medline.AB := Some "S1. S2. S3. S4. S5. S6. S7. S8. S9. S10.";
     Medline.AU := Some ["Kim S"; "Lee D"];
     Medline.DP := None |}.

(** A record without a PMID. *)
Definition record_anonymous : Medline.t :=
  {| Medline.PMID := None;
     Medline.TI := Some "No identifier";
     Medline.AB := Some "One. Two.";
     Medline.AU := None;
     Medline.DP := None |}.

(** A vector store whose rows are kept in a list, with embeddings that are
    numbers, and a bibliographic source that finds the two records above. *)
Definition sample_add (rows : list (Chroma.Row nat)) (documents : list string)
    (embeddings : list nat) (metadatas : list Metadata.t) (ids : list string)
    : result (list (Chroma.Row nat)) :=
  Ok (rows ++
      map (fun r =>
             {| Chroma.row_id := fst (fst (fst r));
                Chroma.document := snd (fst (fst r));
                Chroma.metadata := snd (fst r);
                Chroma.embedding := snd r |})
          (combine (combine (combine ids documents) metadatas) embeddings)).

Definition sample_chroma : Chroma.ChromaDBHandler nat :=
  {| Chroma.collection := Some [];
     Chroma.model := Some (fun texts => Ok (map String.length texts));
     Chroma.collection_name := "pubmed_chunks" |}.

Definition sample_esearch (term : string) (retmax : Z) : result (list string) :=
  Ok ["A"; "B"].

Definition sample_efetch (ids : list string) : result (list Medline.t) :=
  Ok [record_A; record_anonymous].

Definition sample_re_match (pattern s : string) : bool := false.

Definition sample_strptime (s format : string) : option string := None.

Definition sample_ingestor : Ingest.PubMedIngestor nat :=
  {| Ingest.mongo_handler := {| Mongo.articles_collection := Some [] |};
     Ingest.chroma_handler := sample_chroma |}.

(** Responses of the generation service: a complete one, and one whose
    first part has no [text]. *)
Definition response_with (part : list (string * Ask.json)) : Ask.json :=
  Ask.JObject
    [("candidates",
      Ask.JArray
        [Ask.JObject
           [("content",
             Ask.JObject
               [("parts", Ask.JArray [Ask.JObject part]);
                ("role", Ask.JString "model")])]])].

Definition response_complete : Ask.json :=
  response_with [("text", Ask.JString "CRISPR is a gene-editing tool.")].

Definition response_without_text : Ask.json :=
  response_with [("thought", Ask.JBool true)].

(** Two authors of one article under the same name. *)
Definition namesakes : Mongo.collection :=
  [stored "P1" "Cohort study" ["Wang Y"; "Wang Y"]].

(** Three authors whose pair keys collide:
    ["-a" ++ "--" ++ "-a-" = "-a-" ++ "--" ++ "a-"]. *)
Definition colliding : Mongo.collection :=
  [stored "P1" "Trial" ["a-"; "-a"; "-a-"]].

(** The three articles of the module's own test run. *)
Definition dummy_articles : Mongo.collection :=
  [stored "PMID1" "Novel Approach to Quantum Computing"
     ["Alice Smith"; "Bob Johnson"; "Charlie Brown"];
   stored "PMID2" "AI in Medical Diagnostics" ["Alice Smith"; "David Lee"];
   stored "PMID3" "Blockchain Applications in Healthcare"
     ["Bob Johnson"; "Eve White"]].

(** The responses [{"candidates": [null]}] and
    [{"candidates": [{"content": {"parts": [null]}}]}]. *)
Definition null_candidate : Ask.json :=
  Ask.JObject [("candidates", Ask.JArray [Ask.JNull])].

Definition null_part : Ask.json :=
  Ask.JObject
    [("candidates",
      Ask.JArray
        [Ask.JObject
           [("content",
             Ask.JObject [("parts", Ask.JArray [Ask.JNull])])]])].

End Samples.

(** ** Notions used to state further properties of the text primitives *)

Module TextSpec.
Import Text.

(** The text without its whitespace characters. *)
Fixpoint remove_whitespace (s : string) : string :=
  match s with
  | EmptyString => EmptyString
  | String c s' =>
      if isspace c then remove_whitespace s' else String c (remove_whitespace s')
  end.

(** The last character of the text is one of [.!?]. *)
Fixpoint ends_sentence (s : string) : bool :=
  match s with
  | EmptyString => false
  | String c EmptyString => is_sentence_end c
  | String _ s' => ends_sentence s'
  end.

(** No character of the text is one of [.!?]. *)
Fixpoint no_sentence_end (s : string) : bool :=
  match s with
  | EmptyString => true
  | String c s' => negb (is_sentence_end c) && no_sentence_end s'
  end.

(** The first character of the text is whitespace. *)
Definition starts_with_space (s : string) : bool :=
  match s with
  | EmptyString => false
  | String c _ => isspace c
  end.

(** Every piece but the last ends in one of [.!?]. *)
Fixpoint boundaries_follow_sentence_end (pieces : list string) : bool :=
  match pieces with
  | [] => true
  | p :: rest =>
      match rest with
      | [] => true
      | _ :: _ => ends_sentence p && boundaries_follow_sentence_end rest
      end
  end.

End TextSpec.

(** ** mongodb_handler.py: reading, counting and clearing *)

Module Store.
Import Mongo.

(** The log records of the three methods. *)
Inductive store_message : Type :=
| GetAllNotConnected   (* "MongoDB connection not established. Cannot retrieve articles." *)
| CountNotConnected    (* "MongoDB connection not established. Cannot get article count." *)
| ClearNotConnected    (* "MongoDB connection not established. Cannot clear database." *)
| Cleared (deleted_count : nat).  (* "Cleared {n} documents from 'articles' collection." *)

Inductive store_event : Type :=
| StoreLog (lvl : level) (msg : store_message)
| MongoFindAll
| MongoCountDocuments
| MongoDeleteMany.

(** [MongoDBHandler.get_all_articles(self)]: [list(collection.find({}))]. *)
Definition get_all_articles (self : MongoDBHandler)
    : list (string * Article.t) * list store_event :=
  match articles_collection self with
  | None => ([], [StoreLog ERROR GetAllNotConnected])
  | Some coll => (find coll None, [MongoFindAll])
  end.

(** [MongoDBHandler.get_article_count(self)]:
    [collection.count_documents({})]. *)
Definition get_article_count (self : MongoDBHandler)
    : nat * list store_event :=
  match articles_collection self with
  | None => (0, [StoreLog ERROR CountNotConnected])
  | Some coll => (List.length coll, [MongoCountDocuments])
  end.

(** [MongoDBHandler.clear_database(self)]: [collection.delete_many({})]
    removes every document; the handler stays connected. *)
Definition clear_database (self : MongoDBHandler)
    : MongoDBHandler * list store_event :=
  match articles_collection self with
  | None => (self, [StoreLog ERROR ClearNotConnected])
  | Some coll =>
      ({| articles_collection := Some [] |},
       [MongoDeleteMany; StoreLog WARNING (Cleared (List.length coll))])
  end.

End Store.

(** ** Notions used to state further properties of the graph *)

Module GraphSpec.

(** The number of article entries over all links. *)
Definition total_entries (links : list Link.t) : nat :=
  list_sum (map (fun l => List.length (Link.articles l)) links).

(** The number of pairs among [n] authors. *)
Definition pair_count (n : nat) : nat := n * (n - 1) / 2.

(** The number of pairs among the authors of an article. *)
Definition article_pairs (d : string * Article.t) : nat :=
  pair_count (List.length (Mongo.authors_of (snd d))).

(** The articles a request for the graph reads: those of the collection
    named by a non-empty filter, all of them otherwise. *)
Definition selected (coll : Mongo.collection)
    (article_pmids : option (list string)) : list (string * Article.t) :=
  match article_pmids with
  | Some (p :: ps) => Mongo.find coll (Some (p :: ps))
  | _ => coll
  end.

(** The node of an author. *)
Definition node_of (author_name : string) : Node.t :=
  {| Node.id := author_name; Node.name := author_name;
     Node.type := "author" |}.

(** The nodes dict holds one node per key, the node of the key. *)
Definition well_keyed (nodes : Dict.t Node.t) : Prop :=
  NoDup (map fst nodes) /\ Forall (fun kv => snd kv = node_of (fst kv)) nodes.

(** A link with one more article entry. *)
Definition with_entry (e : LinkArticle.t) (l : Link.t) : Link.t :=
  {| Link.source := Link.source l; Link.target := Link.target l;
     Link.articles := Link.articles l ++ [e] |}.

(** The link a pair of authors gets before its first entry. *)
Definition fresh_link (pair : string * string) : Link.t :=
  {| Link.source := fst pair; Link.target := snd pair; Link.articles := [] |}.

(** The entry of an article in a link. *)
Definition entry_of (d : string * Article.t) : LinkArticle.t :=
  {| LinkArticle.pmid := fst d;
     LinkArticle.title := Mongo.title_of (snd d) |}.

End GraphSpec.

(** ** chromadb_handler.py: [query_chunks] *)

Module Retrieval.

(** A value of a chunk's metadata as the vector index returns it: a string
    or an integer. *)
Inductive meta_value : Type :=
| MStr (s : string)
| MInt (z : Z).

(** The log records of [query_chunks]. *)
Inductive query_message : Type :=
| QueryCollectionNotInitialized  (* "ChromaDB collection not initialized. Cannot query chunks." *)
| QueryModelNotLoaded            (* "Embedding model not loaded. Cannot query chunks." *)
| QueryEmbeddingFailed           (* "Failed to generate embedding for query text." *)
| QueryRetrieved (n : nat) (query_text : string)  (* "Retrieved {n} chunks for query: '{query_text}'" *)
| QueryError (e : exn).          (* "Error querying ChromaDB: {e}" *)

(** What [query_chunks] does besides computing: the events of
    [_generate_embeddings], its own log records and the call of
    [collection.query]. *)
Inductive query_event : Type :=
| Embedding (e : event)
| QueryLog (lvl : level) (msg : query_message)
| CollectionQuery (n_results : Z).

Section Query.

Context {vector number : Type}.

(** [len(v)] for an embedding [v]. *)
Variable dimension : vector -> nat.

(** The dict [collection.query] returns: one list per query embedding
    under each of the keys. *)
Record QueryResult : Type := {
  documents : list (list string);
  metadatas : list (list (Dict.t meta_value));
  distances : list (list number)
}.

(** [collection.query(query_embeddings=[v], n_results=k, include=[...])]. *)
Variable collection_query :
  list (Chroma.Row vector) -> vector -> Z -> result QueryResult.

(** An element of the list [query_chunks] returns:
    [{"document", "metadata", "distance"}]. *)
Record RetrievedChunk : Type := {
  document : string;
  metadata : Dict.t meta_value;
  distance : number
}.

(** [l[i]] on a list. *)
Definition index {A : Type} (l : list A) (i : nat) : result A :=
  match nth_error l i with
  | Some x => Ok x
  | None => Raise IndexError
  end.

(** Lines 154-159: the loop over [range(len(results['documents'][0]))],
    from index [i] on, over the remaining documents. *)
Fixpoint collect_from (results : QueryResult) (i : nat)
    (docs : list string) : result (list RetrievedChunk) :=
  match docs with
  | [] => Ok []
  | doc :: rest =>
      match index (metadatas results) 0 with
      | Raise e => Raise e
      | Ok metadatas0 =>
          match index metadatas0 i with
          | Raise e => Raise e
          | Ok m =>
              match index (distances results) 0 with
              | Raise e => Raise e
              | Ok distances0 =>
                  match index distances0 i with
                  | Raise e => Raise e
                  | Ok d =>
                      match collect_from results (S i) rest with
                      | Raise e => Raise e
                      | Ok chunks =>
                          Ok ({| document := doc; metadata := m;
                                 distance := d |} :: chunks)
                      end
                  end
              end
          end
      end
  end.

(** Lines 152-159: the chunks taken from the result. *)
Definition collect (results : QueryResult)
    : result (list RetrievedChunk) :=
  match documents results with
  | (doc :: docs) :: _ => collect_from results 0 (doc :: docs)
  | _ => Ok []
  end.

(** [ChromaDBHandler.query_chunks(self, query_text, n_results)]. *)
Definition query_chunks (self : Chroma.ChromaDBHandler vector)
    (query_text : string) (n_results : Z)
    : list RetrievedChunk * list query_event :=
  match Chroma.collection self with
  | None => ([], [QueryLog ERROR QueryCollectionNotInitialized])
  | Some rows =>
      match Chroma.model self with
      | None => ([], [QueryLog ERROR QueryModelNotLoaded])
      | Some _ =>
          let (embeddings, t1) :=
            Chroma._generate_embeddings self [query_text] in
          let t1 := map Embedding t1 in
          match embeddings with
          | [] => ([], t1 ++ [QueryLog ERROR (QueryError IndexError)])
          | query_embedding :: _ =>
              if (dimension query_embedding =? 0)%nat then
                ([], t1 ++ [QueryLog ERROR QueryEmbeddingFailed])
              else
                let t2 := t1 ++ [CollectionQuery n_results] in
                match collection_query rows query_embedding n_results with
                | Raise e => ([], t2 ++ [QueryLog ERROR (QueryError e)])
                | Ok results =>
                    match collect results with
                    | Raise e => ([], t2 ++ [QueryLog ERROR (QueryError e)])
                    | Ok retrieved_chunks =>
                        (retrieved_chunks,
                         t2 ++ [QueryLog INFO
                                  (QueryRetrieved
                                     (List.length retrieved_chunks)
                                     query_text)])
                    end
                end
          end
      end
  end.

End Query.

Arguments QueryResult : clear implicits.
Arguments RetrievedChunk : clear implicits.

End Retrieval.

(** ** main.py: the context block of [ask_question] *)

Module Context.
Import Retrieval.

(** The line feed. *)
Definition nl : string := String (ascii_of_nat 10) EmptyString.

(** [f"{v}"] for a metadata value. *)
Definition format_value (v : meta_value) : string :=
  match v with
  | MStr s => s
  | MInt z => NilEmpty.string_of_int (Z.to_int z)
  end.

(** [metadata.get(key, default)], formatted. *)
Definition get_formatted (metadata : Dict.t meta_value) (key default : string)
    : string :=
  match Dict.get metadata key with
  | Some v => format_value v
  | None => default
  end.

(** Lines 176-177: the two lines a chunk adds to the context. *)
Definition section {number : Type} (chunk : RetrievedChunk number)
    : string :=
  let article_title := get_formatted (metadata chunk) "title" "Unknown Title" in
  let article_id := get_formatted (metadata chunk) "article_id" "Unknown ID" in
  ("--- Article: " ++ article_title ++ " (PMID: " ++ article_id ++ ") ---" ++ nl)
  ++ (document chunk ++ nl ++ nl).

(** Lines 171-177: the loop over the retrieved chunks. *)
Definition sections {number : Type}
    (retrieved_chunks : list (RetrievedChunk number)) : string :=
  fold_left
    (fun (context_string : string) chunk =>
       (context_string ++ section chunk)%string)
    retrieved_chunks EmptyString.

Definition no_context : string := "No relevant context found.".

(** Lines 167-181: the context handed to the generation service. *)
Definition build_context {number : Type}
    (retrieved_chunks : list (RetrievedChunk number)) : string :=
  let context_string := sections retrieved_chunks in
  if Text.is_empty context_string then no_context else context_string.

End Context.

(** ** Notions used to state further properties of the pipeline *)

Module IngestSpec.

(** Events that touch neither store nor the embedding model: log records
    and calls to the bibliographic source. *)
Definition quiet (e : event) : Prop :=
  match e with
  | Log _ _ | EntrezSearch _ _ | EntrezFetch _ => True
  | _ => False
  end.

(** A write to the metadata store. *)
Definition is_insert (e : event) : Prop :=
  match e with
  | MongoInsertOne _ => True
  | _ => False
  end.

(** The identifiers of the records that are ingested, in order. *)
Definition ingested_ids (records : list Medline.t) : list string :=
  flat_map (fun r => match Ingest.ingested_id r with
                     | Some pmid => [pmid]
                     | None => []
                     end) records.

(** The events of the parsing loop: its four log records. *)
Definition parse_event (e : event) : Prop :=
  match e with
  | Log WARNING (IngestDateError _ _)
  | Log WARNING (IngestUnrecognizedDate _ _)
  | Log WARNING (IngestSkipMissingPmid _)
  | Log INFO (IngestProcessed _ _ _ _) => True
  | _ => False
  end.

(** The events of [insert_article]: its calls of the store and its log
    records. *)
Definition mongo_event (e : event) : Prop :=
  match e with
  | MongoFindOne _ | MongoInsertOne _ => True
  | Log _ InsertNotConnected | Log _ InsertMissingId
  | Log _ (InsertAlreadyExists _) | Log _ (Inserted _)
  | Log _ (InsertOperationFailed _) | Log _ (InsertUnexpected _) => True
  | _ => False
  end.

(** The article a record is parsed into: none when it has no PMID. *)
Definition record_articles (re_match : string -> string -> bool)
    (strptime_isoformat : string -> string -> option string)
    (record : Medline.t) : list Article.t :=
  match Ingest.ingested_id record with
  | None => []
  | Some pmid =>
      [{| Article._id := Some pmid;
          Article.title := Some (Ingest.title_of record);
          Article.abstract := Some (Ingest.abstract_of record);
          Article.authors := Some (Ingest.authors_of record);
          Article.publication_date :=
            fst (Ingest.parse_publication_date re_match strptime_isoformat
                   (Medline.PMID record) (Medline.DP record));
          Article.source := Some "PubMed" |}]
  end.

(** The batch after parsing the records, starting from the batch [b]. *)
Definition batch_after (re_match : string -> string -> bool)
    (strptime_isoformat : string -> string -> option string)
    (records : list Medline.t) (b : Ingest.Batch) : Ingest.Batch :=
  {| Ingest.articles_to_mongo :=
       Ingest.articles_to_mongo b ++
       flat_map (record_articles re_match strptime_isoformat) records;
     Ingest.chunks_to_chroma_texts :=
       Ingest.chunks_to_chroma_texts b ++ flat_map Ingest.record_texts records;
     Ingest.chunks_to_chroma_metadatas :=
       Ingest.chunks_to_chroma_metadatas b ++
       flat_map Ingest.record_metadatas records;
     Ingest.chunks_to_chroma_ids :=
       Ingest.chunks_to_chroma_ids b ++ flat_map Ingest.record_ids records |}.

(** A text of decimal digits. *)
Fixpoint all_digits (s : string) : bool :=
  match s with
  | EmptyString => true
  | String c s' =>
      ((48 <=? nat_of_ascii c)%nat && (nat_of_ascii c <=? 57)%nat)
      && all_digits s'
  end.

End IngestSpec.

(** ** Further sample data *)

Module MoreSamples.
Import Retrieval.

(** The answer of a vector index to a query: two chunks, nearest first. *)
Definition two_hits : QueryResult nat :=
  {| documents := [["S1. S2. S3."; "S10."]];
     metadatas := [[[("article_id", MStr "A"); ("chunk_index", MInt 0);
                     ("title", MStr "Ten sentences")];
                    [("article_id", MStr "A"); ("chunk_index", MInt 3)]]];
     distances := [[1; 4]] |}.

(** An answer that lacks the metadata of its second chunk. *)
Definition misaligned_hits : QueryResult nat :=
  {| documents := [["S1. S2. S3."; "S10."]];
     metadatas := [[[("article_id", MStr "A")]]];
     distances := [[1; 4]] |}.

Definition sample_query (hits : QueryResult nat)
    (rows : list (Chroma.Row nat)) (v : nat) (n_results : Z)
    : result (QueryResult nat) :=
  Ok hits.

(** A handler whose embedding model raises. *)
Definition failing_model : Chroma.ChromaDBHandler nat :=
  {| Chroma.collection := Some [];
     Chroma.model := Some (fun _ => Raise OtherError);
     Chroma.collection_name := "pubmed_chunks" |}.

(** A bibliographic source that is down. *)
Definition failing_esearch (term : string) (retmax : Z) : result (list string) :=
  Raise RequestError.

End MoreSamples.

(** * Properties *)

(** ** The chunker *)

Module ChunkerFacts.
Import Text Chunker.

(** [re.split] and [strip] on small texts: a boundary needs one of [.!?]
    right before the whitespace, a run of whitespace is one boundary, and a
    boundary at the end leaves an empty last piece. *)
Example re_split_samples :
  re_split "A. B! C? D" = ["A."; "B!"; "C?"; "D"] /\
  re_split "e.g.x y" = ["e.g.x y"] /\
  re_split "a.  b" = ["a."; "b"] /\
  re_split "Hi. " = ["Hi."; ""] /\
  re_split " " = [" "] /\
  re_split "" = [""] /\
  strip "  a b  " = "a b" /\
  strip " " = "".
Proof. repeat split. Qed.

Lemma succ_mod (i w : Z) :
  (0 < w)%Z ->
  ((i + 1) mod w = if (i mod w + 1 =? w) then 0 else i mod w + 1)%Z.
Proof.
  intros Hw.
  pose proof (Z.div_mod i w ltac:(lia)) as Hdm.
  pose proof (Z.mod_pos_bound i w Hw) as Hb.
  destruct (Z.eqb_spec (i mod w + 1) w) as [He | Hne]; symmetry.
  - apply Z.mod_unique with (q := (i / w + 1)%Z); lia.
  - apply Z.mod_unique with (q := (i / w)%Z); lia.
Qed.

(** When the window closes, in terms of the size of the window under
    construction. *)
Lemma window_closes_spec (w : Z) (len i : nat) (rest cur : list string) :
  (1 <= w)%Z ->
  i + S (List.length rest) = len ->
  Z.of_nat (List.length cur) = (Z.of_nat i mod w)%Z ->
  window_closes i len w = true <->
  (Z.of_nat (List.length cur) + 1 = w)%Z \/ rest = [].
Proof.
  intros Hw Hlen Hcur. unfold window_closes.
  rewrite orb_true_iff, !Z.eqb_eq, succ_mod by lia. rewrite <- Hcur.
  destruct (Z.eqb_spec (Z.of_nat (List.length cur) + 1) w) as [He | Hne].
  - split; auto.
  - split; intros [H | H].
    + lia.
    + right. destruct rest; [reflexivity | simpl in Hlen; lia].
    + lia.
    + subst rest. simpl in Hlen. right. lia.
Qed.

(** The chunks are the windows, each joined with a single space. *)
Lemma chunk_loop_windows (w : Z) (len : nat) (sentences : list string) :
  forall i cur windows,
    chunk_loop w len i sentences cur (map (join " ") windows) =
    map (join " ") (window_loop w len i sentences cur windows).
Proof.
  induction sentences as [| s rest IH]; intros i cur windows; simpl.
  - reflexivity.
  - destruct (window_closes i len w).
    + destruct (cur ++ [strip s]) as [| x l] eqn:E.
      * apply IH.
      * rewrite <- IH, map_app. reflexivity.
    + apply IH.
Qed.

Lemma window_loop_shape (w : Z) (len : nat) :
  (1 <= w)%Z ->
  forall rest i cur windows,
    i + List.length rest = len ->
    Z.of_nat (List.length cur) = (Z.of_nat i mod w)%Z ->
    (rest = [] -> cur = []) ->
    exists tail,
      window_loop w len i rest cur windows = windows ++ tail /\
      List.concat tail = cur ++ map strip rest /\
      well_windowed w tail /\
      (rest <> [] -> tail <> []).
Proof.
  intros Hw. induction rest as [| s rest IH]; intros i cur windows Hlen Hcur Hnil.
  - exists []. simpl. rewrite (Hnil eq_refl), app_nil_r.
    repeat split; [left; reflexivity | congruence].
  - simpl. set (cur' := cur ++ [strip s]).
    assert (Hcur' : List.length cur' = S (List.length cur))
      by (unfold cur'; rewrite length_app; simpl; lia).
    pose proof (Z.mod_pos_bound (Z.of_nat i) w ltac:(lia)) as Hb.
    pose proof (window_closes_spec w len i rest cur Hw
                  ltac:(simpl in Hlen; lia) Hcur) as Hspec.
    destruct (window_closes i len w) eqn:Hc.
    + assert (Hne : exists x l, cur' = x :: l)
        by (destruct cur' as [| x l]; [discriminate | eauto]).
      destruct Hne as (x & l & Ex). rewrite Ex, <- Ex.
      destruct rest as [| s' rest'].
      * exists [cur']. simpl. rewrite app_nil_r.
        repeat split; [| congruence].
        right. exists [], cur'. repeat split; auto; lia.
      * destruct (proj1 Hspec eq_refl) as [Hfull | Hempty]; [| discriminate].
        destruct (IH (S i) [] (windows ++ [cur'])) as (tail & Hrun & Hcat & Hshape & Hnon).
        -- simpl in *. lia.
        -- change (Z.of_nat (List.length (@nil string))) with 0%Z.
           rewrite Nat2Z.inj_succ, <- Z.add_1_r, succ_mod by lia.
           rewrite <- Hcur. destruct (Z.eqb_spec (Z.of_nat (List.length cur) + 1) w); lia.
        -- discriminate.
        -- exists (cur' :: tail). rewrite Hrun, <- app_assoc. simpl.
           rewrite Hcat.
           split; [reflexivity |].
           split; [unfold cur'; rewrite <- app_assoc; reflexivity |].
           split; [| congruence].
           right. destruct Hshape as [-> | (body & last & -> & Hall & Hlo & Hhi)].
           ++ exfalso. apply Hnon; [discriminate | reflexivity].
           ++ exists (cur' :: body), last. repeat split; auto.
              constructor; [lia | assumption].
    + assert (Hopen : (Z.of_nat (List.length cur) + 1 <> w)%Z /\ rest <> []).
      { split; intro H; assert (false = true) by (apply Hspec; auto);
          discriminate. }
      destruct Hopen as [Hlt Hrest].
      destruct (IH (S i) cur' windows) as (tail & Hrun & Hcat & Hshape & Hnon).
      * simpl in *. lia.
      * rewrite Hcur', !Nat2Z.inj_succ, <- !Z.add_1_r, succ_mod by lia.
        rewrite <- Hcur. destruct (Z.eqb_spec (Z.of_nat (List.length cur) + 1) w); lia.
      * intro; contradiction.
      * exists tail. rewrite Hrun, Hcat.
        split; [reflexivity |].
        split; [unfold cur'; rewrite <- app_assoc; reflexivity |].
        split; [assumption |]. intros _. apply Hnon, Hrest.
Qed.

Lemma length_concat_full (w : Z) (body : list (list string)) :
  Forall (fun g => Z.of_nat (List.length g) = w) body ->
  Z.of_nat (List.length (List.concat body)) = (w * Z.of_nat (List.length body))%Z.
Proof.
  induction 1 as [| g body Hg _ IH]; simpl.
  - lia.
  - rewrite length_app. lia.
Qed.

(** A well-windowed list over [n] sentences has [ceil(n / w)] windows. *)
Lemma well_windowed_count (w : Z) (tail : list (list string)) :
  (1 <= w)%Z -> well_windowed w tail ->
  Z.of_nat (List.length tail) = ceil_div (List.length (List.concat tail)) w.
Proof.
  intros Hw [-> | (body & last & -> & Hall & Hlo & Hhi)]; unfold ceil_div.
  - simpl. symmetry. apply Z.div_small. lia.
  - rewrite concat_app. simpl List.concat.
    rewrite app_nil_r, !length_app, !Nat2Z.inj_add.
    rewrite (length_concat_full w body Hall). simpl List.length.
    replace (w * Z.of_nat (List.length body) + Z.of_nat (List.length last) + w - 1)%Z
      with ((Z.of_nat (List.length last) - 1) + (Z.of_nat (List.length body) + 1) * w)%Z
      by lia.
    rewrite Z.div_add by lia. rewrite Z.div_small by lia. lia.
Qed.

Lemma well_windowed_sizes (w : Z) (tail : list (list string)) :
  (1 <= w)%Z -> well_windowed w tail ->
  forall k g, nth_error tail k = Some g ->
    1 <= List.length g /\ (Z.of_nat (List.length g) <= w)%Z /\
    (S k < List.length tail -> Z.of_nat (List.length g) = w).
Proof.
  intros Hw [-> | (body & last & -> & Hall & Hlo & Hhi)] k g Hk.
  - destruct k; discriminate.
  - rewrite length_app. simpl.
    destruct (Nat.lt_ge_cases k (List.length body)) as [Hin | Hout].
    + rewrite nth_error_app1 in Hk by assumption.
      rewrite Forall_forall in Hall.
      pose proof (Hall g (nth_error_In _ _ Hk)) as Hg. lia.
    + rewrite nth_error_app2 in Hk by assumption.
      destruct (k - List.length body) as [| j] eqn:Ej.
      * simpl in Hk. injection Hk as <-. lia.
      * destruct j; discriminate.
Qed.

Lemma chunk_text_empty {Self : Type} (self : Self) (w : Z) :
  _chunk_text self "" w = Ok [].
Proof. reflexivity. Qed.

(** C2.  For a window size [w >= 1] and a text of [n] sentences (the
    pieces the sentence-boundary rule splits it into, none for the empty
    text), [_chunk_text] returns [ceil(n / w)] chunks.  The chunks are the
    space-joined windows of consecutive stripped sentences: every window
    holds between 1 and [w] sentences, and exactly [w] unless it is the
    last.  The result depends on the text and the window size only, so a
    second call on the same input returns the same chunks. *)
Theorem chunk_text_windows {Self : Type} (self : Self) (text : string) (w : Z) :
  (1 <= w)%Z ->
  exists windows : list (list string),
    _chunk_text self text w = Ok (map (join " ") windows) /\
    List.concat windows = map strip (sentences_of text) /\
    Z.of_nat (List.length windows) =
      ceil_div (List.length (sentences_of text)) w /\
    (forall k g, nth_error windows k = Some g ->
       1 <= List.length g /\ (Z.of_nat (List.length g) <= w)%Z /\
       (S k < List.length windows -> Z.of_nat (List.length g) = w)) /\
    (forall (Self' : Type) (self' : Self'),
       _chunk_text self' text w = _chunk_text self text w).
Proof.
  intros Hw. unfold _chunk_text, sentences_of.
  destruct (is_empty text).
  - exists []. repeat split.
    + unfold ceil_div. simpl. symmetry. apply Z.div_small. lia.
    + destruct k; discriminate.
    + destruct k; discriminate.
    + destruct k; discriminate.
  - destruct (Z.eqb_spec w 0) as [-> | _]; [lia |].
    destruct (window_loop_shape w (List.length (re_split text)) Hw
                (re_split text) 0 [] [] eq_refl)
      as (tail & Hrun & Hcat & Hshape & _).
    + rewrite Z.mod_0_l by lia. reflexivity.
    + reflexivity.
    + simpl in Hrun, Hcat. exists tail. split; [| split; [| split; [| split]]].
      * change (@nil string) with (map (join " ") []) at 2.
        rewrite chunk_loop_windows, Hrun. reflexivity.
      * assumption.
      * rewrite (well_windowed_count w tail Hw Hshape), Hcat, length_map.
        reflexivity.
      * apply well_windowed_sizes; assumption.
      * reflexivity.
Qed.

Lemma chunk_text_windows_witness :
  exists windows : list (list string),
    _chunk_text tt "Aims. Methods! Results? End" 3 = Ok (map (join " ") windows) /\
    List.concat windows = map strip (sentences_of "Aims. Methods! Results? End") /\
    Z.of_nat (List.length windows) =
      ceil_div (List.length (sentences_of "Aims. Methods! Results? End")) 3 /\
    (forall k g, nth_error windows k = Some g ->
       1 <= List.length g /\ (Z.of_nat (List.length g) <= 3)%Z /\
       (S k < List.length windows -> Z.of_nat (List.length g) = 3%Z)) /\
    (forall (Self' : Type) (self' : Self'),
       _chunk_text self' "Aims. Methods! Results? End" 3 =
       _chunk_text tt "Aims. Methods! Results? End" 3).
Proof.
  apply (chunk_text_windows tt "Aims. Methods! Results? End" 3). lia.
Defined.

(** The chunks of a four-sentence text for windows of three and of two. *)
Example chunk_text_four_sentences :
  _chunk_text tt "Aims. Methods! Results? End" 3 =
    Ok ["Aims. Methods! Results?"; "End"] /\
  _chunk_text tt "Aims.  Methods! Results?
End" 2 = Ok ["Aims. Methods!"; "Results? End"].
Proof. split; reflexivity. Qed.

(** C3.  [_chunk_text] returns an empty chunk on an input that consists of
    whitespace only, and on an input that ends in whitespace after a full
    last window: line 66 tests the list of sentences of the window, which is
    never empty there, and not the joined text.  Evaluated at the text of
    one space and at a text of three sentences followed by a space, with
    the default window size 3. *)
Theorem chunk_text_whitespace_gives_empty_chunk :
  _chunk_text tt " " 3 = Ok [""] /\
  _chunk_text tt "A. B. C. " 3 = Ok ["A. B. C."; ""].
Proof. split; reflexivity. Qed.

End ChunkerFacts.

(** ** Dicts *)

Module DictFacts.

Lemma get_none {V : Type} (d : Dict.t V) (k : string) :
  Dict.get d k = None <-> ~ In k (map fst d).
Proof.
  induction d as [| [k' v] d IH]; simpl.
  - tauto.
  - destruct (String.eqb_spec k k') as [-> | Hne].
    + split; [discriminate | intros H; exfalso; apply H; auto].
    + rewrite IH. split; [intros H [E | I]; [congruence | tauto] | tauto].
Qed.

Lemma get_app_absent {V : Type} (d : Dict.t V) (k : string) (v : V) :
  Dict.get d k = None -> Dict.get (d ++ [(k, v)]) k = Some v.
Proof.
  induction d as [| [k' v'] d IH]; simpl; intros H.
  - rewrite String.eqb_refl. reflexivity.
  - destruct (String.eqb k k'); [discriminate | auto].
Qed.

Lemma mem_get {V : Type} (d : Dict.t V) (k : string) :
  Dict.mem d k = false <-> Dict.get d k = None.
Proof.
  unfold Dict.mem. destruct (Dict.get d k); split; congruence.
Qed.

(** Writing a value that satisfies [P] keeps [P] on all values. *)
Lemma set_forall {V : Type} (P : V -> Prop) (d : Dict.t V) (k : string) (v : V) :
  Forall (fun kv => P (snd kv)) d -> P v ->
  Forall (fun kv => P (snd kv)) (Dict.set d k v).
Proof.
  induction 1 as [| [k' v'] d Hv Hd IH]; simpl; intros Pv.
  - repeat constructor. assumption.
  - destruct (String.eqb k k'); constructor; auto.
Qed.

Lemma update_forall {V : Type} (P : V -> Prop) (d : Dict.t V) (k : string)
    (f : V -> V) :
  (forall v, P v -> P (f v)) ->
  Forall (fun kv => P (snd kv)) d ->
  Forall (fun kv => P (snd kv)) (Dict.update d k f).
Proof.
  intros Hf. induction 1 as [| [k' v'] d Hv Hd IH]; simpl.
  - constructor.
  - destruct (String.eqb k k'); constructor; auto. apply Hf, Hv.
Qed.

End DictFacts.

(** ** The metadata store *)

Module MongoFacts.
Import Mongo DictFacts Samples.

Lemma count_id_absent (coll : collection) (id : string) :
  find_one coll id = None -> count_id coll id = 0.
Proof.
  unfold find_one, count_id.
  induction coll as [| [k v] coll IH]; simpl; [reflexivity |].
  destruct (String.eqb id k); [discriminate | exact IH].
Qed.

Lemma count_id_present (coll : collection) (id : string) (d : Article.t) :
  NoDup (map fst coll) -> find_one coll id = Some d -> count_id coll id = 1.
Proof.
  unfold find_one, count_id.
  induction coll as [| [k v] coll IH]; simpl; [discriminate |].
  intros Hnd Hget. inversion Hnd as [| ? ? Hk Hnd']; subst.
  destruct (String.eqb_spec id k) as [-> | Hne].
  - simpl. f_equal. apply (count_id_absent coll k), get_none, Hk.
  - apply IH; assumption.
Qed.

Lemma count_id_app (coll1 coll2 : collection) (id : string) :
  count_id (coll1 ++ coll2) id = count_id coll1 id + count_id coll2 id.
Proof. unfold count_id. rewrite filter_app, length_app. reflexivity. Qed.

(** [insert_article] keeps the identifiers of the collection unique. *)
Lemma insert_article_keeps_unique (coll : collection) (a : Article.t) :
  NoDup (map fst coll) ->
  match articles_collection (snd (fst
          (insert_article {| articles_collection := Some coll |} a))) with
  | Some coll' => NoDup (map fst coll')
  | None => False
  end.
Proof.
  intros Hnd. unfold insert_article. simpl.
  destruct (Article._id a) as [id |]; simpl; [| assumption].
  destruct (find_one coll id) eqn:Hfind; simpl; [assumption |].
  unfold insert_one. rewrite (proj2 (mem_get coll id) Hfind). simpl.
  rewrite map_app. simpl.
  apply NoDup_app; [assumption | repeat constructor; simpl; tauto |].
  intros k Hk [<- | []]. revert Hk. apply get_none, Hfind.
Qed.

(** C1.  On a connected store whose identifiers are unique, two calls of
    [insert_article] with articles of the same identifier [id] both return
    [id]; after them the store holds exactly one article under [id], the one
    it held before the first call or else the article of the first call; and
    the second call leaves the handler as it was and makes no write to the
    store: it only looks the identifier up and logs the skip. *)
Theorem insert_article_twice (coll : collection) (a1 a2 : Article.t)
    (id : string) :
  NoDup (map fst coll) ->
  Article._id a1 = Some id ->
  Article._id a2 = Some id ->
  exists coll1 t1,
    insert_article {| articles_collection := Some coll |} a1 =
      (Some id, {| articles_collection := Some coll1 |}, t1) /\
    insert_article {| articles_collection := Some coll1 |} a2 =
      (Some id, {| articles_collection := Some coll1 |},
       [MongoFindOne id; Log INFO (InsertAlreadyExists id)]) /\
    count_id coll1 id = 1 /\
    find_one coll1 id =
      Some (match find_one coll id with Some stored => stored | None => a1 end).
Proof.
  intros Hnd H1 H2. unfold insert_article. simpl. rewrite H1, H2.
  destruct (find_one coll id) as [stored |] eqn:Hfind.
  - exists coll, [MongoFindOne id; Log INFO (InsertAlreadyExists id)].
    rewrite Hfind. repeat split.
    apply (count_id_present coll id stored); assumption.
  - unfold insert_one. rewrite (proj2 (mem_get coll id) Hfind).
    exists (coll ++ [(id, a1)]),
      [MongoFindOne id; MongoInsertOne a1; Log INFO (Inserted id)].
    assert (Hnew : find_one (coll ++ [(id, a1)]) id = Some a1)
      by (apply get_app_absent, Hfind).
    rewrite Hnew. repeat split.
    rewrite count_id_app, (count_id_absent coll id Hfind).
    unfold count_id. simpl. rewrite String.eqb_refl. reflexivity.
Qed.

Lemma insert_article_twice_witness :
  exists coll1 t1,
    insert_article (connected []) (article "P1" "First" ["Kim S"]) =
      (Some "P1", connected coll1, t1) /\
    insert_article (connected coll1) (article "P1" "Second" ["Lee D"]) =
      (Some "P1", connected coll1,
       [MongoFindOne "P1"; Log INFO (InsertAlreadyExists "P1")]) /\
    count_id coll1 "P1" = 1 /\
    find_one coll1 "P1" = Some (article "P1" "First" ["Kim S"]).
Proof.
  apply (insert_article_twice [] (article "P1" "First" ["Kim S"])
           (article "P1" "Second" ["Lee D"]) "P1").
  - constructor.
  - reflexivity.
  - reflexivity.
Defined.

(** A handler that is not connected stores nothing and returns [None]. *)
Example insert_article_not_connected :
  insert_article {| articles_collection := None |}
    (article "P1" "First" ["Kim S"]) =
  (None, {| articles_collection := None |}, [Log ERROR InsertNotConnected]).
Proof. reflexivity. Qed.

End MongoFacts.

(** ** The co-authorship graph *)

Module GraphFacts.
Import Mongo DictFacts Samples.

(** *** [sorted] *)

Lemma compare_lt_trans (a b c : string) :
  String.compare a b = Lt -> String.compare b c = Lt -> String.compare a c = Lt.
Proof.
  intros Hab Hbc.
  apply OrderedTypeEx.String_as_OT.cmp_lt.
  apply OrderedTypeEx.String_as_OT.lt_trans with (y := b);
    apply OrderedTypeEx.String_as_OT.cmp_lt; assumption.
Qed.

Lemma compare_refl (a : string) : String.compare a a = Eq.
Proof.
  pose proof (String.compare_antisym a a) as H.
  destruct (String.compare a a); simpl in H; congruence.
Qed.

Lemma le_trans (a b c : string) : le a b -> le b c -> le a c.
Proof.
  unfold le, String.leb. intros Hab Hbc.
  destruct (String.compare a b) eqn:Eab; try discriminate.
  - apply String.compare_eq_iff in Eab. subst. assumption.
  - destruct (String.compare b c) eqn:Ebc; try discriminate.
    + apply String.compare_eq_iff in Ebc. subst. rewrite Eab. reflexivity.
    + rewrite (compare_lt_trans a b c Eab Ebc). reflexivity.
Qed.

Lemma ltb_le (a b : string) : String.ltb a b = true -> le a b.
Proof.
  unfold le, String.ltb, String.leb.
  destruct (String.compare a b); congruence.
Qed.

Lemma ltb_neq (a b : string) : String.ltb a b = true -> a <> b.
Proof.
  unfold String.ltb. intros H ->. rewrite compare_refl in H. discriminate.
Qed.

Lemma insert_sorted_perm (x : string) (l : list string) :
  Permutation (insert_sorted x l) (x :: l).
Proof.
  induction l as [| y l IH]; simpl.
  - reflexivity.
  - destruct (String.leb x y).
    + reflexivity.
    + rewrite IH. apply perm_swap.
Qed.

Lemma sorted_perm (l : list string) : Permutation (sorted l) l.
Proof.
  induction l as [| x l IH]; simpl.
  - reflexivity.
  - rewrite insert_sorted_perm. constructor. exact IH.
Qed.

Lemma insert_sorted_ordered (x : string) (l : list string) :
  StronglySorted le l -> StronglySorted le (insert_sorted x l).
Proof.
  induction 1 as [| y l Hl IH Hy]; simpl.
  - repeat constructor.
  - destruct (String.leb x y) eqn:Exy.
    + constructor; [constructor; assumption |].
      constructor; [exact Exy |].
      rewrite Forall_forall in *. intros z Hz.
      apply le_trans with (b := y); [exact Exy | auto].
    + constructor; [exact IH |].
      assert (Hyx : le y x)
        by (destruct (String.leb_total x y) as [H | H]; [congruence | exact H]).
      rewrite Forall_forall in *. intros z Hz.
      apply (Permutation_in _ (insert_sorted_perm x l)) in Hz.
      destruct Hz as [<- | Hz]; auto.
Qed.

Lemma sorted_ordered (l : list string) : StronglySorted le (sorted l).
Proof.
  induction l as [| x l IH]; simpl.
  - constructor.
  - apply insert_sorted_ordered, IH.
Qed.

(** A list has one ordered arrangement. *)
Lemma ordered_perm_eq (l1 : list string) :
  forall l2, StronglySorted le l1 -> StronglySorted le l2 ->
    Permutation l1 l2 -> l1 = l2.
Proof.
  induction l1 as [| x l1 IH]; intros l2 H1 H2 Hp.
  - apply Permutation_nil in Hp. congruence.
  - destruct l2 as [| y l2].
    + symmetry in Hp. apply Permutation_nil in Hp. discriminate.
    + inversion H1 as [| ? ? H1' Hx]; subst.
      inversion H2 as [| ? ? H2' Hy]; subst.
      rewrite Forall_forall in Hx, Hy.
      assert (x = y) as ->.
      { assert (Hin1 : In x (y :: l2))
          by (apply (Permutation_in _ Hp); left; reflexivity).
        assert (Hin2 : In y (x :: l1))
          by (apply (Permutation_in _ (Permutation_sym Hp)); left; reflexivity).
        destruct Hin1 as [E | Hin1]; [congruence |].
        destruct Hin2 as [E | Hin2]; [congruence |].
        apply String.leb_antisym; [apply Hx, Hin2 | apply Hy, Hin1]. }
      f_equal. apply IH; try assumption.
      apply Permutation_cons_inv with (a := y). exact Hp.
Qed.

(** [sorted] does not depend on the order of its argument. *)
Lemma sorted_permutation (l1 l2 : list string) :
  Permutation l1 l2 -> sorted l1 = sorted l2.
Proof.
  intros Hp. apply ordered_perm_eq; try apply sorted_ordered.
  rewrite !sorted_perm. exact Hp.
Qed.

Lemma sorted_of_ordered (l : list string) :
  StronglySorted le l -> sorted l = l.
Proof.
  intros H. apply ordered_perm_eq; [apply sorted_ordered | exact H | apply sorted_perm].
Qed.

(** *** [combinations2] *)

Lemma combinations2_distinct (l : list string) :
  NoDup l -> Forall (fun p => fst p <> snd p) (combinations2 l).
Proof.
  induction 1 as [| x l Hx Hl IH]; simpl.
  - constructor.
  - apply Forall_app. split; [| exact IH].
    rewrite Forall_forall. intros p Hp.
    apply in_map_iff in Hp. destruct Hp as (y & <- & Hy). simpl.
    intros ->. contradiction.
Qed.

(** *** Links *)

Lemma add_link_no_self (pmid title : string) (links : Dict.t Link.t)
    (pair : string * string) :
  Forall (fun kv => no_self_link (snd kv)) links ->
  fst pair <> snd pair ->
  Forall (fun kv => no_self_link (snd kv)) (add_link pmid title links pair).
Proof.
  intros Hall Hne. destruct pair as [a1 a2]. unfold add_link.
  apply update_forall; [intros v Hv; exact Hv |].
  destruct (Dict.mem links (link_key a1 a2)); [exact Hall |].
  apply set_forall; [exact Hall | exact Hne].
Qed.

Lemma fold_add_link_no_self (pmid title : string) (pairs : list (string * string)) :
  forall links,
    Forall (fun kv => no_self_link (snd kv)) links ->
    Forall (fun p => fst p <> snd p) pairs ->
    Forall (fun kv => no_self_link (snd kv))
      (fold_left (add_link pmid title) pairs links).
Proof.
  induction pairs as [| p pairs IH]; simpl; intros links Hall Hp.
  - exact Hall.
  - inversion Hp; subst. apply IH; [apply add_link_no_self |]; assumption.
Qed.

Lemma add_links_no_self (pmid title : string) (authors : list string)
    (links : Dict.t Link.t) :
  NoDup authors ->
  Forall (fun kv => no_self_link (snd kv)) links ->
  Forall (fun kv => no_self_link (snd kv)) (add_links pmid title authors links).
Proof.
  intros Hnd Hall. unfold add_links.
  destruct (1 <? List.length authors)%nat; [| exact Hall].
  apply fold_add_link_no_self; [exact Hall |].
  apply combinations2_distinct.
  apply (Permutation_NoDup (Permutation_sym (sorted_perm authors))), Hnd.
Qed.

Lemma fold_add_article_no_self (articles : list (string * Article.t)) :
  forall state,
    Forall (fun d => NoDup (authors_of (snd d))) articles ->
    Forall (fun kv => no_self_link (snd kv)) (snd state) ->
    Forall (fun kv => no_self_link (snd kv))
      (snd (fold_left add_article articles state)).
Proof.
  induction articles as [| d articles IH]; simpl; intros [nodes links] Hnd Hall.
  - exact Hall.
  - inversion Hnd; subst. apply IH; [assumption |].
    simpl. apply add_links_no_self; assumption.
Qed.

Lemma links_of_build_graph (articles : list (string * Article.t)) :
  Graph.links (build_graph articles) =
  Dict.values (snd (fold_left add_article articles ([], []))).
Proof.
  unfold build_graph. destruct (fold_left add_article articles ([], [])).
  reflexivity.
Qed.

Lemma find_subset (coll : collection) (ids : option (list string)) :
  incl (find coll ids) coll.
Proof.
  destruct ids as [ids |]; simpl.
  - intros d Hd. apply filter_In in Hd. tauto.
  - apply incl_refl.
Qed.

Lemma fold_add_article_links (articles : list (string * Article.t)) :
  forall state,
    snd (fold_left add_article articles state) =
    fold_left links_step articles (snd state).
Proof.
  induction articles as [| d articles IH]; intros [nodes links]; simpl.
  - reflexivity.
  - rewrite IH. reflexivity.
Qed.

Lemma add_links_few_authors (pmid title : string) (authors : list string)
    (links : Dict.t Link.t) :
  List.length authors < 2 -> add_links pmid title authors links = links.
Proof.
  intros H. unfold add_links.
  destruct (Nat.ltb_spec 1 (List.length authors)); [lia | reflexivity].
Qed.

(** Articles with fewer than two authors can be left out of the input
    without changing the links. *)
Lemma links_ignore_small_articles (articles : list (string * Article.t)) :
  Graph.links (build_graph articles) =
  Graph.links (build_graph
    (filter (fun d => (1 <? List.length (authors_of (snd d)))%nat) articles)).
Proof.
  rewrite !links_of_build_graph, !fold_add_article_links. simpl. f_equal.
  generalize (@nil (string * Link.t)).
  induction articles as [| d articles IH]; intros links; simpl.
  - reflexivity.
  - destruct (Nat.ltb_spec 1 (List.length (authors_of (snd d)))) as [Hbig | Hsmall].
    + simpl. apply IH.
    + unfold links_step at 2. rewrite add_links_few_authors by lia. apply IH.
Qed.

(** C4, as the code has it.  When no stored article lists the same name
    twice, no link of the graph built by [get_author_network_data], for any
    filter, joins an author to itself.  Whatever the names, an article with
    fewer than two authors leaves the links as they are, and the links of
    the graph are those built from the articles with two authors or more. *)
Theorem links_join_distinct_authors (coll : collection)
    (article_pmids : option (list string)) (l : Link.t)
    (state : Dict.t Node.t * Dict.t Link.t) (d : string * Article.t) :
  (Forall (fun d => NoDup (authors_of (snd d))) coll ->
   In l (Graph.links
           (fst (get_author_network_data (connected coll) article_pmids))) ->
   Link.source l <> Link.target l) /\
  (List.length (authors_of (snd d)) < 2 ->
   snd (add_article state d) = snd state) /\
  Graph.links (build_graph coll) =
  Graph.links (build_graph
    (filter (fun d => (1 <? List.length (authors_of (snd d)))%nat) coll)).
Proof.
  split; [| split].
  - intros Hnd Hin. unfold get_author_network_data, connected in Hin.
    simpl in Hin.
    assert (Hall : forall q,
      Forall (fun kv => no_self_link (snd kv))
        (snd (fold_left add_article (find coll q) ([], [])))).
    { intros q. apply fold_add_article_no_self; [| constructor].
      rewrite Forall_forall in *. intros x Hx. apply Hnd.
      apply (find_subset coll q), Hx. }
    assert (Hq : exists q, In l (Graph.links (build_graph (find coll q)))).
    { destruct article_pmids as [[| p ps] |]; simpl in Hin.
      - exists None. exact Hin.
      - exists (Some (p :: ps)). exact Hin.
      - exists None. exact Hin. }
    destruct Hq as (q & Hq). rewrite links_of_build_graph in Hq.
    unfold Dict.values in Hq. apply in_map_iff in Hq.
    destruct Hq as (kv & <- & Hkv).
    specialize (Hall q). rewrite Forall_forall in Hall. apply (Hall kv Hkv).
  - intros Hsmall. destruct state as [nodes links]. simpl.
    apply add_links_few_authors, Hsmall.
  - apply links_ignore_small_articles.
Qed.

Lemma links_join_distinct_authors_witness :
  Link.source
    {| Link.source := "Alice Smith"; Link.target := "David Lee";
       Link.articles :=
         [{| LinkArticle.pmid := "PMID2";
             LinkArticle.title := "AI in Medical Diagnostics" |}] |} <>
  "David Lee" /\
  snd (add_article ([], []) (stored "P9" "Alone" ["Eve White"])) = [].
Proof.
  pose proof (links_join_distinct_authors dummy_articles
                (Some ["PMID2"; "PMID3"])
                {| Link.source := "Alice Smith"; Link.target := "David Lee";
                   Link.articles :=
                     [{| LinkArticle.pmid := "PMID2";
                         LinkArticle.title := "AI in Medical Diagnostics" |}] |}
                ([], []) (stored "P9" "Alone" ["Eve White"]))
    as (Hdistinct & Hsmall & _).
  split.
  - apply Hdistinct.
    + repeat constructor; simpl; intuition discriminate.
    + simpl. left. reflexivity.
  - apply Hsmall. simpl. lia.
Defined.

(** C4 as stated fails: an article that lists the name "Wang Y" twice gives
    a link from "Wang Y" to "Wang Y". *)
Lemma namesakes_give_self_link :
  ~ (forall (coll : collection) (article_pmids : option (list string))
            (l : Link.t),
       In l (Graph.links
               (fst (get_author_network_data (connected coll) article_pmids))) ->
       Link.source l <> Link.target l).
Proof.
  intros H.
  apply (H namesakes None
           {| Link.source := "Wang Y"; Link.target := "Wang Y";
              Link.articles :=
                [{| LinkArticle.pmid := "P1";
                    LinkArticle.title := "Cohort study" |}] |}).
  - simpl. left. reflexivity.
  - reflexivity.
Qed.

(** C10.  [get_author_network_data] treats the empty list of identifiers as
    no filter: the graph and the trace are those of the call without a
    filter, and the graph is built over every stored article. *)
Theorem empty_filter_is_no_filter (self : MongoDBHandler) :
  get_author_network_data self (Some []) = get_author_network_data self None /\
  fst (get_author_network_data self (Some [])) =
    build_graph (match articles_collection self with
                 | Some coll => coll
                 | None => []
                 end).
Proof.
  unfold get_author_network_data.
  destruct (articles_collection self) as [coll |]; split; reflexivity.
Qed.

(** On the three articles of the module's test run the empty filter gives
    the five links of the whole store, and a filter that names one article
    gives the one link of that article. *)
Example empty_filter_on_dummy_articles :
  List.length (Graph.links
    (fst (get_author_network_data (connected dummy_articles) (Some [])))) = 5 /\
  List.length (Graph.links
    (fst (get_author_network_data (connected dummy_articles)
            (Some ["PMID3"])))) = 1.
Proof. split; reflexivity. Qed.

(** *** Pair keys *)

Lemma append_cancel_l (s t1 t2 : string) :
  (s ++ t1 = s ++ t2)%string -> t1 = t2.
Proof.
  induction s as [| c s IH]; simpl; intros H.
  - exact H.
  - injection H as H. auto.
Qed.

Lemma length_append (s t : string) :
  String.length (s ++ t)%string = String.length s + String.length t.
Proof.
  induction s as [| c s IH]; simpl; [reflexivity | rewrite IH; reflexivity].
Qed.

Lemma append_cancel_r (t s1 : string) :
  forall s2, (s1 ++ t = s2 ++ t)%string -> s1 = s2.
Proof.
  induction s1 as [| c s1 IH]; intros [| c' s2] H; simpl in H.
  - reflexivity.
  - apply (f_equal String.length) in H. simpl in H.
    rewrite length_append in H. lia.
  - apply (f_equal String.length) in H. simpl in H.
    rewrite length_append in H. lia.
  - injection H as -> H. f_equal. apply IH, H.
Qed.

Lemma link_key_same_source (a b c : string) :
  link_key a b = link_key a c -> b = c.
Proof.
  unfold link_key. intros H.
  apply append_cancel_l in H. apply (append_cancel_l "--") in H. exact H.
Qed.

Lemma link_key_same_target (a b c : string) :
  link_key a c = link_key b c -> a = b.
Proof. unfold link_key. apply append_cancel_r. Qed.

(** The one link an article gives to a pair of its authors. *)
Lemma sorted_three (a b c : string) (authors : list string) :
  String.ltb a b = true -> String.ltb b c = true ->
  Permutation authors [a; b; c] -> sorted authors = [a; b; c].
Proof.
  intros Hab Hbc Hp. rewrite (sorted_permutation _ _ Hp).
  apply sorted_of_ordered.
  pose proof (ltb_le a b Hab) as Lab. pose proof (ltb_le b c Hbc) as Lbc.
  pose proof (le_trans a b c Lab Lbc) as Lac.
  repeat constructor; assumption.
Qed.

(** The first half of C5 where the pair keys are distinct: an article whose
    authors are [a < b < c], stored in any order, gives the three links
    [(a, b)], [(a, c)], [(b, c)], in this order, each listing the article. *)
Lemma three_authors_three_links (id title a b c : string)
    (authors : list string) :
  String.ltb a b = true -> String.ltb b c = true ->
  Permutation authors [a; b; c] ->
  link_key a b <> link_key b c ->
  Graph.links (build_graph [stored id title authors]) =
    map (fun p =>
           {| Link.source := fst p; Link.target := snd p;
              Link.articles :=
                [{| LinkArticle.pmid := id; LinkArticle.title := title |}] |})
        [(a, b); (a, c); (b, c)].
Proof.
  intros Hab Hbc Hp Hkey.
  rewrite links_of_build_graph, fold_add_article_links. simpl.
  unfold links_step, add_links.
  change (authors_of (snd (stored id title authors))) with authors.
  change (title_of (snd (stored id title authors))) with title.
  change (fst (stored id title authors)) with id.
  rewrite (Permutation_length Hp), (sorted_three a b c authors Hab Hbc Hp).
  simpl.
  assert (N1 : link_key a c <> link_key a b).
  { intros E. apply link_key_same_source in E.
    apply (ltb_neq b c Hbc). congruence. }
  assert (N2 : link_key b c <> link_key a c).
  { intros E. apply link_key_same_target in E.
    apply (ltb_neq a b Hab). congruence. }
  apply String.eqb_neq in N1, N2.
  assert (N3 : String.eqb (link_key b c) (link_key a b) = false)
    by (apply String.eqb_neq; congruence).
  unfold add_link, Dict.mem.
  repeat (progress (simpl; rewrite ?String.eqb_refl, ?N1, ?N2, ?N3)).
  reflexivity.
Qed.

(** The second half of C5: the links do not depend on the order in which
    the articles list their authors. *)
Lemma links_independent_of_author_order
    (articles articles' : list (string * Article.t)) :
  Forall2 (fun d d' =>
             fst d = fst d' /\ title_of (snd d) = title_of (snd d') /\
             Permutation (authors_of (snd d)) (authors_of (snd d')))
          articles articles' ->
  Graph.links (build_graph articles) = Graph.links (build_graph articles').
Proof.
  intros H. rewrite !links_of_build_graph, !fold_add_article_links.
  simpl. f_equal. generalize (@nil (string * Link.t)).
  induction H as [| d d' articles articles' (Hid & Htitle & Hp) _ IH];
    intros links; simpl.
  - reflexivity.
  - replace (links_step links d') with (links_step links d); [apply IH |].
    unfold links_step, add_links.
    rewrite Hid, Htitle, (Permutation_length Hp), (sorted_permutation _ _ Hp).
    reflexivity.
Qed.

(** Two articles by the same two authors, listed in opposite orders, give
    one link that lists both articles. *)
Example two_bylines_one_link :
  Graph.links (build_graph [stored "P1" "First" ["Lee D"; "Kim S"];
                            stored "P2" "Second" ["Kim S"; "Lee D"]]) =
  [{| Link.source := "Kim S"; Link.target := "Lee D";
      Link.articles :=
        [{| LinkArticle.pmid := "P1"; LinkArticle.title := "First" |};
         {| LinkArticle.pmid := "P2"; LinkArticle.title := "Second" |}] |}].
Proof. reflexivity. Qed.

(** C5.  The key of a pair is the two names around ["--"], and two pairs of
    one article can have the same key.  The article with the authors
    ["a-"; "-a"; "-a-"] has the sorted authors ["-a" < "-a-" < "a-"]; the
    pairs [("-a", "-a-")] and [("-a-", "a-")] both have the key ["-a---a-"].
    The graph builder returns two links for it instead of three: the link
    [("-a", "-a-")] lists the article twice and there is no link
    [("-a-", "a-")]. *)
Theorem colliding_pair_keys_merge_links :
  link_key "-a" "-a-" = link_key "-a-" "a-" /\
  sorted ["a-"; "-a"; "-a-"] = ["-a"; "-a-"; "a-"] /\
  Graph.links (fst (get_author_network_data (connected colliding) None)) =
  [{| Link.source := "-a"; Link.target := "-a-";
      Link.articles :=
        [{| LinkArticle.pmid := "P1"; LinkArticle.title := "Trial" |};
         {| LinkArticle.pmid := "P1"; LinkArticle.title := "Trial" |}] |};
   {| Link.source := "-a"; Link.target := "a-";
      Link.articles :=
        [{| LinkArticle.pmid := "P1"; LinkArticle.title := "Trial" |}] |}].
Proof. repeat split. Qed.

End GraphFacts.

(** ** The ingestion pipeline *)

Module IngestFacts.
Import Chunker Ingest Samples.

(** With the default window of three sentences [_chunk_text] raises
    nothing. *)
Lemma chunk_text_default {Self : Type} (self : Self) (text : string) :
  _chunk_text self text 3 = Ok (abstract_chunks text).
Proof.
  unfold abstract_chunks, _chunk_text.
  destruct (Text.is_empty text); reflexivity.
Qed.

Lemma add_chunks_of_spec (pmid title : string) (chunks : list string) :
  forall j b,
    add_chunks_of pmid title j chunks b =
    {| articles_to_mongo := articles_to_mongo b;
       chunks_to_chroma_texts := chunks_to_chroma_texts b ++ chunks;
       chunks_to_chroma_metadatas :=
         chunks_to_chroma_metadatas b ++
         map (fun k =>
                {| Metadata.article_id := pmid; Metadata.chunk_index := k;
                   Metadata.source := "abstract"; Metadata.title := title |})
             (seq j (List.length chunks));
       chunks_to_chroma_ids :=
         chunks_to_chroma_ids b ++
         map (chunk_id pmid) (seq j (List.length chunks)) |}.
Proof.
  induction chunks as [| chunk rest IH]; intros j b; simpl.
  - destruct b. simpl. rewrite !app_nil_r. reflexivity.
  - rewrite IH. simpl. rewrite <- !app_assoc. reflexivity.
Qed.

(** What parsing a batch of records appends to the three chunk lists. *)
Lemma parse_records_lists {vector : Type}
    (re_match : string -> string -> bool)
    (strptime_isoformat : string -> string -> option string)
    (self : PubMedIngestor vector) (total : nat) (records : list Medline.t) :
  forall (i : nat) (b : Batch),
  exists b' t,
    parse_records re_match strptime_isoformat self total i records b =
      (Ok b', t) /\
    chunks_to_chroma_ids b' =
      chunks_to_chroma_ids b ++ flat_map record_ids records /\
    chunks_to_chroma_metadatas b' =
      chunks_to_chroma_metadatas b ++ flat_map record_metadatas records /\
    chunks_to_chroma_texts b' =
      chunks_to_chroma_texts b ++ flat_map record_texts records.
Proof.
  induction records as [| record rest IH]; intros i b.
  - exists b, []. simpl. rewrite !app_nil_r. repeat split.
  - cbn [parse_records flat_map].
    unfold record_ids, record_metadatas, record_texts, ingested_id.
    destruct (parse_publication_date re_match strptime_isoformat
                (Medline.PMID record) (Medline.DP record)) as [date t_date].
    destruct (Medline.PMID record) as [[| c pmid] |].
    + destruct (IH (S i) b) as (b' & t & Hrun & Hids & Hmetas & Htexts).
      rewrite Hrun. eauto 10.
    + rewrite chunk_text_default, add_chunks_of_spec.
      match goal with
      | |- context [parse_records _ _ _ _ (S i) rest ?b1] =>
          destruct (IH (S i) b1) as (b' & t & Hrun & Hids & Hmetas & Htexts)
      end.
      rewrite Hrun. simpl in Hids, Hmetas, Htexts.
      eexists _, _. split; [reflexivity |].
      rewrite Hids, Hmetas, Htexts, <- !app_assoc. repeat split.
    + destruct (IH (S i) b) as (b' & t & Hrun & Hids & Hmetas & Htexts).
      rewrite Hrun. eauto 10.
Qed.

(** The identifier the code builds for chunk [j] of article [A] is [A],
    the text [_chunk_] and [j] in decimal. *)
Lemma chunk_id_format (A : string) (j : nat) :
  chunk_id A j =
  (A ++ "_chunk_" ++ NilEmpty.string_of_uint (Nat.to_uint j))%string.
Proof. reflexivity. Qed.

Lemma record_ids_spec (record : Medline.t) :
  record_ids record = spec_record_ids record.
Proof.
  unfold record_ids, spec_record_ids, spec_chunk_ids.
  destruct (ingested_id record) as [A |]; [| reflexivity].
  apply map_ext. intros j. apply chunk_id_format.
Qed.

(** C6.  Parsing a batch of records raises nothing, and appends to the
    three chunk lists, record by record in order, for every record that has
    an identifier [A] and whose abstract gives [n] chunks: the [n] chunks,
    the identifiers [A_chunk_0 .. A_chunk_(n-1)] in this order, each being
    [A] followed by [_chunk_] and the index in decimal, and next to each
    the metadata that names [A] and the index.  The identifiers depend on
    the records only, not on the ingestor, the position in the run or the
    date parser, so ingesting a record again gives the same identifiers.
    For four chunks the identifiers of [A] are [A_chunk_0], [A_chunk_1],
    [A_chunk_2] and [A_chunk_3]. *)
Theorem chunk_identifiers {vector : Type}
    (re_match : string -> string -> bool)
    (strptime_isoformat : string -> string -> option string)
    (self : PubMedIngestor vector) (total : nat) (records : list Medline.t) :
  (forall (i : nat) (b : Batch),
   exists b' t,
     parse_records re_match strptime_isoformat self total i records b =
       (Ok b', t) /\
     chunks_to_chroma_ids b' =
       chunks_to_chroma_ids b ++ flat_map spec_record_ids records /\
     chunks_to_chroma_metadatas b' =
       chunks_to_chroma_metadatas b ++ flat_map record_metadatas records /\
     chunks_to_chroma_texts b' =
       chunks_to_chroma_texts b ++ flat_map record_texts records) /\
  (forall (record : Medline.t) (A : string),
     ingested_id record = Some A ->
     spec_record_ids record =
       map (fun j => (A ++ "_chunk_" ++
                      NilEmpty.string_of_uint (Nat.to_uint j))%string)
           (seq 0 (List.length (record_texts record))) /\
     record_metadatas record =
       map (fun j =>
              {| Metadata.article_id := A; Metadata.chunk_index := j;
                 Metadata.source := "abstract";
                 Metadata.title := title_of record |})
           (seq 0 (List.length (record_texts record)))) /\
  (forall A : string,
     map (chunk_id A) (seq 0 4) =
     [(A ++ "_chunk_0")%string; (A ++ "_chunk_1")%string;
      (A ++ "_chunk_2")%string; (A ++ "_chunk_3")%string]).
Proof.
  split; [| split].
  - intros i b.
    destruct (parse_records_lists re_match strptime_isoformat self total
                records i b) as (b' & t & Hrun & Hids & Hmetas & Htexts).
    exists b', t. split; [exact Hrun |].
    split; [| split; assumption].
    rewrite Hids.
    rewrite (flat_map_ext record_ids spec_record_ids record_ids_spec).
    reflexivity.
  - intros record A HA.
    unfold spec_record_ids, spec_chunk_ids, record_metadatas, record_texts.
    rewrite HA. split; reflexivity.
  - intros A. reflexivity.
Qed.

(** The four chunk identifiers of an article [A] with ten sentences. *)
Example record_A_chunk_ids :
  record_ids record_A = ["A_chunk_0"; "A_chunk_1"; "A_chunk_2"; "A_chunk_3"] /\
  record_texts record_A =
    ["S1. S2. S3."; "S4. S5. S6."; "S7. S8. S9."; "S10."] /\
  map Metadata.chunk_index (record_metadatas record_A) = [0; 1; 2; 3] /\
  map Metadata.article_id (record_metadatas record_A) = ["A"; "A"; "A"; "A"].
Proof. repeat split. Qed.

(** Parsing does not log the completion of the run. *)
Lemma parse_records_not_completed {vector : Type}
    (re_match : string -> string -> bool)
    (strptime_isoformat : string -> string -> option string)
    (self : PubMedIngestor vector) (total : nat) (term : string)
    (records : list Medline.t) :
  forall i b,
    ~ In (Log INFO (IngestCompleted term))
         (snd (parse_records re_match strptime_isoformat self total i records b)).
Proof.
  induction records as [| record rest IH]; intros i b; cbn [parse_records].
  - simpl. tauto.
  - assert (Hdate : ~ In (Log INFO (IngestCompleted term))
                      (snd (parse_publication_date re_match strptime_isoformat
                              (Medline.PMID record) (Medline.DP record)))).
    { unfold parse_publication_date.
      destruct (Medline.DP record) as [[| c raw] |]; simpl; try tauto.
      repeat match goal with
             | |- context [if ?c then _ else _] => destruct c
             | |- context [match ?o with Some _ => _ | None => _ end] =>
                 destruct o
             end; simpl; intuition discriminate. }
    destruct (parse_publication_date re_match strptime_isoformat
                (Medline.PMID record) (Medline.DP record)) as [date t_date].
    simpl in Hdate.
    destruct (Medline.PMID record) as [[| c pmid] |].
    + specialize (IH (S i) b).
      destruct (parse_records re_match strptime_isoformat self total (S i) rest b).
      simpl in *. rewrite in_app_iff. simpl. intuition discriminate.
    + rewrite chunk_text_default.
      match goal with
      | |- context [parse_records _ _ _ _ (S i) rest ?b1] =>
          specialize (IH (S i) b1);
          destruct (parse_records re_match strptime_isoformat self total (S i) rest b1)
      end.
      simpl in *. rewrite in_app_iff. simpl. intuition discriminate.
    + specialize (IH (S i) b).
      destruct (parse_records re_match strptime_isoformat self total (S i) rest b).
      simpl in *. rewrite in_app_iff. simpl. intuition discriminate.
Qed.

(** C9, as the code has it.  A run of [fetch_and_ingest] that reaches
    completion returns [None] to its caller.  It has found a non-empty list
    of identifiers, fetched and parsed the records without an exception, and
    has logged three counts: the number of identifiers found, the number of
    parsed articles handed to the metadata store, and the number of chunks
    handed to the vector store, or that there were none. *)
Theorem ingestion_returns_nothing {vector : Type}
    (collection_add :
       list (Chroma.Row vector) -> list string -> list vector ->
       list Metadata.t -> list string -> result (list (Chroma.Row vector)))
    (esearch : string -> Z -> result (list string))
    (efetch : list string -> result (list Medline.t))
    (re_match : string -> string -> bool)
    (strptime_isoformat : string -> string -> option string)
    (self : PubMedIngestor vector) (term : string) (max_results : Z) :
  let run := fetch_and_ingest collection_add esearch efetch re_match
               strptime_isoformat self term max_results in
  completed term (snd run) ->
  fst (fst run) = Ok None /\
  exists id_list records b,
    esearch term max_results = Ok id_list /\ id_list <> [] /\
    efetch id_list = Ok records /\
    fst (parse_records re_match strptime_isoformat self
           (List.length id_list) 0 records empty_batch) = Ok b /\
    In (Log INFO (IngestFound (List.length id_list) term)) (snd run) /\
    In (Log INFO (IngestAttemptInsert (List.length (articles_to_mongo b))))
       (snd run) /\
    (In (Log INFO (IngestAttemptAdd
                     (List.length (chunks_to_chroma_texts b)))) (snd run) \/
     chunks_to_chroma_texts b = [] /\
     In (Log WARNING IngestNoChunks) (snd run)).
Proof.
  unfold fetch_and_ingest, completed.
  destruct (esearch term max_results) as [id_list | e] eqn:Hsearch.
  2:{ simpl. intuition discriminate. }
  destruct id_list as [| id ids].
  { simpl. intuition discriminate. }
  destruct (efetch (id :: ids)) as [records | e] eqn:Hfetch.
  2:{ simpl. intuition discriminate. }
  pose proof (parse_records_not_completed re_match strptime_isoformat self
                (List.length (id :: ids)) term records 0 empty_batch) as Hparse.
  destruct (parse_records re_match strptime_isoformat self
              (List.length (id :: ids)) 0 records empty_batch)
    as [[b | e] t_parse] eqn:Hrun.
  2:{ cbn [fst snd] in *. rewrite !in_app_iff. simpl.
      intuition discriminate. }
  destruct (insert_all (mongo_handler self) (articles_to_mongo b))
    as [mongo t_mongo].
  assert (Hfound : forall rest,
    In (Log INFO (IngestFound (List.length (id :: ids)) term))
       (([Log INFO (IngestStart term max_results);
          EntrezSearch term max_results] ++
         [Log INFO (IngestFound (List.length (id :: ids)) term)] ++
         [EntrezFetch (id :: ids)]) ++ rest)).
  { intros rest. simpl. auto. }
  destruct (chunks_to_chroma_texts b) as [| text texts] eqn:Htexts.
  - cbn [fst snd]. intros _. split; [reflexivity |].
    exists (id :: ids), records, b.
    split; [reflexivity |]. split; [discriminate |].
    split; [exact Hfetch |]. split; [rewrite Hrun; reflexivity |].
    split; [apply Hfound |].
    split; [rewrite !in_app_iff; simpl; tauto |].
    right. split; [exact Htexts |].
    rewrite !in_app_iff. simpl. tauto.
  - destruct (Chroma.add_chunks collection_add (chroma_handler self)
                (text :: texts) (chunks_to_chroma_metadatas b)
                (chunks_to_chroma_ids b)) as [[added chroma] t_add].
    cbn [fst snd]. intros _. split; [reflexivity |].
    exists (id :: ids), records, b.
    split; [reflexivity |]. split; [discriminate |].
    split; [exact Hfetch |]. split; [rewrite Hrun; reflexivity |].
    split; [apply Hfound |].
    split; [rewrite !in_app_iff; simpl; tauto |].
    left. rewrite Htexts, !in_app_iff. simpl. tauto.
Qed.

Lemma ingestion_returns_nothing_witness :
  let run := fetch_and_ingest sample_add sample_esearch sample_efetch
               sample_re_match sample_strptime sample_ingestor "crispr" 5 in
  completed "crispr" (snd run) /\
  fst (fst run) = Ok None /\
  In (Log INFO (IngestFound 2 "crispr")) (snd run) /\
  In (Log INFO (IngestAttemptInsert 1)) (snd run) /\
  In (Log INFO (IngestAttemptAdd 4)) (snd run).
Proof.
  assert (Hdone :
    completed "crispr"
      (snd (fetch_and_ingest sample_add sample_esearch sample_efetch
              sample_re_match sample_strptime sample_ingestor "crispr" 5))).
  { unfold completed. vm_compute. tauto. }
  split; [exact Hdone |].
  destruct (ingestion_returns_nothing sample_add sample_esearch sample_efetch
              sample_re_match sample_strptime sample_ingestor "crispr" 5
              Hdone)
    as [Hnone (id_list & records & b & Hs & _ & Hf & Hb & H1 & H2 & H3)].
  split; [exact Hnone |].
  injection Hs as <-. injection Hf as <-. injection Hb as <-.
  split; [exact H1 |]. split; [exact H2 |].
  destruct H3 as [H3 | [H3 _]]; [exact H3 | discriminate H3].
Defined.

(** C9 as stated fails: the run over the two sample records reaches
    completion and returns [None], not a report of counts. *)
Lemma completed_run_returns_no_counts :
  ~ (forall (collection_add :
               list (Chroma.Row nat) -> list string -> list nat ->
               list Metadata.t -> list string -> result (list (Chroma.Row nat)))
            (esearch : string -> Z -> result (list string))
            (efetch : list string -> result (list Medline.t))
            (re_match : string -> string -> bool)
            (strptime_isoformat : string -> string -> option string)
            (self : PubMedIngestor nat) (term : string) (max_results : Z),
       let run := fetch_and_ingest collection_add esearch efetch re_match
                    strptime_isoformat self term max_results in
       completed term (snd run) ->
       exists counts : Counts, fst (fst run) = Ok (Some counts)).
Proof.
  intros H.
  destruct (H sample_add sample_esearch sample_efetch sample_re_match
              sample_strptime sample_ingestor "crispr" 5%Z) as [counts Hc].
  - unfold completed. vm_compute. tauto.
  - discriminate Hc.
Qed.

End IngestFacts.

(** ** The vector store *)

Module ChromaFacts.
Import Chroma Samples.

(** C8.  When [texts], [metadatas] and [ids] are not all of one length,
    [add_chunks] returns [False] and leaves the handler, and with it the
    collection, as it was; its trace is one error record, so the embedding
    model is not called and nothing is written to the collection.  The
    record names the first check that failed: the collection, the model,
    then the lengths. *)
Theorem add_chunks_rejects_unequal_lengths {vector : Type}
    (collection_add :
       list (Row vector) -> list string -> list vector ->
       list Metadata.t -> list string -> result (list (Row vector)))
    (self : ChromaDBHandler vector) (texts : list string)
    (metadatas : list Metadata.t) (ids : list string) :
  ~ (List.length ids = List.length texts /\
     List.length texts = List.length metadatas) ->
  add_chunks collection_add self texts metadatas ids =
    (false, self,
     [Log ERROR
        match collection self, model self with
        | None, _ => AddCollectionNotInitialized
        | Some _, None => AddModelNotLoaded
        | Some _, Some _ => AddLengthsDiffer
        end]).
Proof.
  intros Hlen. unfold add_chunks.
  destruct (collection self) as [rows |]; [| reflexivity].
  destruct (model self) as [encode |]; [| reflexivity].
  assert (Hsame : same_lengths texts metadatas ids = false).
  { unfold same_lengths. apply andb_false_iff.
    destruct (Nat.eqb_spec (List.length texts) (List.length metadatas)) as [E1 | N1];
      [| left; reflexivity].
    destruct (Nat.eqb_spec (List.length metadatas) (List.length ids)) as [E2 | N2];
      [| right; reflexivity].
    exfalso. apply Hlen. split; congruence. }
  rewrite Hsame. reflexivity.
Qed.

Lemma add_chunks_rejects_unequal_lengths_witness :
  add_chunks sample_add sample_chroma ["One."; "Two."]
    [{| Metadata.article_id := "A"; Metadata.chunk_index := 0;
        Metadata.source := "abstract"; Metadata.title := "T" |}]
    ["A_chunk_0"; "A_chunk_1"] =
  (false, sample_chroma, [Log ERROR AddLengthsDiffer]).
Proof.
  apply (add_chunks_rejects_unequal_lengths sample_add sample_chroma).
  simpl. intros [_ H]. discriminate H.
Defined.

(** With lists of one length the same handler embeds the texts and writes
    the rows. *)
Example add_chunks_equal_lengths :
  fst (fst (add_chunks sample_add sample_chroma ["One."]
              [{| Metadata.article_id := "A"; Metadata.chunk_index := 0;
                  Metadata.source := "abstract"; Metadata.title := "T" |}]
              ["A_chunk_0"])) = true.
Proof. reflexivity. Qed.

End ChromaFacts.

(** ** The answer of the generation service *)

Module AskFacts.
Import Ask Samples.

(** When the field [text] under [candidates[0].content.parts[0]] is
    absent from the response because a member is missing from the object
    that should hold it or an array is empty, [parse_answer] raises nothing
    and the answer is the fallback text "Could not generate an answer.". *)
Lemma missing_answer_field_gives_fallback (llm_result : json) :
  answer_field_absent llm_result ->
  fst (parse_answer llm_result) = Ok fallback_answer.
Proof.
  intros H. unfold parse_answer.
  inversion H as [members Hc | members Hc | members candidate others Hc Hcontent
                 | members candidate others content Hc Hcontent Hparts
                 | members candidate others content Hc Hcontent Hparts
                 | members candidate others content part more Hc Hcontent Hparts Htext];
    subst; destruct members as [| m members]; try discriminate; try reflexivity;
    cbn [truthy get item bind]; rewrite Hc; cbn [truthy bind fst item0];
    try reflexivity.
  - cbn [get]. rewrite Hcontent. reflexivity.
  - cbn [get item]. rewrite Hcontent. destruct content as [| c content].
    + reflexivity.
    + cbn [truthy bind get]. rewrite Hparts. reflexivity.
  - cbn [get item]. rewrite Hcontent. destruct content as [| c content].
    + reflexivity.
    + cbn [truthy bind get]. rewrite Hparts. reflexivity.
  - cbn [get item]. rewrite Hcontent. destruct content as [| c content].
    + discriminate.
    + cbn [truthy bind get item]. rewrite Hparts. cbn [truthy bind item0 get].
      rewrite Htext. reflexivity.
Qed.

Lemma missing_answer_field_gives_fallback_witness :
  fst (parse_answer response_without_text) = Ok fallback_answer.
Proof.
  apply (missing_answer_field_gives_fallback response_without_text).
  eapply absent_text; reflexivity.
Defined.

Lemma get_member_or_null (members : list (string * json)) (key : string) :
  get (JObject members) key JNull = Ok (member_or_null members key).
Proof.
  unfold get, member_or_null. destruct (Dict.get members key); reflexivity.
Qed.

Lemma item_member (members : list (string * json)) (key : string) (v : json) :
  Dict.get members key = Some v -> item (JObject members) key = Ok v.
Proof. intros H. unfold item. rewrite H. reflexivity. Qed.

Lemma member_or_null_found (members : list (string * json)) (key : string)
    (v : json) :
  Dict.get members key = Some v -> member_or_null members key = v.
Proof. intros H. unfold member_or_null. rewrite H. reflexivity. Qed.

(** The levels at which the code does fall back: where the response,
    [candidates], [content] or [parts] is missing, [null] or empty, or
    [text] is missing, and the levels above are objects and arrays of
    objects, the answer field is absent, [parse_answer] raises nothing and
    the answer is the fallback text. *)
Lemma missing_or_empty_level_gives_fallback (llm_result : json) :
  level_missing_or_empty llm_result ->
  answer_field llm_result = None /\
  fst (parse_answer llm_result) = Ok fallback_answer.
Proof.
  intros H.
  inversion H as [r Hr | members Hc | members candidate others Hc Hcontent
                 | members candidate others content Hc Hcontent Hparts
                 | members candidate others content part more
                     Hc Hcontent Hparts Htext];
    subst; split.
  - unfold answer_field, member.
    destruct llm_result as [| b | z | s | items | [| m members]];
      try reflexivity; discriminate.
  - unfold parse_answer. rewrite Hr. reflexivity.
  - unfold answer_field, member, member_or_null in *.
    destruct (Dict.get members "candidates") as [[| b | z | s | [| x xs] | ms] |];
      try reflexivity; discriminate.
  - unfold parse_answer.
    destruct (truthy (JObject members)); [| reflexivity].
    rewrite get_member_or_null. cbn [bind]. rewrite Hc. reflexivity.
  - unfold answer_field. cbn [member first and_then]. rewrite Hc.
    cbn [member first and_then]. unfold member_or_null in Hcontent.
    destruct (Dict.get candidate "content")
      as [[| b | z | s | items | [| m ms]] |];
      try reflexivity; discriminate.
  - unfold parse_answer.
    destruct members as [| m members]; [discriminate |].
    cbn [truthy]. rewrite get_member_or_null.
    rewrite (member_or_null_found _ _ _ Hc). cbn [bind truthy].
    rewrite (item_member _ _ _ Hc). cbn [bind item0 fst].
    rewrite get_member_or_null. cbn [bind]. rewrite Hcontent. reflexivity.
  - unfold answer_field. cbn [member first and_then]. rewrite Hc.
    cbn [member first and_then]. rewrite Hcontent.
    cbn [member first and_then]. unfold member_or_null in Hparts.
    destruct (Dict.get content "parts")
      as [[| b | z | s | [| x xs] | ms] |];
      try reflexivity; discriminate.
  - unfold parse_answer.
    destruct members as [| m members]; [discriminate |].
    cbn [truthy]. rewrite get_member_or_null.
    rewrite (member_or_null_found _ _ _ Hc). cbn [bind truthy].
    rewrite (item_member _ _ _ Hc). cbn [bind item0 fst].
    rewrite get_member_or_null, (member_or_null_found _ _ _ Hcontent).
    cbn [bind]. destruct (truthy (JObject content)); [| reflexivity].
    rewrite (item_member _ _ _ Hcontent). cbn [bind].
    rewrite get_member_or_null. cbn [bind]. rewrite Hparts. reflexivity.
  - unfold answer_field. cbn [member first and_then]. rewrite Hc.
    cbn [member first and_then]. rewrite Hcontent.
    cbn [member first and_then]. rewrite Hparts.
    cbn [member first and_then]. exact Htext.
  - unfold parse_answer.
    destruct members as [| m members]; [discriminate |].
    destruct content as [| c content]; [discriminate |].
    cbn [truthy]. rewrite get_member_or_null.
    rewrite (member_or_null_found _ _ _ Hc). cbn [bind truthy].
    rewrite (item_member _ _ _ Hc). cbn [bind item0 fst].
    rewrite get_member_or_null, (member_or_null_found _ _ _ Hcontent).
    cbn [bind truthy].
    rewrite (item_member _ _ _ Hcontent). cbn [bind].
    rewrite get_member_or_null, (member_or_null_found _ _ _ Hparts).
    cbn [bind truthy].
    rewrite (item_member _ _ _ Hparts). cbn [bind item0].
    unfold get. rewrite Htext. reflexivity.
Qed.

(** The levels of [answer_field_absent] are among them. *)
Lemma answer_field_absent_level (llm_result : json) :
  answer_field_absent llm_result -> level_missing_or_empty llm_result.
Proof.
  intros H.
  inversion H as [members Hc | members Hc | members candidate others Hc Hcontent
                 | members candidate others content Hc Hcontent Hparts
                 | members candidate others content Hc Hcontent Hparts
                 | members candidate others content part more
                     Hc Hcontent Hparts Htext];
    subst.
  - apply empty_candidates. unfold member_or_null. rewrite Hc. reflexivity.
  - apply empty_candidates. unfold member_or_null. rewrite Hc. reflexivity.
  - eapply empty_content; [exact Hc |].
    unfold member_or_null. rewrite Hcontent. reflexivity.
  - eapply empty_parts; [exact Hc | exact Hcontent |].
    unfold member_or_null. rewrite Hparts. reflexivity.
  - eapply empty_parts; [exact Hc | exact Hcontent |].
    unfold member_or_null. rewrite Hparts. reflexivity.
  - eapply missing_text; eassumption.
Qed.

(** C7 fails on the code.  In the response [{"candidates": [null]}] the
    answer field is absent at the level of the first candidate, and in
    [{"candidates": [{"content": {"parts": [null]}}]}] at the level of the
    first part.  On both, [parse_answer] raises [AttributeError], from the
    call of [.get] on [None], and gives no answer; nothing is logged by the
    step. *)
Theorem absent_answer_field_raises :
  answer_field null_candidate = None /\
  parse_answer null_candidate = (Raise AttributeError, []) /\
  answer_field null_part = None /\
  parse_answer null_part = (Raise AttributeError, []).
Proof. repeat split. Qed.

(** The complete response gives its text; the empty object gives the
    fallback and an error record in the log. *)
Example parse_answer_samples :
  fst (parse_answer response_complete) =
    Ok (JString "CRISPR is a gene-editing tool.") /\
  parse_answer (JObject []) =
    (Ok fallback_answer, [Log ERROR AskUnexpectedStructure]).
Proof. split; reflexivity. Qed.

(** Where a member of the path is present with a value of another kind,
    the step does not fall back: a [text] that is [null] is returned as it
    is, and a first candidate or a first part that is not an object raises
    [AttributeError]. *)
Example parse_answer_other_kinds :
  fst (parse_answer (response_with [("text", JNull)])) = Ok JNull /\
  fst (parse_answer (JObject [("candidates", JArray [JNumber 5])])) =
    Raise AttributeError /\
  fst (parse_answer (JArray [JNumber 1])) = Raise AttributeError.
Proof. repeat split. Qed.

End AskFacts.

(** * Further properties *)

(** ** The sentence splitter and the chunker *)

Module TextExtra.
Import Text Chunker TextSpec ChunkerFacts.

Lemma remove_whitespace_app (a b : string) :
  remove_whitespace (a ++ b) = (remove_whitespace a ++ remove_whitespace b)%string.
Proof.
  induction a as [| c a IH]; simpl; [reflexivity |].
  destruct (isspace c); simpl; rewrite IH; reflexivity.
Qed.

Lemma remove_whitespace_lstrip (s : string) :
  remove_whitespace (lstrip s) = remove_whitespace s.
Proof.
  induction s as [| c s IH]; simpl; [reflexivity |].
  destruct (isspace c) eqn:E; [exact IH | simpl; rewrite E; reflexivity].
Qed.

Lemma remove_whitespace_rstrip (s : string) :
  remove_whitespace (rstrip s) = remove_whitespace s.
Proof.
  induction s as [| c s IH]; simpl; [reflexivity |].
  destruct (isspace c) eqn:E; simpl.
  - destruct (rstrip s) eqn:R; simpl in *.
    + exact IH.
    + rewrite E. exact IH.
  - rewrite E, IH. reflexivity.
Qed.

Lemma remove_whitespace_strip (s : string) :
  remove_whitespace (strip s) = remove_whitespace s.
Proof.
  unfold strip. rewrite remove_whitespace_rstrip. apply remove_whitespace_lstrip.
Qed.

(** The non-whitespace characters of a list of texts, in order. *)
Lemma remove_whitespace_join_space (parts : list string) :
  remove_whitespace (join " " parts) =
  fold_right (fun p acc => (remove_whitespace p ++ acc)%string) EmptyString parts.
Proof.
  unfold join. induction parts as [| p rest IH]; [reflexivity |].
  destruct rest as [| q rest].
  - simpl. clear IH. induction (remove_whitespace p) as [| c r IHr]; simpl;
      [reflexivity | rewrite <- IHr; reflexivity].
  - change (String.concat " " (p :: q :: rest))
      with (p ++ " " ++ String.concat " " (q :: rest))%string.
    rewrite !remove_whitespace_app, IH. reflexivity.
Qed.

Lemma scan_keeps_characters (s : string) :
  forall st,
    fold_right (fun p acc => (remove_whitespace p ++ acc)%string) EmptyString
      (fst (scan st s) :: snd (scan st s)) =
    remove_whitespace s.
Proof.
  induction s as [| c s IH]; intros st; [reflexivity |].
  cbn [scan remove_whitespace].
  destruct st as [behind |].
  - destruct (behind && isspace c) eqn:B.
    + apply andb_true_iff in B. destruct B as [_ ->].
      specialize (IH InSeparator). destruct (scan InSeparator s). exact IH.
    + specialize (IH (InPiece (is_sentence_end c))).
      destruct (scan (InPiece (is_sentence_end c)) s) as [p ps].
      cbn [fst snd fold_right remove_whitespace] in *.
      destruct (isspace c) eqn:E.
      * exact IH.
      * simpl. rewrite IH. reflexivity.
  - destruct (isspace c) eqn:E.
    + apply IH.
    + specialize (IH (InPiece (is_sentence_end c))).
      destruct (scan (InPiece (is_sentence_end c)) s) as [p ps].
      cbn [fst snd fold_right remove_whitespace] in *.
      rewrite E. simpl. rewrite IH. reflexivity.
Qed.

Lemma re_split_keeps_characters (text : string) :
  fold_right (fun p acc => (remove_whitespace p ++ acc)%string) EmptyString
    (re_split text) = remove_whitespace text.
Proof.
  unfold re_split. pose proof (scan_keeps_characters text (InPiece false)) as H.
  destruct (scan (InPiece false) text). exact H.
Qed.

Lemma fold_remove_whitespace_app (l1 l2 : list string) :
  fold_right (fun p acc => (remove_whitespace p ++ acc)%string) EmptyString
    (l1 ++ l2) =
  (fold_right (fun p acc => (remove_whitespace p ++ acc)%string) EmptyString l1
   ++ fold_right (fun p acc => (remove_whitespace p ++ acc)%string) EmptyString l2)%string.
Proof.
  induction l1 as [| p l1 IH]; simpl; [reflexivity |].
  rewrite IH. induction (remove_whitespace p) as [| c r IHr]; simpl;
    [reflexivity | rewrite IHr; reflexivity].
Qed.

Lemma fold_remove_whitespace_windows (windows : list (list string)) :
  fold_right (fun p acc => (remove_whitespace p ++ acc)%string) EmptyString
    (map (join " ") windows) =
  fold_right (fun p acc => (remove_whitespace p ++ acc)%string) EmptyString
    (List.concat windows).
Proof.
  induction windows as [| g windows IH]; simpl; [reflexivity |].
  rewrite fold_remove_whitespace_app, remove_whitespace_join_space, IH.
  reflexivity.
Qed.

Lemma fold_remove_whitespace_strip (l : list string) :
  fold_right (fun p acc => (remove_whitespace p ++ acc)%string) EmptyString
    (map strip l) =
  fold_right (fun p acc => (remove_whitespace p ++ acc)%string) EmptyString l.
Proof.
  induction l as [| p l IH]; simpl; [reflexivity |].
  rewrite remove_whitespace_strip, IH. reflexivity.
Qed.

Lemma is_empty_false (text : string) : text <> "" -> is_empty text = false.
Proof. destruct text; [congruence | reflexivity]. Qed.

(** X1.  Chunking neither loses nor adds a character other than
    whitespace: for a window size [w >= 1] the chunks, joined, have the
    non-whitespace characters of the text, in the same order. *)
Theorem chunks_keep_characters {Self : Type} (self : Self) (text : string)
    (w : Z) :
  (1 <= w)%Z ->
  exists chunks,
    _chunk_text self text w = Ok chunks /\
    remove_whitespace (join " " chunks) = remove_whitespace text.
Proof.
  intros Hw. unfold _chunk_text.
  destruct text as [| c text'] eqn:Et; [exists []; split; reflexivity |].
  rewrite <- Et. assert (Hne : is_empty text = false) by (subst; reflexivity).
  rewrite Hne. clear Et Hne c text'.
  destruct (Z.eqb_spec w 0) as [-> | _]; [lia |].
  destruct (window_loop_shape w (List.length (re_split text)) Hw
              (re_split text) 0 [] [] eq_refl)
    as (tail & Hrun & Hcat & _ & _).
  - rewrite Z.mod_0_l by lia. reflexivity.
  - reflexivity.
  - simpl in Hrun, Hcat. eexists. split; [reflexivity |].
    change (@nil string) with (map (join " ") []) at 2.
    rewrite chunk_loop_windows, Hrun, remove_whitespace_join_space.
    rewrite fold_remove_whitespace_windows, Hcat, fold_remove_whitespace_strip.
    apply re_split_keeps_characters.
Qed.

Lemma chunks_keep_characters_witness :
  exists chunks,
    _chunk_text tt "Aims.  Methods! Results?
End" 2 = Ok chunks /\
    remove_whitespace (join " " chunks) = "Aims.Methods!Results?End".
Proof.
  apply (chunks_keep_characters tt "Aims.  Methods! Results?
End" 2). lia.
Defined.

Lemma ends_sentence_snoc (pre : string) (c : ascii) :
  ends_sentence (pre ++ String c EmptyString) = is_sentence_end c.
Proof.
  induction pre as [| a pre IH]; [reflexivity |].
  simpl. destruct (pre ++ String c "")%string eqn:E; [| exact IH].
  destruct pre; discriminate.
Qed.

Lemma append_snoc (pre p : string) (c : ascii) :
  ((pre ++ String c EmptyString) ++ p = pre ++ String c p)%string.
Proof. induction pre as [| a pre IH]; simpl; [| rewrite IH]; reflexivity. Qed.

Lemma append_empty (s : string) : (s ++ "")%string = s.
Proof. induction s as [| a s IH]; simpl; [| rewrite IH]; reflexivity. Qed.

(** What the scanner has read so far of the current piece is [pre]; the
    piece ends at a boundary only after one of [.!?]. *)
Lemma scan_boundaries (s : string) :
  (forall pre,
     let r := scan (InPiece (ends_sentence pre)) s in
     boundaries_follow_sentence_end ((pre ++ fst r)%string :: snd r) = true /\
     Forall (fun p => starts_with_space p = false) (snd r)) /\
  (let r := scan InSeparator s in
   boundaries_follow_sentence_end (fst r :: snd r) = true /\
   starts_with_space (fst r) = false /\
   Forall (fun p => starts_with_space p = false) (snd r)).
Proof.
  induction s as [| c s [IHpiece IHsep]]; [repeat split; constructor |].
  assert (Hnext : forall pre,
    let r := scan (InPiece (is_sentence_end c)) s in
    boundaries_follow_sentence_end ((pre ++ String c (fst r))%string :: snd r) = true /\
    Forall (fun p => starts_with_space p = false) (snd r)).
  { intros pre. specialize (IHpiece (pre ++ String c EmptyString)%string).
    cbv zeta in IHpiece.
    rewrite ends_sentence_snoc, append_snoc in IHpiece. exact IHpiece. }
  cbv zeta in *.
  split.
  - intros pre. cbn [scan].
    destruct (ends_sentence pre && isspace c) eqn:B.
    + apply andb_true_iff in B. destruct B as [Hpre Hc].
      destruct (scan InSeparator s) as [p ps]; cbn [fst snd] in *.
      destruct IHsep as (Hb & Hp & Hps).
      rewrite append_empty. split.
      * cbn [boundaries_follow_sentence_end]. rewrite Hpre. exact Hb.
      * constructor; assumption.
    + specialize (Hnext pre).
      destruct (scan (InPiece (is_sentence_end c)) s) as [p ps]. exact Hnext.
  - cbn [scan]. destruct (isspace c) eqn:E.
    + exact IHsep.
    + specialize (Hnext EmptyString).
      destruct (scan (InPiece (is_sentence_end c)) s) as [p ps].
      cbn [fst snd] in *. destruct Hnext as [Hb Hps].
      repeat split; [exact Hb | exact E | exact Hps].
Qed.

(** X2.  The pieces [re.split] gives for the sentence pattern: every piece
    but the last ends in one of [.!?], and no piece but the first starts
    with whitespace. *)
Theorem sentences_end_at_punctuation (text : string) :
  boundaries_follow_sentence_end (re_split text) = true /\
  Forall (fun p => starts_with_space p = false) (tl (re_split text)).
Proof.
  unfold re_split.
  pose proof (proj1 (scan_boundaries text) EmptyString) as H.
  change (ends_sentence "") with false in H.
  destruct (scan (InPiece false) text) as [p ps]. exact H.
Qed.

Lemma scan_without_sentence_end (s : string) :
  forall behind,
    no_sentence_end s = true -> scan (InPiece behind) s =
    if behind && starts_with_space s
    then (EmptyString, fst (scan InSeparator (match s with
                                              | EmptyString => s
                                              | String _ s' => s'
                                              end))
                       :: snd (scan InSeparator (match s with
                                                 | EmptyString => s
                                                 | String _ s' => s'
                                                 end)))
    else (s, []).
Proof.
  induction s as [| c s IH]; intros behind Hs.
  - rewrite andb_false_r. reflexivity.
  - cbn [no_sentence_end] in Hs. apply andb_true_iff in Hs.
    destruct Hs as [Hc Hs]. apply negb_true_iff in Hc.
    cbn [scan starts_with_space].
    destruct (behind && isspace c).
    + destruct (scan InSeparator s). reflexivity.
    + rewrite (IH _ Hs), Hc. reflexivity.
Qed.

(** X3.  A text without any of [.!?] is one sentence: for every window
    size but zero its only chunk is the stripped text. *)
Theorem text_without_punctuation_is_one_chunk {Self : Type} (self : Self)
    (text : string) (w : Z) :
  text <> "" -> w <> 0%Z -> no_sentence_end text = true ->
  re_split text = [text] /\ _chunk_text self text w = Ok [strip text].
Proof.
  intros Hne Hw Hs.
  assert (Hsplit : re_split text = [text]).
  { unfold re_split. rewrite (scan_without_sentence_end text false Hs).
    reflexivity. }
  split; [exact Hsplit |].
  unfold _chunk_text. rewrite (is_empty_false text Hne), Hsplit.
  destruct (Z.eqb_spec w 0) as [E | _]; [contradiction |].
  simpl. unfold window_closes. simpl.
  rewrite orb_true_r. reflexivity.
Qed.

Lemma text_without_punctuation_is_one_chunk_witness :
  re_split "  dose response of compound 7 " =
    ["  dose response of compound 7 "] /\
  _chunk_text tt "  dose response of compound 7 " 3 =
    Ok ["dose response of compound 7"].
Proof.
  apply (text_without_punctuation_is_one_chunk tt
           "  dose response of compound 7 " 3).
  - discriminate.
  - discriminate.
  - reflexivity.
Defined.

Lemma chunk_loop_window_one (len : nat) (sentences : list string) :
  forall i chunks,
    chunk_loop 1 len i sentences [] chunks = chunks ++ map strip sentences.
Proof.
  induction sentences as [| s rest IH]; intros i chunks; simpl.
  - rewrite app_nil_r. reflexivity.
  - unfold window_closes. rewrite Z.mod_1_r. simpl.
    rewrite IH, <- app_assoc. reflexivity.
Qed.

(** X4.  With a window of one sentence the chunks are the sentences of the
    text, stripped, one chunk per sentence. *)
Theorem window_of_one_gives_sentences {Self : Type} (self : Self)
    (text : string) :
  _chunk_text self text 1 = Ok (map strip (sentences_of text)).
Proof.
  unfold _chunk_text, sentences_of.
  destruct (is_empty text); [reflexivity |].
  simpl. rewrite chunk_loop_window_one. reflexivity.
Qed.

Lemma window_closes_opp (i len : nat) (w : Z) :
  window_closes i len (- w) = window_closes i len w.
Proof.
  unfold window_closes. f_equal.
  destruct (Z.eq_dec w 0) as [-> | Hw]; [reflexivity |].
  destruct (Z.eqb_spec ((Z.of_nat i + 1) mod - w) 0) as [H1 | H1];
    destruct (Z.eqb_spec ((Z.of_nat i + 1) mod w) 0) as [H2 | H2];
    try reflexivity; exfalso.
  - apply H2. apply Z.mod_divide in H1; [| lia].
    apply Z.mod_divide; [lia |]. apply Z.divide_opp_l in H1.
    rewrite Z.opp_involutive in H1. exact H1.
  - apply H1. apply Z.mod_divide in H2; [| lia].
    apply Z.mod_divide; [lia |]. apply Z.divide_opp_l. exact H2.
Qed.

Lemma chunk_loop_opp (w : Z) (len : nat) (sentences : list string) :
  forall i cur chunks,
    chunk_loop (- w) len i sentences cur chunks =
    chunk_loop w len i sentences cur chunks.
Proof.
  induction sentences as [| s rest IH]; intros i cur chunks; simpl;
    [reflexivity |].
  rewrite window_closes_opp, !IH. reflexivity.
Qed.

(** X5.  The sign of the window size does not matter: a negative window
    size gives the chunks of its absolute value (Python's [%] takes the
    sign of the divisor, and only a zero remainder is tested). *)
Theorem negative_window_as_positive {Self : Type} (self : Self)
    (text : string) (w : Z) :
  _chunk_text self text (- w) = _chunk_text self text w.
Proof.
  unfold _chunk_text. destruct (is_empty text); [reflexivity |].
  rewrite chunk_loop_opp.
  destruct (Z.eqb_spec w 0) as [-> | Hw]; [reflexivity |].
  destruct (Z.eqb_spec (- w) 0) as [E | _]; [lia | reflexivity].
Qed.

Lemma chunk_loop_wide_window (w : Z) (len : nat) :
  (Z.of_nat len <= w)%Z ->
  forall rest i cur chunks,
    rest <> [] -> i + List.length rest = len ->
    chunk_loop w len i rest cur chunks =
    chunks ++ [join " " (cur ++ map strip rest)].
Proof.
  intros Hw. induction rest as [| s rest IH]; intros i cur chunks Hne Hlen;
    [congruence |].
  simpl in Hlen. cbn [chunk_loop map].
  destruct rest as [| s' rest'].
  - assert (Hc : window_closes i len w = true).
    { unfold window_closes. apply orb_true_iff. right.
      apply Z.eqb_eq. simpl in Hlen. lia. }
    rewrite Hc. simpl. destruct (cur ++ [strip s]) eqn:E; [| reflexivity].
    destruct cur; discriminate.
  - assert (Hc : window_closes i len w = false).
    { unfold window_closes. apply orb_false_iff. simpl in Hlen. split.
      - apply Z.eqb_neq. rewrite Z.mod_small by lia. lia.
      - apply Z.eqb_neq. lia. }
    rewrite Hc, IH; [| discriminate | simpl in *; lia].
    rewrite <- app_assoc. reflexivity.
Qed.

(** X6.  A text with no more sentences than the window size gives exactly
    one chunk: its stripped sentences joined by single spaces. *)
Theorem short_text_is_one_chunk {Self : Type} (self : Self) (text : string)
    (w : Z) :
  text <> "" ->
  (Z.of_nat (List.length (re_split text)) <= w)%Z ->
  _chunk_text self text w = Ok [join " " (map strip (re_split text))].
Proof.
  intros Hne Hw. unfold _chunk_text. rewrite (is_empty_false text Hne).
  assert (Hpieces : re_split text <> []).
  { unfold re_split. destruct (scan (InPiece false) text). discriminate. }
  destruct (Z.eqb_spec w 0) as [-> | _].
  - destruct (re_split text); [congruence | simpl in Hw; lia].
  - rewrite (chunk_loop_wide_window w _ Hw (re_split text) 0 [] [] Hpieces eq_refl).
    reflexivity.
Qed.

Lemma short_text_is_one_chunk_witness :
  _chunk_text tt "Aims.  Methods! " 3 = Ok ["Aims. Methods! "].
Proof.
  apply (short_text_is_one_chunk tt "Aims.  Methods! " 3).
  - discriminate.
  - simpl. lia.
Defined.

End TextExtra.

(** ** The metadata store: reading, counting, clearing, batches *)

Module MongoExtra.
Import Mongo Store DictFacts MongoFacts Samples IngestSpec.

Lemma get_app_other {V : Type} (d : Dict.t V) (k id : string) (v : V) :
  k <> id -> Dict.get (d ++ [(id, v)]) k = Dict.get d k.
Proof.
  intros Hne. induction d as [| [k' v'] d IH]; simpl.
  - destruct (String.eqb_spec k id); [contradiction | reflexivity].
  - destruct (String.eqb k k'); [reflexivity | exact IH].
Qed.

Lemma get_app_present {V : Type} (d l : Dict.t V) (k : string) (x : V) :
  Dict.get d k = Some x -> Dict.get (d ++ l) k = Some x.
Proof.
  induction d as [| [k' v'] d IH]; simpl; [discriminate |].
  destruct (String.eqb k k'); auto.
Qed.

(** What [insert_article] returns and does on a connected handler, for an
    article that carries an identifier. *)
Lemma insert_article_connected (coll : collection) (a : Article.t)
    (id : string) :
  Article._id a = Some id ->
  insert_article (connected coll) a =
  match find_one coll id with
  | Some _ =>
      (Some id, connected coll,
       [MongoFindOne id; Log INFO (InsertAlreadyExists id)])
  | None =>
      (Some id, connected (coll ++ [(id, a)]),
       [MongoFindOne id; MongoInsertOne a; Log INFO (Inserted id)])
  end.
Proof.
  intros Hid. unfold insert_article, connected. simpl. rewrite Hid.
  destruct (find_one coll id) eqn:Hfind; [reflexivity |].
  unfold insert_one. rewrite (proj2 (mem_get coll id) Hfind). reflexivity.
Qed.

Lemma insert_article_without_id (coll : collection) (a : Article.t) :
  Article._id a = None ->
  insert_article (connected coll) a =
    (None, connected coll, [Log ERROR InsertMissingId]).
Proof. intros Hid. unfold insert_article. simpl. rewrite Hid. reflexivity. Qed.

(** X7.  [insert_article] changes what is stored under at most one
    identifier, the article's own, and only from nothing to the article:
    every other lookup, and the lookup of a document already stored, gives
    what it gave before.  The handler stays connected or stays unconnected. *)
Theorem insert_article_changes_one_lookup (self : MongoDBHandler)
    (a : Article.t) (id' : string) :
  match articles_collection self,
        articles_collection (snd (fst (insert_article self a))) with
  | Some coll, Some coll' =>
      find_one coll' id' = find_one coll id' \/
      (find_one coll id' = None /\ Article._id a = Some id' /\
       find_one coll' id' = Some a)
  | None, None => True
  | _, _ => False
  end.
Proof.
  destruct self as [[coll |]]; [| exact I].
  destruct (Article._id a) as [id |] eqn:Hid.
  - change {| articles_collection := Some coll |} with (connected coll).
    rewrite (insert_article_connected coll a id Hid). cbn [articles_collection].
    destruct (find_one coll id) eqn:Hfind; cbn [fst snd articles_collection connected].
    + left. reflexivity.
    + destruct (String.eqb_spec id' id) as [-> | Hne].
      * right. repeat split; [exact Hfind |].
        apply get_app_absent, Hfind.
      * left. apply get_app_other, Hne.
  - unfold insert_article. simpl. rewrite Hid. simpl. left. reflexivity.
Qed.

(** X8.  Inserting and then listing: on a connected handler
    [insert_article] returns the identifier of the article, and afterwards
    [get_all_articles] lists the documents listed before, in the same order,
    followed by the article when its identifier was new; [get_article_count]
    is the length of that list. *)
Theorem insert_then_list (coll : collection) (a : Article.t) (id : string) :
  Article._id a = Some id ->
  let self' := snd (fst (insert_article (connected coll) a)) in
  fst (fst (insert_article (connected coll) a)) = Some id /\
  fst (get_all_articles self') =
    (if Dict.mem coll id then coll else coll ++ [(id, a)]) /\
  fst (get_article_count self') =
    List.length coll + (if Dict.mem coll id then 0 else 1).
Proof.
  intros Hid. rewrite (insert_article_connected coll a id Hid).
  unfold Dict.mem, find_one.
  destruct (Dict.get coll id); cbn.
  - repeat split. lia.
  - repeat split. rewrite length_app. reflexivity.
Qed.

Lemma insert_then_list_witness :
  fst (fst (insert_article (connected dummy_articles)
              (article "PMID4" "Fourth" ["Eve White"]))) = Some "PMID4" /\
  fst (get_all_articles
         (snd (fst (insert_article (connected dummy_articles)
                      (article "PMID4" "Fourth" ["Eve White"]))))) =
    dummy_articles ++ [stored "PMID4" "Fourth" ["Eve White"]] /\
  fst (get_article_count
         (snd (fst (insert_article (connected dummy_articles)
                      (article "PMID4" "Fourth" ["Eve White"]))))) = 4.
Proof.
  apply (insert_then_list dummy_articles
           (article "PMID4" "Fourth" ["Eve White"]) "PMID4").
  reflexivity.
Defined.

(** X9.  After [clear_database] the handler counts no article, lists none
    and gives the empty graph for every filter; it is connected exactly if
    it was, and a connected one then stores the next article as its only
    document. *)
Theorem clear_database_empties (self : MongoDBHandler)
    (filter : option (list string)) (a : Article.t) :
  let self' := fst (clear_database self) in
  fst (get_article_count self') = 0 /\
  fst (get_all_articles self') = [] /\
  fst (get_author_network_data self' filter) =
    {| Graph.nodes := []; Graph.links := [] |} /\
  match articles_collection self, Article._id a with
  | Some _, Some id =>
      snd (fst (insert_article self' a)) = connected [(id, a)]
  | Some _, None => self' = connected []
  | None, _ => self' = self
  end.
Proof.
  unfold clear_database. destruct (articles_collection self) as [coll |] eqn:Hc.
  - cbn [fst]. change {| articles_collection := Some [] |} with (connected []).
    repeat split.
    + destruct filter as [[| p ps] |]; reflexivity.
    + destruct (Article._id a) as [id |] eqn:Hid; [| reflexivity].
      rewrite (insert_article_connected [] a id Hid). reflexivity.
  - cbn. unfold get_article_count, get_all_articles, get_author_network_data.
    rewrite Hc. repeat split.
Qed.

(** *** Batches *)

Lemma insert_all_not_connected (articles : list Article.t) :
  fst (Ingest.insert_all {| articles_collection := None |} articles) =
    {| articles_collection := None |} /\
  Forall (fun e => ~ is_insert e)
    (snd (Ingest.insert_all {| articles_collection := None |} articles)).
Proof.
  induction articles as [| a rest [IHs IHt]]; [split; [reflexivity | constructor] |].
  cbn [Ingest.insert_all].
  change (insert_article {| articles_collection := None |} a)
    with (@None string, {| articles_collection := None |},
          [Log ERROR InsertNotConnected]).
  cbv iota beta.
  destruct (Ingest.insert_all {| articles_collection := None |} rest) as [m t].
  cbn [fst snd] in *. split; [exact IHs |].
  constructor; [intros [] | exact IHt].
Qed.

(** What a batch does to a connected store. *)
Lemma insert_all_effect (articles : list Article.t) :
  forall coll,
  exists coll',
    fst (Ingest.insert_all (connected coll) articles) = connected coll' /\
    (forall id d, find_one coll id = Some d -> find_one coll' id = Some d) /\
    (forall a id, In a articles -> Article._id a = Some id ->
       find_one coll' id <> None) /\
    (NoDup (map fst coll) -> NoDup (map fst coll')).
Proof.
  induction articles as [| a rest IH]; intros coll.
  - exists coll. cbn. repeat split; auto; intros a id [].
  - cbn [Ingest.insert_all].
    destruct (Article._id a) as [id |] eqn:Hid.
    + rewrite (insert_article_connected coll a id Hid).
      destruct (find_one coll id) as [d0 |] eqn:Hfind.
      * destruct (IH coll) as (coll' & Hrun & Hkeep & Hall & Hnd).
        destruct (Ingest.insert_all (connected coll) rest) as [m t].
        cbn [fst] in *. exists coll'. repeat split; auto.
        intros a' id' [<- | Hin] Hid'.
        -- rewrite Hid in Hid'. injection Hid' as <-.
           rewrite (Hkeep id d0 Hfind). discriminate.
        -- apply (Hall a' id' Hin Hid').
      * destruct (IH (coll ++ [(id, a)])) as (coll' & Hrun & Hkeep & Hall & Hnd).
        destruct (Ingest.insert_all (connected (coll ++ [(id, a)])) rest) as [m t].
        cbn [fst] in *. exists coll'. repeat split; auto.
        -- intros id' d Hd. apply Hkeep, get_app_present, Hd.
        -- intros a' id' [<- | Hin] Hid'.
           ++ rewrite Hid in Hid'. injection Hid' as <-.
              rewrite (Hkeep id a (get_app_absent coll id a Hfind)). discriminate.
           ++ apply (Hall a' id' Hin Hid').
        -- intros Hcoll. apply Hnd. rewrite map_app. simpl.
           apply NoDup_app; [assumption | repeat constructor; simpl; tauto |].
           intros k Hk [<- | []]. revert Hk. apply get_none, Hfind.
    + rewrite (insert_article_without_id coll a Hid).
      destruct (IH coll) as (coll' & Hrun & Hkeep & Hall & Hnd).
      destruct (Ingest.insert_all (connected coll) rest) as [m t].
      cbn [fst] in *. exists coll'. repeat split; auto.
      intros a' id' [<- | Hin] Hid'; [congruence |].
      apply (Hall a' id' Hin Hid').
Qed.

(** A batch whose identifiers are all stored writes nothing. *)
Lemma insert_all_skips (articles : list Article.t) (coll : collection) :
  (forall a id, In a articles -> Article._id a = Some id ->
     find_one coll id <> None) ->
  fst (Ingest.insert_all (connected coll) articles) = connected coll /\
  Forall (fun e => ~ is_insert e)
    (snd (Ingest.insert_all (connected coll) articles)).
Proof.
  induction articles as [| a rest IH]; intros Hall.
  - split; [reflexivity | constructor].
  - cbn [Ingest.insert_all].
    destruct IH as [IHs IHt]; [intros a' id' Hin; apply Hall; right; exact Hin |].
    destruct (Article._id a) as [id |] eqn:Hid.
    + rewrite (insert_article_connected coll a id Hid).
      pose proof (Hall a id (or_introl eq_refl) Hid) as Hfind.
      destruct (find_one coll id) as [d0 |]; [| congruence].
      destruct (Ingest.insert_all (connected coll) rest) as [m t].
      cbn [fst snd] in *. split; [exact IHs |].
      repeat constructor; try exact IHt; intros [].
    + rewrite (insert_article_without_id coll a Hid).
      destruct (Ingest.insert_all (connected coll) rest) as [m t].
      cbn [fst snd] in *. split; [exact IHs |].
      repeat constructor; try exact IHt; intros [].
Qed.

(** X10.  Inserting a batch of articles a second time changes nothing and
    writes nothing: after [insert_all], a second [insert_all] of the same
    articles returns the same handler and makes no [insert_one] call. *)
Theorem insert_all_twice (mongo : MongoDBHandler) (articles : list Article.t) :
  let once := fst (Ingest.insert_all mongo articles) in
  fst (Ingest.insert_all once articles) = once /\
  Forall (fun e => ~ is_insert e) (snd (Ingest.insert_all once articles)).
Proof.
  destruct mongo as [[coll |]].
  - change {| articles_collection := Some coll |} with (connected coll).
    destruct (insert_all_effect articles coll) as (coll' & Hrun & _ & Hall & _).
    cbv zeta. rewrite Hrun. apply insert_all_skips, Hall.
  - cbv zeta. rewrite (proj1 (insert_all_not_connected articles)).
    apply insert_all_not_connected.
Qed.

(** X11.  A batch on a connected store: afterwards every article of the
    batch that carries an identifier is stored under it, every document
    stored before is still stored unchanged, and the identifiers of the
    store are unique if they were. *)
Theorem insert_all_stores_batch (coll : collection)
    (articles : list Article.t) :
  exists coll',
    fst (Ingest.insert_all (connected coll) articles) = connected coll' /\
    (forall id d, find_one coll id = Some d -> find_one coll' id = Some d) /\
    (forall a id, In a articles -> Article._id a = Some id ->
       exists d, find_one coll' id = Some d) /\
    (NoDup (map fst coll) -> NoDup (map fst coll')).
Proof.
  destruct (insert_all_effect articles coll) as (coll' & Hrun & Hkeep & Hall & Hnd).
  exists coll'. repeat split; auto.
  intros a id Hin Hid. specialize (Hall a id Hin Hid).
  destruct (find_one coll' id) as [d |]; [eauto | congruence].
Qed.

Lemma insert_all_stores_batch_witness :
  exists coll',
    fst (Ingest.insert_all (connected namesakes)
           [article "P1" "Again" []; article "P2" "New" ["Kim S"]]) =
      connected coll' /\
    find_one coll' "P1" = Some (article "P1" "Cohort study" ["Wang Y"; "Wang Y"]) /\
    (exists d, find_one coll' "P2" = Some d) /\
    NoDup (map fst coll').
Proof.
  destruct (insert_all_stores_batch namesakes
              [article "P1" "Again" []; article "P2" "New" ["Kim S"]])
    as (coll' & Hrun & Hkeep & Hall & Hnd).
  exists coll'. split; [exact Hrun |]. split; [| split].
  - apply Hkeep. reflexivity.
  - apply (Hall (article "P2" "New" ["Kim S"]) "P2"); [simpl; auto | reflexivity].
  - apply Hnd. repeat constructor. simpl. tauto.
Defined.

End MongoExtra.

(** ** The co-authorship graph: nodes, endpoints, entries, filters *)

Module GraphExtra.
Import Mongo DictFacts GraphFacts GraphSpec Samples.

Lemma graph_of_selected (coll : collection)
    (article_pmids : option (list string)) :
  fst (get_author_network_data (connected coll) article_pmids) =
  build_graph (selected coll article_pmids).
Proof. destruct article_pmids as [[| p ps] |]; reflexivity. Qed.

(** *** Dicts, once more *)

Lemma set_absent {V : Type} (d : Dict.t V) (k : string) (v : V) :
  Dict.get d k = None -> Dict.set d k v = d ++ [(k, v)].
Proof.
  induction d as [| [k' v'] d IH]; simpl; intros H; [reflexivity |].
  destruct (String.eqb k k'); [discriminate | rewrite IH by exact H; reflexivity].
Qed.

Lemma update_app_absent {V : Type} (d : Dict.t V) (k : string) (v : V)
    (f : V -> V) :
  Dict.get d k = None -> Dict.update (d ++ [(k, v)]) k f = d ++ [(k, f v)].
Proof.
  induction d as [| [k' v'] d IH]; simpl; intros H.
  - rewrite String.eqb_refl. reflexivity.
  - destruct (String.eqb k k'); [discriminate | rewrite IH by exact H; reflexivity].
Qed.

(** [add_link] either appends the entry to the link stored under the key
    of the pair, or appends a new link with this one entry. *)
Lemma add_link_cases (pmid title : string) (links : Dict.t Link.t)
    (pair : string * string) :
  let e := {| LinkArticle.pmid := pmid; LinkArticle.title := title |} in
  add_link pmid title links pair =
  if Dict.mem links (link_key (fst pair) (snd pair))
  then Dict.update links (link_key (fst pair) (snd pair)) (with_entry e)
  else links ++ [(link_key (fst pair) (snd pair), with_entry e (fresh_link pair))].
Proof.
  destruct pair as [a1 a2]. unfold add_link. cbn [fst snd].
  destruct (Dict.mem links (link_key a1 a2)) eqn:Hmem; [reflexivity |].
  apply mem_get in Hmem.
  rewrite (set_absent links _ _ Hmem).
  apply (update_app_absent links (link_key a1 a2) _ _ Hmem).
Qed.

(** A property of links that holds of a new link with its first entry and
    survives one more entry holds of all links after [add_link]. *)
Lemma add_link_keeps (Q : Link.t -> Prop) (pmid title : string)
    (links : Dict.t Link.t) (pair : string * string) :
  let e := {| LinkArticle.pmid := pmid; LinkArticle.title := title |} in
  (forall l, Q l -> Q (with_entry e l)) ->
  Q (with_entry e (fresh_link pair)) ->
  Forall (fun kv => Q (snd kv)) links ->
  Forall (fun kv => Q (snd kv)) (add_link pmid title links pair).
Proof.
  intros e Hstep Hfresh Hall. rewrite add_link_cases.
  destruct (Dict.mem links (link_key (fst pair) (snd pair))).
  - apply update_forall; assumption.
  - apply Forall_app. split; [exact Hall | repeat constructor; exact Hfresh].
Qed.

Lemma links_step_keeps (Q : Link.t -> Prop) (R : string -> string -> Prop)
    (d : string * Article.t) (links : Dict.t Link.t) :
  (forall l, Q l -> Q (with_entry (entry_of d) l)) ->
  (forall a1 a2, R a1 a2 -> Q (with_entry (entry_of d) (fresh_link (a1, a2)))) ->
  Forall (fun p => R (fst p) (snd p)) (combinations2 (sorted (authors_of (snd d)))) ->
  Forall (fun kv => Q (snd kv)) links ->
  Forall (fun kv => Q (snd kv)) (links_step links d).
Proof.
  intros Hstep Hfresh Hpairs Hall. unfold links_step, add_links.
  destruct (1 <? List.length (authors_of (snd d)))%nat; [| exact Hall].
  revert links Hall.
  induction Hpairs as [| [a1 a2] pairs Hp _ IH]; intros links Hall;
    cbn [fold_left].
  - exact Hall.
  - apply IH. apply (add_link_keeps Q); [exact Hstep | apply Hfresh, Hp | exact Hall].
Qed.

(** *** Pairs *)

Lemma combinations2_in {A : Type} (l : list A) (x y : A) :
  In (x, y) (combinations2 l) -> In x l /\ In y l.
Proof.
  induction l as [| a l IH]; simpl; [tauto |].
  rewrite in_app_iff, in_map_iff. intros [(z & E & Hz) | H].
  - injection E as <- <-. auto.
  - destruct (IH H). auto.
Qed.

Lemma combinations2_ordered (l : list string) :
  StronglySorted le l ->
  Forall (fun p => le (fst p) (snd p)) (combinations2 l).
Proof.
  induction 1 as [| x l Hl IH Hx]; simpl; [constructor |].
  apply Forall_app. split; [| exact IH].
  rewrite Forall_forall in *. intros p Hp.
  apply in_map_iff in Hp. destruct Hp as (y & <- & Hy). apply Hx, Hy.
Qed.

Lemma combinations2_length {A : Type} (l : list A) :
  List.length (combinations2 l) = pair_count (List.length l).
Proof.
  unfold pair_count. induction l as [| x l IH]; [reflexivity |].
  cbn [combinations2 List.length]. rewrite length_app, length_map, IH.
  replace (S (List.length l) - 1) with (List.length l) by lia.
  destruct (List.length l) as [| n]; [reflexivity |].
  replace (S (S n) * S n) with (S n * (S n - 1) + S n * 2) by lia.
  rewrite Nat.div_add by lia. lia.
Qed.

(** X12.  Every link runs from the smaller name to the larger one: for a
    link of the graph, whatever the collection and the filter, [source]
    does not come after [target] in the order of [sorted]. *)
Theorem links_run_in_name_order (coll : collection)
    (article_pmids : option (list string)) (l : Link.t) :
  In l (Graph.links
          (fst (get_author_network_data (connected coll) article_pmids))) ->
  String.leb (Link.source l) (Link.target l) = true.
Proof.
  rewrite graph_of_selected, links_of_build_graph, fold_add_article_links.
  cbn [snd]. intros Hin. unfold Dict.values in Hin.
  apply in_map_iff in Hin. destruct Hin as (kv & <- & Hkv).
  assert (Hall : forall articles links,
    Forall (fun kv => le (Link.source (snd kv)) (Link.target (snd kv))) links ->
    Forall (fun kv => le (Link.source (snd kv)) (Link.target (snd kv)))
      (fold_left links_step articles links)).
  { induction articles as [| d articles IH]; intros links Hl; [exact Hl |].
    simpl. apply IH.
    apply (links_step_keeps (fun l => le (Link.source l) (Link.target l)) le).
    - intros l0 H0. exact H0.
    - intros a1 a2 H12. exact H12.
    - apply combinations2_ordered, sorted_ordered.
    - exact Hl. }
  specialize (Hall (selected coll article_pmids) [] (Forall_nil _)).
  rewrite Forall_forall in Hall. apply (Hall kv Hkv).
Qed.

Lemma links_run_in_name_order_witness :
  String.leb "Alice Smith" "Charlie Brown" = true.
Proof.
  apply (links_run_in_name_order dummy_articles (Some ["PMID1"])
           {| Link.source := "Alice Smith"; Link.target := "Charlie Brown";
              Link.articles :=
                [{| LinkArticle.pmid := "PMID1";
                    LinkArticle.title :=
                      "Novel Approach to Quantum Computing" |}] |}).
  simpl. right. left. reflexivity.
Defined.

(** *** Nodes *)

Lemma nodes_of_build_graph (articles : list (string * Article.t)) :
  Graph.nodes (build_graph articles) =
  Dict.values (fst (fold_left add_article articles ([], []))).
Proof.
  unfold build_graph. destruct (fold_left add_article articles ([], [])).
  reflexivity.
Qed.

Lemma fold_add_article_nodes (articles : list (string * Article.t)) :
  forall state,
    fst (fold_left add_article articles state) =
    fold_left (fun nodes d => add_nodes nodes (authors_of (snd d)))
      articles (fst state).
Proof.
  induction articles as [| d articles IH]; intros [nodes links]; simpl.
  - reflexivity.
  - rewrite IH. reflexivity.
Qed.

Lemma mem_in {V : Type} (d : Dict.t V) (k : string) :
  Dict.mem d k = true <-> In k (map fst d).
Proof.
  destruct (Dict.mem d k) eqn:E.
  - split; [intros _ | reflexivity].
    destruct (in_dec string_dec k (map fst d)) as [H | H]; [exact H |].
    apply get_none in H. apply mem_get in H. congruence.
  - split; [discriminate |]. intros H. exfalso.
    apply mem_get in E. apply get_none in E. contradiction.
Qed.

Lemma add_nodes_spec (names : list string) :
  forall nodes,
    well_keyed nodes ->
    well_keyed (add_nodes nodes names) /\
    forall k, In k (map fst (add_nodes nodes names)) <->
              In k (map fst nodes) \/ In k names.
Proof.
  unfold add_nodes.
  induction names as [| x names IH]; intros nodes Hw; cbn [fold_left].
  - split; [exact Hw | simpl; tauto].
  - destruct (Dict.mem nodes x) eqn:Hmem.
    + destruct (IH nodes Hw) as [Hw' Hk]. split; [exact Hw' |].
      intros k. rewrite Hk. apply mem_in in Hmem. simpl.
      split; [tauto |]. intros [H | [<- | H]]; auto.
    + pose proof Hmem as Habs. apply mem_get in Habs.
      rewrite (set_absent nodes x _ Habs).
      destruct Hw as [Hnd Hall].
      destruct (IH (nodes ++ [(x, node_of x)])) as [Hw' Hk].
      * split.
        -- rewrite map_app. simpl.
           apply NoDup_app; [assumption | repeat constructor; simpl; tauto |].
           intros k Hin [<- | []]. revert Hin. apply get_none, Habs.
        -- apply Forall_app. split; [exact Hall | repeat constructor].
      * split; [exact Hw' |]. intros k. rewrite Hk, map_app, in_app_iff.
        simpl. tauto.
Qed.

Lemma fold_add_nodes_spec (articles : list (string * Article.t)) :
  forall nodes,
    well_keyed nodes ->
    well_keyed (fold_left (fun nodes d => add_nodes nodes (authors_of (snd d)))
                  articles nodes) /\
    forall k,
      In k (map fst (fold_left
                       (fun nodes d => add_nodes nodes (authors_of (snd d)))
                       articles nodes)) <->
      In k (map fst nodes) \/
      exists d, In d articles /\ In k (authors_of (snd d)).
Proof.
  induction articles as [| d articles IH]; intros nodes Hw; cbn [fold_left].
  - split; [exact Hw |]. intros k. split; [tauto |].
    intros [H | (d & [] & _)]. exact H.
  - destruct (add_nodes_spec (authors_of (snd d)) nodes Hw) as [Hw1 Hk1].
    destruct (IH _ Hw1) as [Hw2 Hk2]. split; [exact Hw2 |].
    intros k. rewrite Hk2, Hk1. split.
    + intros [[H | H] | (d' & Hd' & H)]; eauto.
      * right. exists d. simpl. auto.
      * right. exists d'. simpl. auto.
    + intros [H | (d' & [<- | Hd'] & H)]; eauto.
Qed.

(** The nodes of a graph: their identifiers are the keys of the dict. *)
Lemma graph_nodes_spec (articles : list (string * Article.t)) :
  NoDup (map Node.id (Graph.nodes (build_graph articles))) /\
  (forall name,
     In name (map Node.id (Graph.nodes (build_graph articles))) <->
     exists d, In d articles /\ In name (authors_of (snd d))) /\
  Forall (fun n => n = node_of (Node.id n)) (Graph.nodes (build_graph articles)).
Proof.
  rewrite nodes_of_build_graph, fold_add_article_nodes. cbn [fst].
  destruct (fold_add_nodes_spec articles [])
    as [[Hnd Hall] Hk]; [split; constructor |].
  set (nodes := fold_left
                  (fun (nodes : Dict.t Node.t) (d : string * Article.t) =>
                     add_nodes nodes (authors_of (snd d)))
                  articles []) in *.
  assert (Hids : map Node.id (Dict.values nodes) = map fst nodes).
  { unfold Dict.values. rewrite map_map. apply map_ext_in.
    rewrite Forall_forall in Hall. intros kv Hkv.
    rewrite (Hall kv Hkv). reflexivity. }
  rewrite Hids. split; [exact Hnd |]. split.
  - intros name. rewrite Hk. simpl. split; [intros [[] | H]; exact H | auto].
  - unfold Dict.values. rewrite Forall_map.
    rewrite Forall_forall in *. intros kv Hkv.
    rewrite (Hall kv Hkv). reflexivity.
Qed.

(** X13.  The nodes of the graph are the authors of the articles the
    request reads, each once: no two nodes have the same identifier, a name
    is the identifier of a node exactly if it is an author of one of these
    articles, and every node carries its identifier as its name and the
    type "author". *)
Theorem nodes_are_the_authors (coll : collection)
    (article_pmids : option (list string)) :
  let g := fst (get_author_network_data (connected coll) article_pmids) in
  NoDup (map Node.id (Graph.nodes g)) /\
  (forall name,
     In name (map Node.id (Graph.nodes g)) <->
     exists d, In d (selected coll article_pmids) /\
               In name (authors_of (snd d))) /\
  Forall (fun n => Node.name n = Node.id n /\ Node.type n = "author")
    (Graph.nodes g).
Proof.
  cbv zeta. rewrite graph_of_selected.
  destruct (graph_nodes_spec (selected coll article_pmids)) as (Hnd & Hk & Hall).
  split; [exact Hnd |]. split; [exact Hk |].
  rewrite Forall_forall in *. intros n Hn. rewrite (Hall n Hn). split; reflexivity.
Qed.

(** *** Links *)

Lemma fold_links_keeps (Q : Link.t -> Prop)
    (articles : list (string * Article.t)) :
  (forall d, In d articles ->
     (forall l, Q l -> Q (with_entry (entry_of d) l)) /\
     Forall (fun p => Q (with_entry (entry_of d) (fresh_link p)))
       (combinations2 (sorted (authors_of (snd d))))) ->
  forall links,
    Forall (fun kv => Q (snd kv)) links ->
    Forall (fun kv => Q (snd kv)) (fold_left links_step articles links).
Proof.
  induction articles as [| d articles IH]; intros Hd links Hl; [exact Hl |].
  cbn [fold_left]. apply IH; [intros d' Hin; apply Hd; right; exact Hin |].
  destruct (Hd d (or_introl eq_refl)) as [Hstep Hfresh].
  apply (links_step_keeps Q
           (fun a1 a2 => Q (with_entry (entry_of d) (fresh_link (a1, a2))))).
  - exact Hstep.
  - intros a1 a2 H. exact H.
  - rewrite Forall_forall in *. intros [a1 a2] Hp. apply (Hfresh _ Hp).
  - exact Hl.
Qed.

Lemma graph_links_keep (Q : Link.t -> Prop)
    (articles : list (string * Article.t)) (l : Link.t) :
  (forall d, In d articles ->
     (forall l, Q l -> Q (with_entry (entry_of d) l)) /\
     Forall (fun p => Q (with_entry (entry_of d) (fresh_link p)))
       (combinations2 (sorted (authors_of (snd d))))) ->
  In l (Graph.links (build_graph articles)) -> Q l.
Proof.
  intros Hd. rewrite links_of_build_graph, fold_add_article_links. cbn [snd].
  unfold Dict.values. intros Hin. apply in_map_iff in Hin.
  destruct Hin as (kv & <- & Hkv).
  pose proof (fold_links_keeps Q articles Hd [] (Forall_nil _)) as Hall.
  rewrite Forall_forall in Hall. apply (Hall kv Hkv).
Qed.

Lemma pair_of_authors (d : string * Article.t) (a1 a2 : string) :
  In (a1, a2) (combinations2 (sorted (authors_of (snd d)))) ->
  In a1 (authors_of (snd d)) /\ In a2 (authors_of (snd d)).
Proof.
  intros H. apply combinations2_in in H. destruct H as [H1 H2].
  split; apply (Permutation_in _ (sorted_perm _)); assumption.
Qed.

(** X14.  Both ends of every link are nodes of the graph. *)
Theorem link_ends_are_nodes (coll : collection)
    (article_pmids : option (list string)) (l : Link.t) :
  let g := fst (get_author_network_data (connected coll) article_pmids) in
  In l (Graph.links g) ->
  In (Link.source l) (map Node.id (Graph.nodes g)) /\
  In (Link.target l) (map Node.id (Graph.nodes g)).
Proof.
  cbv zeta. rewrite graph_of_selected.
  set (articles := selected coll article_pmids).
  destruct (graph_nodes_spec articles) as (_ & Hk & _).
  apply (graph_links_keep
           (fun l => In (Link.source l) (map Node.id (Graph.nodes (build_graph articles))) /\
                     In (Link.target l) (map Node.id (Graph.nodes (build_graph articles))))).
  intros d Hd. split; [intros l0 H0; exact H0 |].
  rewrite Forall_forall. intros [a1 a2] Hp.
  destruct (pair_of_authors d a1 a2 Hp) as [H1 H2].
  cbn [with_entry fresh_link Link.source Link.target fst snd].
  split; apply Hk; exists d; auto.
Qed.

Lemma link_ends_are_nodes_witness :
  In "Bob Johnson"
     (map Node.id
        (Graph.nodes
           (fst (get_author_network_data (connected dummy_articles) None)))) /\
  In "Eve White"
     (map Node.id
        (Graph.nodes
           (fst (get_author_network_data (connected dummy_articles) None)))).
Proof.
  apply (link_ends_are_nodes dummy_articles None
           {| Link.source := "Bob Johnson"; Link.target := "Eve White";
              Link.articles :=
                [{| LinkArticle.pmid := "PMID3";
                    LinkArticle.title :=
                      "Blockchain Applications in Healthcare" |}] |}).
  simpl. do 4 right. left. reflexivity.
Defined.

Lemma selected_in (coll : collection) (article_pmids : option (list string))
    (d : string * Article.t) :
  In d (selected coll article_pmids) ->
  In d coll /\
  match article_pmids with
  | Some (p :: ps) => In (fst d) (p :: ps)
  | _ => True
  end.
Proof.
  destruct article_pmids as [[| p ps] |]; cbn [selected]; auto.
  unfold find. rewrite filter_In, existsb_exists.
  intros (Hin & x & Hx & E). apply String.eqb_eq in E. subst x. auto.
Qed.

(** X15.  Every link lists at least one article, and every entry of a link
    is the identifier and title of a stored article the request reads: one
    named by the filter when the filter is a non-empty list. *)
Theorem link_entries_are_selected_articles (coll : collection)
    (article_pmids : option (list string)) (l : Link.t) :
  In l (Graph.links
          (fst (get_author_network_data (connected coll) article_pmids))) ->
  Link.articles l <> [] /\
  forall e, In e (Link.articles l) ->
    exists d, In d coll /\ e = entry_of d /\
              match article_pmids with
              | Some (p :: ps) => In (LinkArticle.pmid e) (p :: ps)
              | _ => True
              end.
Proof.
  rewrite graph_of_selected.
  apply (graph_links_keep
           (fun l => Link.articles l <> [] /\
                     forall e, In e (Link.articles l) ->
                       exists d, In d coll /\ e = entry_of d /\
                                 match article_pmids with
                                 | Some (p :: ps) => In (LinkArticle.pmid e) (p :: ps)
                                 | _ => True
                                 end)).
  intros d Hd. destruct (selected_in coll article_pmids d Hd) as [Hcoll Hsel].
  assert (Hentry : exists d0, In d0 coll /\ entry_of d = entry_of d0 /\
                     match article_pmids with
                     | Some (p :: ps) => In (LinkArticle.pmid (entry_of d)) (p :: ps)
                     | _ => True
                     end) by (exists d; auto).
  split.
  - intros l0 [_ H0]. cbn [with_entry Link.articles]. split.
    + destruct (Link.articles l0); discriminate.
    + intros e He. apply in_app_iff in He. destruct He as [He | [<- | []]]; auto.
  - rewrite Forall_forall. intros p _.
    cbn [with_entry fresh_link Link.articles app]. split; [discriminate |].
    intros e [<- | []]. exact Hentry.
Qed.

Lemma link_entries_are_selected_articles_witness :
  [{| LinkArticle.pmid := "PMID3";
      LinkArticle.title := "Blockchain Applications in Healthcare" |}] <> [] /\
  forall e,
    In e [{| LinkArticle.pmid := "PMID3";
             LinkArticle.title := "Blockchain Applications in Healthcare" |}] ->
    exists d, In d dummy_articles /\ e = entry_of d /\
              In (LinkArticle.pmid e) ["PMID3"; "PMID9"].
Proof.
  apply (link_entries_are_selected_articles dummy_articles
           (Some ["PMID3"; "PMID9"])
           {| Link.source := "Bob Johnson"; Link.target := "Eve White";
              Link.articles :=
                [{| LinkArticle.pmid := "PMID3";
                    LinkArticle.title :=
                      "Blockchain Applications in Healthcare" |}] |}).
  simpl. left. reflexivity.
Defined.

(** *** Counting entries *)

Lemma total_entries_app (l1 l2 : list Link.t) :
  total_entries (l1 ++ l2) = total_entries l1 + total_entries l2.
Proof. unfold total_entries. rewrite map_app, list_sum_app. reflexivity. Qed.

Lemma total_entries_update (e : LinkArticle.t) (links : Dict.t Link.t)
    (k : string) :
  Dict.mem links k = true ->
  total_entries (Dict.values (Dict.update links k (with_entry e))) =
  S (total_entries (Dict.values links)).
Proof.
  unfold Dict.mem. induction links as [| [k' v] links IH]; simpl; [discriminate |].
  destruct (String.eqb k k').
  - intros _. unfold total_entries. simpl. rewrite length_app. simpl. lia.
  - intros H. unfold total_entries in *. simpl. rewrite (IH H). lia.
Qed.

Lemma total_entries_add_link (pmid title : string) (links : Dict.t Link.t)
    (pair : string * string) :
  total_entries (Dict.values (add_link pmid title links pair)) =
  S (total_entries (Dict.values links)).
Proof.
  rewrite add_link_cases.
  destruct (Dict.mem links (link_key (fst pair) (snd pair))) eqn:Hmem.
  - apply total_entries_update, Hmem.
  - unfold Dict.values. rewrite map_app, total_entries_app.
    unfold total_entries at 2. simpl. lia.
Qed.

Lemma total_entries_links_step (links : Dict.t Link.t)
    (d : string * Article.t) :
  total_entries (Dict.values (links_step links d)) =
  total_entries (Dict.values links) + article_pairs d.
Proof.
  unfold links_step, add_links, article_pairs.
  destruct (Nat.ltb_spec 1 (List.length (authors_of (snd d)))) as [Hbig | Hsmall].
  - rewrite <- (Permutation_length (sorted_perm (authors_of (snd d)))).
    rewrite <- combinations2_length.
    generalize (combinations2 (sorted (authors_of (snd d)))). intros pairs.
    revert links. induction pairs as [| p pairs IH]; intros links;
      cbn [fold_left List.length]; [lia |].
    rewrite IH, total_entries_add_link. lia.
  - unfold pair_count.
    destruct (List.length (authors_of (snd d))) as [| [| n]];
      [simpl; lia | simpl; lia | lia].
Qed.

(** X16.  No entry is lost when pair keys collide: over all links of the
    graph there are as many article entries as there are pairs of authors
    in the articles the request reads, [n * (n - 1) / 2] for an article of
    [n] authors. *)
Theorem entries_count_the_pairs (coll : collection)
    (article_pmids : option (list string)) :
  total_entries
    (Graph.links (fst (get_author_network_data (connected coll) article_pmids))) =
  list_sum (map article_pairs (selected coll article_pmids)).
Proof.
  rewrite graph_of_selected, links_of_build_graph, fold_add_article_links.
  cbn [snd].
  assert (H : forall articles links,
    total_entries (Dict.values (fold_left links_step articles links)) =
    total_entries (Dict.values links) + list_sum (map article_pairs articles)).
  { induction articles as [| d articles IH]; intros links; cbn [fold_left map list_sum].
    - simpl. lia.
    - rewrite IH, total_entries_links_step. simpl. lia. }
  rewrite H. reflexivity.
Qed.

(** On the article whose pair keys collide the two links hold the three
    entries of its three pairs. *)
Example entries_of_colliding_article :
  total_entries
    (Graph.links (fst (get_author_network_data (connected colliding) None))) = 3.
Proof. reflexivity. Qed.

(** *** Filters *)

Lemma existsb_same_elements (k : string) (ids1 ids2 : list string) :
  (forall x, In x ids1 <-> In x ids2) ->
  existsb (String.eqb k) ids1 = existsb (String.eqb k) ids2.
Proof.
  intros H.
  destruct (existsb (String.eqb k) ids1) eqn:E1;
    destruct (existsb (String.eqb k) ids2) eqn:E2; try reflexivity; exfalso.
  - apply existsb_exists in E1. destruct E1 as (x & Hx & E).
    assert (existsb (String.eqb k) ids2 = true)
      by (apply existsb_exists; exists x; split; [apply H, Hx | exact E]).
    congruence.
  - apply existsb_exists in E2. destruct E2 as (x & Hx & E).
    assert (existsb (String.eqb k) ids1 = true)
      by (apply existsb_exists; exists x; split; [apply H, Hx | exact E]).
    congruence.
Qed.

(** X17.  The filter is used as a set: two lists of identifiers with the
    same elements, in any order and with any repetitions, give the same
    graph, whose articles are read in the order of the store and not of the
    list. *)
Theorem filter_is_a_set (coll : collection) (ids1 ids2 : list string) :
  (forall x, In x ids1 <-> In x ids2) ->
  fst (get_author_network_data (connected coll) (Some ids1)) =
  fst (get_author_network_data (connected coll) (Some ids2)).
Proof.
  intros H. rewrite !graph_of_selected. f_equal.
  destruct ids1 as [| p1 ids1], ids2 as [| p2 ids2].
  - reflexivity.
  - exfalso. apply (proj2 (H p2)). left. reflexivity.
  - exfalso. apply (proj1 (H p1)). left. reflexivity.
  - cbn [selected find]. apply filter_ext.
    intros d. apply existsb_same_elements, H.
Qed.

Lemma filter_is_a_set_witness :
  fst (get_author_network_data (connected dummy_articles)
         (Some ["PMID3"; "PMID1"; "PMID3"])) =
  fst (get_author_network_data (connected dummy_articles)
         (Some ["PMID1"; "PMID3"])).
Proof.
  apply (filter_is_a_set dummy_articles ["PMID3"; "PMID1"; "PMID3"]
           ["PMID1"; "PMID3"]).
  intros x. simpl. tauto.
Defined.

End GraphExtra.

(** ** The vector store: writes and queries *)

Module ChromaExtra.
Import Chroma Retrieval Samples MoreSamples.

(** X18.  [add_chunks] changes the handler only when it returns [True].
    When it returns [False] the handler is as before.  When it returns
    [True] the three lists were of one length, the model returned at least
    one embedding for the texts, the index accepted the rows, the
    collection is what the index returned, and the calls were the encoding
    and then the write, once each. *)
Theorem add_chunks_outcome {vector : Type}
    (collection_add :
       list (Row vector) -> list string -> list vector ->
       list Metadata.t -> list string -> result (list (Row vector)))
    (self : ChromaDBHandler vector) (texts : list string)
    (metadatas : list Metadata.t) (ids : list string) :
  let r := add_chunks collection_add self texts metadatas ids in
  match fst (fst r) with
  | false => snd (fst r) = self
  | true =>
      exists rows encode embeddings rows',
        collection self = Some rows /\ model self = Some encode /\
        List.length texts = List.length metadatas /\
        List.length metadatas = List.length ids /\
        encode texts = Ok embeddings /\ embeddings <> [] /\
        collection_add rows texts embeddings metadatas ids = Ok rows' /\
        snd (fst r) =
          {| collection := Some rows'; model := model self;
             collection_name := collection_name self |} /\
        snd r = [ModelEncode texts; ChromaAdd ids texts metadatas;
                 Log INFO (AddDone (List.length texts) (collection_name self))]
  end.
Proof.
  unfold add_chunks, _generate_embeddings.
  destruct (collection self) as [rows |] eqn:Hc; [| reflexivity].
  destruct (model self) as [encode |] eqn:Hm; [| reflexivity].
  destruct (same_lengths texts metadatas ids) eqn:Hl; [| reflexivity].
  cbn [negb]. cbv iota.
  destruct (encode texts) as [[| v embeddings] | e] eqn:He; try reflexivity.
  destruct (collection_add rows texts (v :: embeddings) metadatas ids)
    as [rows' | e] eqn:Ha; [| reflexivity].
  cbn [fst snd].
  unfold same_lengths in Hl. apply andb_true_iff in Hl.
  destruct Hl as [H1 H2]. apply Nat.eqb_eq in H1, H2.
  exists rows, encode, (v :: embeddings), rows'.
  repeat split; try assumption. discriminate.
Qed.

(** X19.  The vector index is written to only after the embedding
    succeeded: if the trace of [add_chunks] has a call of [collection.add],
    the call carries the three lists of the caller, they are of one length,
    and the model had returned at least one embedding for the texts.  A
    model that raises, or returns no embedding, leads to no write. *)
Theorem add_chunks_writes_after_embedding {vector : Type}
    (collection_add :
       list (Row vector) -> list string -> list vector ->
       list Metadata.t -> list string -> result (list (Row vector)))
    (self : ChromaDBHandler vector) (texts : list string)
    (metadatas : list Metadata.t) (ids : list string)
    (ids' documents' : list string) (metadatas' : list Metadata.t) :
  In (ChromaAdd ids' documents' metadatas')
     (snd (add_chunks collection_add self texts metadatas ids)) ->
  (ids', documents', metadatas') = (ids, texts, metadatas) /\
  List.length texts = List.length metadatas /\
  List.length metadatas = List.length ids /\
  exists encode embeddings,
    model self = Some encode /\ encode texts = Ok embeddings /\
    embeddings <> [].
Proof.
  unfold add_chunks, _generate_embeddings.
  destruct (collection self) as [rows |] eqn:Hc;
    [| simpl; intuition discriminate].
  destruct (model self) as [encode |] eqn:Hm;
    [| simpl; intuition discriminate].
  destruct (same_lengths texts metadatas ids) eqn:Hl;
    [| simpl; intuition discriminate].
  cbn [negb]. cbv iota.
  unfold same_lengths in Hl. apply andb_true_iff in Hl.
  destruct Hl as [H1 H2]. apply Nat.eqb_eq in H1, H2.
  destruct (encode texts) as [[| v embeddings] | e] eqn:He;
    try (simpl; intuition discriminate).
  assert (Hgoal : forall lvl msg,
    In (ChromaAdd ids' documents' metadatas')
       ([ModelEncode texts] ++ [ChromaAdd ids texts metadatas; Log lvl msg]) ->
    (ids', documents', metadatas') = (ids, texts, metadatas)).
  { intros lvl msg [E | [E | [E | []]]]; try discriminate.
    injection E as -> -> ->. reflexivity. }
  destruct (collection_add rows texts (v :: embeddings) metadatas ids)
    as [rows' | e]; cbn [fst snd]; intros Hin.
  - split; [apply (Hgoal INFO (AddDone (List.length texts) (collection_name self))), Hin |].
    repeat split; try assumption. exists encode, (v :: embeddings).
    repeat split; [assumption | discriminate].
  - split; [apply (Hgoal ERROR (AddError e)), Hin |].
    repeat split; try assumption. exists encode, (v :: embeddings).
    repeat split; [assumption | discriminate].
Qed.

Lemma add_chunks_writes_after_embedding_witness :
  (["A_chunk_0"], ["One."],
   [{| Metadata.article_id := "A"; Metadata.chunk_index := 0;
       Metadata.source := "abstract"; Metadata.title := "T" |}]) =
  (["A_chunk_0"], ["One."],
   [{| Metadata.article_id := "A"; Metadata.chunk_index := 0;
       Metadata.source := "abstract"; Metadata.title := "T" |}]) /\
  1 = 1 /\ 1 = 1 /\
  exists encode embeddings,
    model sample_chroma = Some encode /\ encode ["One."] = Ok embeddings /\
    embeddings <> [].
Proof.
  apply (add_chunks_writes_after_embedding sample_add sample_chroma ["One."]
           [{| Metadata.article_id := "A"; Metadata.chunk_index := 0;
               Metadata.source := "abstract"; Metadata.title := "T" |}]
           ["A_chunk_0"]).
  simpl. right. left. reflexivity.
Defined.

(** A model that raises: nothing is written and the handler is unchanged. *)
Example add_chunks_with_failing_model :
  add_chunks sample_add failing_model ["One."]
    [{| Metadata.article_id := "A"; Metadata.chunk_index := 0;
        Metadata.source := "abstract"; Metadata.title := "T" |}]
    ["A_chunk_0"] =
  (false, failing_model,
   [ModelEncode ["One."]; Log ERROR (EmbedError OtherError);
    Log ERROR AddEmbeddingsFailed]).
Proof. reflexivity. Qed.

End ChromaExtra.

(** ** Retrieval *)

Module RetrievalExtra.
Import Chroma Retrieval Samples MoreSamples.

(** X20.  The vector index is queried only with an embedding of the query
    text: if the trace of [query_chunks] has a call of [collection.query],
    the handler has a collection and a model, the model returned at least
    one embedding for the query text, the first of them is not empty, and
    the call asks for [n_results] neighbours.  If a list of chunks other
    than the empty one is returned, the index answered that call and the
    chunks are those collected from its answer. *)
Theorem query_chunks_needs_embedding {vector number : Type}
    (dimension : vector -> nat)
    (collection_query :
       list (Row vector) -> vector -> Z -> result (QueryResult number))
    (self : ChromaDBHandler vector) (query_text : string) (n_results k : Z) :
  let r := query_chunks dimension collection_query self query_text n_results in
  In (CollectionQuery k) (snd r) \/ fst r <> [] ->
  exists rows encode v others,
    collection self = Some rows /\ model self = Some encode /\
    encode [query_text] = Ok (v :: others) /\ dimension v <> 0 /\
    (In (CollectionQuery k) (snd r) -> k = n_results) /\
    (fst r <> [] ->
     exists results,
       collection_query rows v n_results = Ok results /\
       collect results = Ok (fst r)).
Proof.
  unfold query_chunks, _generate_embeddings.
  assert (Hdead : forall (t : list query_event),
    ~ In (CollectionQuery k) t ->
    In (CollectionQuery k) t \/ @nil (RetrievedChunk number) <> [] -> False)
    by (intros t Ht [H | H]; [exact (Ht H) | congruence]).
  destruct (collection self) as [rows |] eqn:Hc.
  2:{ cbv zeta. cbn [fst snd]. intros H. exfalso. revert H. apply Hdead.
      simpl. intuition discriminate. }
  destruct (model self) as [encode |] eqn:Hm.
  2:{ cbv zeta. cbn [fst snd]. intros H. exfalso. revert H. apply Hdead.
      simpl. intuition discriminate. }
  destruct (encode [query_text]) as [[| v others] | e] eqn:He.
  - cbv zeta. cbn [fst snd]. intros H. exfalso. revert H. apply Hdead.
    simpl. intuition discriminate.
  - cbv zeta iota beta. cbn [map app].
    destruct (Nat.eqb_spec (dimension v) 0) as [Hd | Hd].
    + cbn [fst snd]. intros H. exfalso. revert H. apply Hdead.
      simpl. intuition discriminate.
    + intros _. exists rows, encode, v, others.
      split; [reflexivity |]. split; [reflexivity |].
      split; [exact He |]. split; [exact Hd |]. split.
      * destruct (collection_query rows v n_results) as [results | e];
          [destruct (collect results) |]; cbn [fst snd]; simpl;
          intros [E | [E | [E | []]]]; try discriminate; congruence.
      * destruct (collection_query rows v n_results) as [results | e];
          [destruct (collect results) as [chunks | e] eqn:Hcol |];
          cbn [fst snd]; intros H; try congruence.
        exists results. split; [reflexivity | exact Hcol].
  - cbv zeta. cbn [fst snd]. intros H. exfalso. revert H. apply Hdead.
    simpl. intuition discriminate.
Qed.

Lemma query_chunks_needs_embedding_witness :
  exists rows encode v others,
    collection sample_chroma = Some rows /\ model sample_chroma = Some encode /\
    encode ["gene editing"] = Ok (v :: others) /\ v <> 0.
Proof.
  destruct (query_chunks_needs_embedding (fun v : nat => v)
              (sample_query two_hits) sample_chroma "gene editing" 2 2)
    as (rows & encode & v & others & Hc & Hm & He & Hd & _).
  - left. simpl. right. left. reflexivity.
  - exists rows, encode, v, others. auto.
Defined.

(** The chunks of an aligned answer, from position [i] on. *)
Lemma collect_from_aligned {number : Type} (results : QueryResult number)
    (metas : list (Dict.t meta_value)) (dists : list number)
    (others_m : list (list (Dict.t meta_value))) (others_d : list (list number))
    (docs : list string) :
  metadatas results = metas :: others_m ->
  distances results = dists :: others_d ->
  forall i,
    i + List.length docs <= List.length metas ->
    i + List.length docs <= List.length dists ->
    collect_from results i docs =
    Ok (map (fun x => {| document := fst (fst x); metadata := snd (fst x);
                         distance := snd x |})
            (combine (combine docs (skipn i metas)) (skipn i dists))).
Proof.
  intros Hm Hd. induction docs as [| doc rest IH]; intros i Hi Hj.
  - reflexivity.
  - cbn [collect_from List.length] in *. rewrite Hm, Hd. unfold index. cbn [nth_error].
    destruct (nth_error metas i) as [m |] eqn:Em;
      [| apply nth_error_None in Em; lia].
    destruct (nth_error dists i) as [d |] eqn:Ed;
      [| apply nth_error_None in Ed; lia].
    rewrite (IH (S i)) by lia.
    apply nth_error_split in Em. destruct Em as (m1 & m2 & -> & Hl1).
    apply nth_error_split in Ed. destruct Ed as (d1 & d2 & -> & Hl2).
    assert (Sm : forall k, k = List.length m1 -> skipn k (m1 ++ m :: m2) = m :: m2).
    { intros k ->. rewrite skipn_app, skipn_all, Nat.sub_diag. reflexivity. }
    assert (Sm' : forall k, k = S (List.length m1) -> skipn k (m1 ++ m :: m2) = m2).
    { intros k ->. change (m :: m2) with ([m] ++ m2). rewrite app_assoc.
      replace (S (List.length m1)) with (List.length (m1 ++ [m]))
        by (rewrite length_app; simpl; lia).
      rewrite skipn_app, skipn_all, Nat.sub_diag. reflexivity. }
    assert (Sd : forall k, k = List.length d1 -> skipn k (d1 ++ d :: d2) = d :: d2).
    { intros k ->. rewrite skipn_app, skipn_all, Nat.sub_diag. reflexivity. }
    assert (Sd' : forall k, k = S (List.length d1) -> skipn k (d1 ++ d :: d2) = d2).
    { intros k ->. change (d :: d2) with ([d] ++ d2). rewrite app_assoc.
      replace (S (List.length d1)) with (List.length (d1 ++ [d]))
        by (rewrite length_app; simpl; lia).
      rewrite skipn_app, skipn_all, Nat.sub_diag. reflexivity. }
    rewrite (Sm i), (Sm' (S i)), (Sd i), (Sd' (S i)) by lia.
    reflexivity.
Qed.

(** A position without metadata or without distance raises. *)
Lemma collect_from_short {number : Type} (results : QueryResult number)
    (metas : list (Dict.t meta_value)) (dists : list number)
    (others_m : list (list (Dict.t meta_value))) (others_d : list (list number))
    (docs : list string) :
  metadatas results = metas :: others_m ->
  distances results = dists :: others_d ->
  forall i,
    i <= List.length metas -> i <= List.length dists ->
    List.length metas < i + List.length docs \/
    List.length dists < i + List.length docs ->
    collect_from results i docs = Raise IndexError.
Proof.
  intros Hm Hd. induction docs as [| doc rest IH]; intros i Hi Hj Hshort.
  - simpl in Hshort. lia.
  - cbn [collect_from List.length] in *. rewrite Hm, Hd. unfold index. cbn [nth_error].
    destruct (nth_error metas i) as [m |] eqn:Em; [| reflexivity].
    destruct (nth_error dists i) as [d |] eqn:Ed; [| reflexivity].
    assert (i < List.length metas) by (apply nth_error_Some; congruence).
    assert (i < List.length dists) by (apply nth_error_Some; congruence).
    rewrite (IH (S i)) by lia. reflexivity.
Qed.

(** X21.  The chunks [query_chunks] takes from an answer of the index are
    its first list of documents, in the order of the answer, each with the
    metadata and the distance at the same position; metadata and distances
    beyond the documents are ignored.  If the answer has fewer metadata or
    fewer distances than documents, the loop raises [IndexError] (and
    [query_chunks] returns no chunk at all). *)
Theorem collect_pairs_by_position {number : Type}
    (results : QueryResult number)
    (docs : list string) (metas : list (Dict.t meta_value)) (dists : list number)
    (others : list (list string))
    (others_m : list (list (Dict.t meta_value))) (others_d : list (list number)) :
  documents results = docs :: others ->
  metadatas results = metas :: others_m ->
  distances results = dists :: others_d ->
  collect results =
  if (List.length docs <=? List.length metas)%nat
     && (List.length docs <=? List.length dists)%nat
  then Ok (map (fun x => {| document := fst (fst x); metadata := snd (fst x);
                            distance := snd x |})
               (combine (combine docs metas) dists))
  else Raise IndexError.
Proof.
  intros Hdoc Hm Hd. unfold collect. rewrite Hdoc.
  destruct docs as [| doc rest]; [reflexivity |].
  destruct (Nat.leb_spec (List.length (doc :: rest)) (List.length metas)) as [H1 | H1];
    [destruct (Nat.leb_spec (List.length (doc :: rest)) (List.length dists)) as [H2 | H2] |];
    cbn [andb].
  - apply (collect_from_aligned results metas dists others_m others_d
             (doc :: rest) Hm Hd 0); assumption.
  - apply (collect_from_short results metas dists others_m others_d
             (doc :: rest) Hm Hd 0); simpl in *; lia.
  - apply (collect_from_short results metas dists others_m others_d
             (doc :: rest) Hm Hd 0); simpl in *; lia.
Qed.

Lemma collect_pairs_by_position_witness :
  collect two_hits =
    Ok [{| document := "S1. S2. S3.";
           metadata := [("article_id", MStr "A"); ("chunk_index", MInt 0);
                        ("title", MStr "Ten sentences")];
           distance := 1 |};
        {| document := "S10.";
           metadata := [("article_id", MStr "A"); ("chunk_index", MInt 3)];
           distance := 4 |}].
Proof.
  apply (collect_pairs_by_position two_hits
           ["S1. S2. S3."; "S10."]
           [[("article_id", MStr "A"); ("chunk_index", MInt 0);
             ("title", MStr "Ten sentences")];
            [("article_id", MStr "A"); ("chunk_index", MInt 3)]]
           [1; 4] [] [] []); reflexivity.
Defined.

(** An answer that lacks the metadata of its second document: no chunk is
    returned, and the error is logged. *)
Example query_chunks_on_misaligned_answer :
  query_chunks (fun v : nat => v) (sample_query misaligned_hits) sample_chroma
    "gene editing" 2 =
  ([], [Embedding (ModelEncode ["gene editing"]); CollectionQuery 2;
        QueryLog ERROR (QueryError IndexError)]).
Proof. reflexivity. Qed.

(** A model that raises: the index is not queried; the empty list of
    embeddings is indexed at 0, and the resulting [IndexError] is what the
    log reports. *)
Example query_chunks_with_failing_model :
  query_chunks (fun v : nat => v) (sample_query two_hits) failing_model
    "gene editing" 2 =
  ([], [Embedding (ModelEncode ["gene editing"]);
        Embedding (Log ERROR (EmbedError OtherError));
        QueryLog ERROR (QueryError IndexError)]).
Proof. reflexivity. Qed.

End RetrievalExtra.

(** ** The context block and the answer *)

Module AskExtra.
Import Ask Retrieval Context Samples MoreSamples.

Lemma append_assoc (a b c : string) : ((a ++ b) ++ c = a ++ (b ++ c))%string.
Proof. induction a as [| x a IH]; simpl; [| rewrite IH]; reflexivity. Qed.

Lemma fold_sections {number : Type} (chunks : list (RetrievedChunk number)) :
  forall acc : string,
    fold_left (fun (context_string : string) chunk =>
                 (context_string ++ section chunk)%string) chunks acc =
    (acc ++ fold_right (fun chunk rest => (section chunk ++ rest)%string)
              EmptyString chunks)%string.
Proof.
  induction chunks as [| c chunks IH]; intros acc; simpl.
  - induction acc as [| x acc IHa]; simpl; [| rewrite <- IHa]; reflexivity.
  - rewrite IH, append_assoc. reflexivity.
Qed.

(** X22.  The context handed to the generation service is the marker "No
    relevant context found." exactly when no chunk was retrieved;
    otherwise it is the sections of the chunks, one per chunk, in the order
    of retrieval, and nothing else. *)
Theorem context_is_marker_or_sections {number : Type}
    (retrieved_chunks : list (RetrievedChunk number)) :
  build_context retrieved_chunks =
  match retrieved_chunks with
  | [] => no_context
  | _ :: _ =>
      fold_right (fun chunk rest => (section chunk ++ rest)%string)
        EmptyString retrieved_chunks
  end.
Proof.
  unfold build_context, sections. rewrite fold_sections.
  destruct retrieved_chunks as [| c chunks]; reflexivity.
Qed.

(** A chunk whose metadata lacks the title is announced under "Unknown
    Title". *)
Example section_without_title :
  section {| document := "S10.";
             metadata := [("article_id", MStr "A"); ("chunk_index", MInt 3)];
             distance := 4 |} =
  ("--- Article: Unknown Title (PMID: A) ---" ++ nl ++ "S10." ++ nl ++ nl)%string.
Proof. reflexivity. Qed.

(** X23.  From a response that has the whole path, [parse_answer] returns
    the [text] of the first part of the first candidate, whatever it is, and
    logs nothing; further candidates and parts are not looked at. *)
Theorem complete_response_gives_first_text
    (members candidate content part : list (string * json))
    (others more : list json) (text : json) :
  Dict.get members "candidates" = Some (JArray (JObject candidate :: others)) ->
  Dict.get candidate "content" = Some (JObject content) ->
  Dict.get content "parts" = Some (JArray (JObject part :: more)) ->
  Dict.get part "text" = Some text ->
  parse_answer (JObject members) = (Ok text, []).
Proof.
  intros Hc Hcontent Hparts Htext. unfold parse_answer.
  destruct members as [| m members]; [discriminate |].
  cbn [truthy get item bind]. rewrite Hc. cbn [truthy bind item0 get item].
  rewrite Hcontent. destruct content as [| c content]; [discriminate |].
  cbn [truthy bind get item]. rewrite Hparts. cbn [truthy bind item0 get].
  rewrite Htext. reflexivity.
Qed.

Lemma complete_response_gives_first_text_witness :
  parse_answer response_complete =
    (Ok (JString "CRISPR is a gene-editing tool."), []).
Proof.
  eapply (complete_response_gives_first_text _ _ _ _ [] []); reflexivity.
Defined.



End AskExtra.

(** ** The ingestion pipeline: identifiers, batches, runs *)

Module IngestExtra.
Import Chunker Ingest IngestSpec IngestFacts Samples MoreSamples.

(** *** Chunk identifiers *)

Lemma string_of_uint_digits (d : Decimal.uint) :
  all_digits (NilEmpty.string_of_uint d) = true.
Proof. induction d; simpl; auto. Qed.

Lemma digits_have_no_underscore (s1 s2 : string) :
  all_digits (s1 ++ String "_" s2) = false.
Proof.
  induction s1 as [| c s1 IH]; simpl; [reflexivity |].
  rewrite IH. apply andb_false_r.
Qed.

(** A text that ends in an underscore and digits has one such ending. *)
Lemma digit_suffix_unique (s1 : string) :
  forall s2 d1 d2,
    all_digits d1 = true -> all_digits d2 = true ->
    (s1 ++ String "_" d1 = s2 ++ String "_" d2)%string ->
    s1 = s2 /\ d1 = d2.
Proof.
  induction s1 as [| c s1 IH]; intros [| c' s2] d1 d2 H1 H2 E; simpl in E.
  - injection E as ->. auto.
  - injection E as <- ->. rewrite digits_have_no_underscore in H1. discriminate.
  - injection E as -> <-. rewrite digits_have_no_underscore in H2. discriminate.
  - injection E as -> E. destruct (IH s2 d1 d2 H1 H2 E) as [-> ->]. auto.
Qed.

Lemma str_of_nat_inj (j k : nat) : str_of_nat j = str_of_nat k -> j = k.
Proof.
  unfold str_of_nat. intros E.
  apply DecimalNat.Unsigned.to_uint_inj.
  assert (H : Some (Nat.to_uint j) = Some (Nat.to_uint k))
    by (rewrite <- !NilEmpty.usu, E; reflexivity).
  injection H as H. exact H.
Qed.

Lemma chunk_id_shape (pmid : string) (j : nat) :
  chunk_id pmid j = ((pmid ++ "_chunk") ++ String "_" (str_of_nat j))%string.
Proof.
  unfold chunk_id. induction pmid as [| c pmid IH]; simpl;
    [reflexivity | f_equal; exact IH].
Qed.

(** An identifier names one article and one index. *)
Lemma chunk_id_inj (a b : string) (j k : nat) :
  chunk_id a j = chunk_id b k -> a = b /\ j = k.
Proof.
  rewrite !chunk_id_shape. intros E.
  apply digit_suffix_unique in E; try apply string_of_uint_digits.
  destruct E as [Ea Ej]. split.
  - apply (GraphFacts.append_cancel_r "_chunk"), Ea.
  - apply str_of_nat_inj, Ej.
Qed.

Lemma record_ids_in (record : Medline.t) (x : string) :
  In x (record_ids record) ->
  exists pmid j, ingested_id record = Some pmid /\ x = chunk_id pmid j.
Proof.
  unfold record_ids. destruct (ingested_id record) as [pmid |]; [| intros []].
  intros H. apply in_map_iff in H. destruct H as (j & <- & _). eauto.
Qed.

Lemma record_ids_nodup (record : Medline.t) : NoDup (record_ids record).
Proof.
  unfold record_ids. destruct (ingested_id record) as [pmid |]; [| constructor].
  apply Finite.Injective_map_NoDup; [| apply seq_NoDup].
  intros j k E. apply (chunk_id_inj pmid pmid j k), E.
Qed.

(** X25.  Chunk identifiers do not collide: [<pmid>_chunk_<j>] determines
    both the article and the index, so the identifiers produced for a batch
    of records with pairwise different PMIDs are pairwise different. *)
Theorem chunk_ids_are_unique (records : list Medline.t) :
  NoDup (ingested_ids records) ->
  NoDup (flat_map record_ids records) /\
  forall a b j k, chunk_id a j = chunk_id b k -> a = b /\ j = k.
Proof.
  intros Hnd. split; [| apply chunk_id_inj].
  induction records as [| r records IH]; [constructor |].
  cbn [flat_map]. unfold ingested_ids in Hnd. cbn [flat_map] in Hnd.
  apply NoDup_app_remove_l in Hnd as Hrest.
  apply NoDup_app; [apply record_ids_nodup | apply IH, Hrest |].
  intros x Hx Hin.
  destruct (record_ids_in r x Hx) as (pmid & j & Hr & ->).
  apply in_flat_map in Hin. destruct Hin as (r' & Hr' & Hin).
  destruct (record_ids_in r' _ Hin) as (pmid' & j' & Hr'id & E).
  apply chunk_id_inj in E. destruct E as [<- _].
  rewrite Hr in Hnd. cbn [app] in Hnd. inversion Hnd as [| ? ? Hnot _]; subst.
  apply Hnot. apply in_flat_map. exists r'. split; [exact Hr' |].
  rewrite Hr'id. left. reflexivity.
Qed.

Lemma chunk_ids_are_unique_witness :
  NoDup (flat_map record_ids [record_A; record_anonymous]) /\
  forall a b j k, chunk_id a j = chunk_id b k -> a = b /\ j = k.
Proof.
  apply (chunk_ids_are_unique [record_A; record_anonymous]).
  repeat constructor. simpl. tauto.
Defined.

(** *** The parsing loop *)

Lemma parse_publication_date_events
    (re_match : string -> string -> bool)
    (strptime_isoformat : string -> string -> option string)
    (pmid raw : option string) :
  Forall parse_event
    (snd (parse_publication_date re_match strptime_isoformat pmid raw)).
Proof.
  unfold parse_publication_date.
  destruct raw as [[| c raw] |]; simpl; try constructor.
  repeat match goal with
         | |- context [if ?c then _ else _] => destruct c
         | |- context [match ?o with Some _ => _ | None => _ end] => destruct o
         end; simpl; repeat constructor.
Qed.

(** The batch the loop returns and the events it leaves. *)
Lemma parse_records_batch {vector : Type}
    (re_match : string -> string -> bool)
    (strptime_isoformat : string -> string -> option string)
    (self : PubMedIngestor vector) (total : nat)
    (records : list Medline.t) :
  forall i b,
    fst (parse_records re_match strptime_isoformat self total i records b) =
      Ok (batch_after re_match strptime_isoformat records b) /\
    Forall parse_event
      (snd (parse_records re_match strptime_isoformat self total i records b)).
Proof.
  induction records as [| record rest IH]; intros i b.
  - split; [| constructor]. unfold batch_after. destruct b. simpl.
    rewrite !app_nil_r. reflexivity.
  - cbn [parse_records]. unfold batch_after. cbn [flat_map].
    unfold record_articles, record_ids, record_metadatas, record_texts, ingested_id.
    pose proof (parse_publication_date_events re_match strptime_isoformat
                  (Medline.PMID record) (Medline.DP record)) as Hdate.
    destruct (parse_publication_date re_match strptime_isoformat
                (Medline.PMID record) (Medline.DP record)) as [date t_date].
    cbn [fst snd] in *.
    destruct (Medline.PMID record) as [[| c pmid] |].
    + destruct (IH (S i) b) as [Hb Ht].
      destruct (parse_records re_match strptime_isoformat self total (S i) rest b).
      cbn [fst snd app] in *. split; [exact Hb |].
      apply Forall_app. split; [exact Hdate | constructor; [exact I | exact Ht]].
    + rewrite chunk_text_default, add_chunks_of_spec.
      match goal with
      | |- context [parse_records _ _ _ _ (S i) rest ?b1] =>
          destruct (IH (S i) b1) as [Hb Ht];
          destruct (parse_records re_match strptime_isoformat self total (S i) rest b1)
      end.
      cbn [fst snd app] in *. split.
      * rewrite Hb. unfold batch_after. cbn. rewrite <- !app_assoc. reflexivity.
      * apply Forall_app. split; [exact Hdate | constructor; [exact I | exact Ht]].
    + destruct (IH (S i) b) as [Hb Ht].
      destruct (parse_records re_match strptime_isoformat self total (S i) rest b).
      cbn [fst snd app] in *. split; [exact Hb |].
      apply Forall_app. split; [exact Hdate | constructor; [exact I | exact Ht]].
Qed.

Lemma record_lists_aligned (record : Medline.t) :
  List.length (record_texts record) = List.length (record_metadatas record) /\
  List.length (record_metadatas record) = List.length (record_ids record).
Proof.
  unfold record_texts, record_metadatas, record_ids.
  destruct (ingested_id record); [| split; reflexivity].
  rewrite !length_map, !length_seq. split; reflexivity.
Qed.

Lemma batch_lists_aligned (records : list Medline.t) :
  List.length (flat_map record_texts records) =
    List.length (flat_map record_metadatas records) /\
  List.length (flat_map record_metadatas records) =
    List.length (flat_map record_ids records).
Proof.
  induction records as [| r records [IH1 IH2]]; [split; reflexivity |].
  cbn [flat_map]. rewrite !length_app.
  destruct (record_lists_aligned r) as [H1 H2]. lia.
Qed.

Lemma record_article_ids (re_match : string -> string -> bool)
    (strptime_isoformat : string -> string -> option string)
    (records : list Medline.t) :
  map Article._id
      (flat_map (record_articles re_match strptime_isoformat) records) =
  map Some (ingested_ids records).
Proof.
  unfold ingested_ids. induction records as [| r records IH]; [reflexivity |].
  cbn [flat_map]. rewrite !map_app, IH. unfold record_articles.
  destruct (ingested_id r); reflexivity.
Qed.

(** X26.  Parsing follows the records: from the empty batch it raises
    nothing, gives one article per record that has a PMID, in the order of
    the records and under that PMID, with the source "PubMed"; a record
    without PMID is left out and the records after it are still parsed;
    and the three chunk lists of the batch are of one length. *)
Theorem parsing_follows_the_records {vector : Type}
    (re_match : string -> string -> bool)
    (strptime_isoformat : string -> string -> option string)
    (self : PubMedIngestor vector) (total i : nat) (records : list Medline.t) :
  exists b,
    fst (parse_records re_match strptime_isoformat self total i records
           empty_batch) = Ok b /\
    map Article._id (articles_to_mongo b) = map Some (ingested_ids records) /\
    Forall (fun a => Article.source a = Some "PubMed") (articles_to_mongo b) /\
    List.length (chunks_to_chroma_texts b) =
      List.length (chunks_to_chroma_metadatas b) /\
    List.length (chunks_to_chroma_metadatas b) =
      List.length (chunks_to_chroma_ids b).
Proof.
  exists (batch_after re_match strptime_isoformat records empty_batch).
  split; [apply parse_records_batch |].
  unfold batch_after. cbn. split; [apply record_article_ids |]. split.
  - rewrite Forall_forall. intros a Ha. apply in_flat_map in Ha.
    destruct Ha as (r & _ & Ha). unfold record_articles in Ha.
    destruct (ingested_id r); [| contradiction].
    destruct Ha as [<- | []]. reflexivity.
  - apply batch_lists_aligned.
Qed.

(** The two sample records: the one without PMID is left out. *)
Example parsing_sample_records :
  ingested_ids [record_anonymous; record_A; record_anonymous] = ["A"].
Proof. reflexivity. Qed.

(** *** Runs *)

(** A run whose search finds identifiers and whose fetch succeeds. *)
Lemma fetch_and_ingest_run {vector : Type}
    (collection_add :
       list (Chroma.Row vector) -> list string -> list vector ->
       list Metadata.t -> list string -> result (list (Chroma.Row vector)))
    (esearch : string -> Z -> result (list string))
    (efetch : list string -> result (list Medline.t))
    (re_match : string -> string -> bool)
    (strptime_isoformat : string -> string -> option string)
    (self : PubMedIngestor vector) (term : string) (max_results : Z)
    (id : string) (ids : list string) (records : list Medline.t) :
  esearch term max_results = Ok (id :: ids) ->
  efetch (id :: ids) = Ok records ->
  let b := batch_after re_match strptime_isoformat records empty_batch in
  let t_parse :=
    snd (parse_records re_match strptime_isoformat self
           (List.length (id :: ids)) 0 records empty_batch) in
  let stored := insert_all (mongo_handler self) (articles_to_mongo b) in
  let added :=
    Chroma.add_chunks collection_add (chroma_handler self)
      (chunks_to_chroma_texts b) (chunks_to_chroma_metadatas b)
      (chunks_to_chroma_ids b) in
  fetch_and_ingest collection_add esearch efetch re_match strptime_isoformat
    self term max_results =
  (Ok None,
   {| mongo_handler := fst stored;
      chroma_handler :=
        match chunks_to_chroma_texts b with
        | [] => chroma_handler self
        | _ :: _ => snd (fst added)
        end |},
   ([Log INFO (IngestStart term max_results); EntrezSearch term max_results] ++
    [Log INFO (IngestFound (List.length (id :: ids)) term)] ++
    [EntrezFetch (id :: ids)]) ++
   t_parse ++
   [Log INFO (IngestAttemptInsert (List.length (articles_to_mongo b)))] ++
   snd stored ++
   match chunks_to_chroma_texts b with
   | [] => [Log WARNING IngestNoChunks]
   | _ :: _ =>
       Log INFO (IngestAttemptAdd (List.length (chunks_to_chroma_texts b)))
       :: snd added
   end ++
   [Log INFO (IngestCompleted term)]).
Proof.
  intros Hs Hf. cbv zeta. unfold fetch_and_ingest. rewrite Hs, Hf.
  pose proof (proj1 (parse_records_batch re_match strptime_isoformat self
                       (List.length (id :: ids)) records 0 empty_batch)) as Hb.
  destruct (parse_records re_match strptime_isoformat self
              (List.length (id :: ids)) 0 records empty_batch) as [parsed t_parse].
  cbn [fst snd] in *. subst parsed.
  destruct (insert_all (mongo_handler self)
              (articles_to_mongo
                 (batch_after re_match strptime_isoformat records empty_batch)))
    as [mongo t_mongo].
  destruct (chunks_to_chroma_texts
              (batch_after re_match strptime_isoformat records empty_batch))
    as [| text texts]; [reflexivity |].
  destruct (Chroma.add_chunks collection_add (chroma_handler self)
              (text :: texts)
              (chunks_to_chroma_metadatas
                 (batch_after re_match strptime_isoformat records empty_batch))
              (chunks_to_chroma_ids
                 (batch_after re_match strptime_isoformat records empty_batch)))
    as [[ok chroma] t_add].
  reflexivity.
Qed.

Lemma parse_event_quiet (e : event) : parse_event e -> quiet e.
Proof. destruct e as [lvl msg | | | | | | |]; simpl; tauto. Qed.

(** X27.  A run that does not reach completion changes nothing.  Either
    the trace of [fetch_and_ingest] ends in the completion record and the
    call returns [None]; or the ingestor is left as it was, the trace has
    only log records and calls to the bibliographic source, no call to a
    store or to the model, and no record at the level ERROR.  In the second
    case either the search found no identifier and the call returns [None],
    or the search or the fetch raised and [AttributeError] reaches the
    caller. *)
Theorem run_completes_or_changes_nothing {vector : Type}
    (collection_add :
       list (Chroma.Row vector) -> list string -> list vector ->
       list Metadata.t -> list string -> result (list (Chroma.Row vector)))
    (esearch : string -> Z -> result (list string))
    (efetch : list string -> result (list Medline.t))
    (re_match : string -> string -> bool)
    (strptime_isoformat : string -> string -> option string)
    (self : PubMedIngestor vector) (term : string) (max_results : Z) :
  let run := fetch_and_ingest collection_add esearch efetch re_match
               strptime_isoformat self term max_results in
  (completed term (snd run) /\ fst (fst run) = Ok None) \/
  (snd (fst run) = self /\ Forall quiet (snd run) /\
   (forall msg, ~ In (Log ERROR msg) (snd run)) /\
   ((esearch term max_results = Ok [] /\ fst (fst run) = Ok None) \/
    ((exists e, esearch term max_results = Raise e \/
                exists id_list, esearch term max_results = Ok id_list /\
                                efetch id_list = Raise e) /\
     fst (fst run) = Raise AttributeError))).
Proof.
  cbv zeta.
  destruct (esearch term max_results) as [[| id ids] | e] eqn:Hs.
  - right. unfold fetch_and_ingest. rewrite Hs. cbn.
    split; [reflexivity |]. split; [repeat constructor |].
    split; [intros msg; intuition discriminate |].
    left. split; reflexivity.
  - destruct (efetch (id :: ids)) as [records | e] eqn:Hf.
    + left.
      rewrite (fetch_and_ingest_run collection_add esearch efetch re_match
                 strptime_isoformat self term max_results id ids records Hs Hf).
      unfold completed. cbn [fst snd]. split; [| reflexivity].
      rewrite !in_app_iff. simpl. tauto.
    + right. unfold fetch_and_ingest. rewrite Hs, Hf. cbn.
      split; [reflexivity |]. split; [repeat constructor |].
      split; [intros msg; intuition discriminate |].
      right. split; [| reflexivity].
      exists e. right. exists (id :: ids). split; [reflexivity | exact Hf].
  - right. unfold fetch_and_ingest. rewrite Hs. cbn.
    split; [reflexivity |]. split; [repeat constructor |].
    split; [intros msg; intuition discriminate |].
    right. split; [| reflexivity].
    exists e. left. reflexivity.
Qed.

(** A source that is down: the exception that reaches the caller is the
    [AttributeError] of the first [except] clause, nothing is stored and no
    error is logged. *)
Example run_with_failing_source :
  fetch_and_ingest sample_add failing_esearch sample_efetch sample_re_match
    sample_strptime sample_ingestor "crispr" 5 =
  (Raise AttributeError, sample_ingestor,
   [Log INFO (IngestStart "crispr" 5); EntrezSearch "crispr" 5]).
Proof. reflexivity. Qed.

Lemma insert_article_events (mongo : Mongo.MongoDBHandler) (a : Article.t) :
  Forall mongo_event (snd (Mongo.insert_article mongo a)).
Proof.
  unfold Mongo.insert_article.
  destruct (Mongo.articles_collection mongo) as [coll |]; [| repeat constructor].
  destruct (Article._id a) as [id |]; [| repeat constructor].
  destruct (Mongo.find_one coll id); [repeat constructor |].
  destruct (Mongo.insert_one coll id a) as [coll' | e]; [repeat constructor |].
  cbn [snd]. repeat constructor.
  destruct (Mongo.is_operation_failure e); exact I.
Qed.

Lemma insert_all_events (articles : list Article.t) :
  forall mongo, Forall mongo_event (snd (insert_all mongo articles)).
Proof.
  induction articles as [| a rest IH]; intros mongo; [constructor |].
  cbn [insert_all].
  pose proof (insert_article_events mongo a) as Ha.
  destruct (Mongo.insert_article mongo a) as [[r mongo1] t1].
  specialize (IH mongo1). destruct (insert_all mongo1 rest) as [mongo2 t2].
  cbn [snd] in *. apply Forall_app. split; assumption.
Qed.

Lemma add_chunks_aligned_trace {vector : Type}
    (collection_add :
       list (Chroma.Row vector) -> list string -> list vector ->
       list Metadata.t -> list string -> result (list (Chroma.Row vector)))
    (self : Chroma.ChromaDBHandler vector) (texts : list string)
    (metadatas : list Metadata.t) (ids : list string) :
  List.length texts = List.length metadatas ->
  List.length metadatas = List.length ids ->
  ~ In (Log ERROR AddLengthsDiffer)
       (snd (Chroma.add_chunks collection_add self texts metadatas ids)).
Proof.
  intros H1 H2. unfold Chroma.add_chunks, Chroma._generate_embeddings.
  destruct (Chroma.collection self) as [rows |]; [| simpl; intuition discriminate].
  destruct (Chroma.model self) as [encode |]; [| simpl; intuition discriminate].
  unfold Chroma.same_lengths. rewrite H1, H2, !Nat.eqb_refl. cbn [andb negb].
  cbv iota.
  destruct (encode texts) as [[| v embeddings] | e];
    try (simpl; intuition discriminate).
  destruct (collection_add rows texts (v :: embeddings) metadatas ids);
    simpl; intuition discriminate.
Qed.

(** X28.  The pipeline never trips the length check of [add_chunks]: no
    run of [fetch_and_ingest] logs "Lengths of texts, metadatas, and ids
    must be equal.", because the three lists it hands over are filled
    together. *)
Theorem ingestion_never_trips_length_check {vector : Type}
    (collection_add :
       list (Chroma.Row vector) -> list string -> list vector ->
       list Metadata.t -> list string -> result (list (Chroma.Row vector)))
    (esearch : string -> Z -> result (list string))
    (efetch : list string -> result (list Medline.t))
    (re_match : string -> string -> bool)
    (strptime_isoformat : string -> string -> option string)
    (self : PubMedIngestor vector) (term : string) (max_results : Z) :
  ~ In (Log ERROR AddLengthsDiffer)
       (snd (fetch_and_ingest collection_add esearch efetch re_match
               strptime_isoformat self term max_results)).
Proof.
  destruct (esearch term max_results) as [[| id ids] | e] eqn:Hs.
  - unfold fetch_and_ingest. rewrite Hs. simpl. intuition discriminate.
  - destruct (efetch (id :: ids)) as [records | e] eqn:Hf.
    + rewrite (fetch_and_ingest_run collection_add esearch efetch re_match
                 strptime_isoformat self term max_results id ids records Hs Hf).
      cbn [snd]. rewrite !in_app_iff.
      pose proof (proj2 (parse_records_batch re_match strptime_isoformat self
                           (List.length (id :: ids)) records 0 empty_batch))
        as Hparse.
      pose proof (insert_all_events
                    (articles_to_mongo
                       (batch_after re_match strptime_isoformat records empty_batch))
                    (mongo_handler self)) as Hmongo.
      rewrite Forall_forall in Hparse, Hmongo.
      intros [H | [H | [H | [H | [H | H]]]]].
      * simpl in H. intuition discriminate.
      * apply (Hparse _ H).
      * simpl in H. intuition discriminate.
      * apply (Hmongo _ H).
      * destruct (chunks_to_chroma_texts
                    (batch_after re_match strptime_isoformat records empty_batch))
          as [| text texts] eqn:Ht.
        -- simpl in H. intuition discriminate.
        -- destruct H as [H | H]; [discriminate |]. revert H.
           apply add_chunks_aligned_trace.
           ++ rewrite <- Ht. unfold batch_after. cbn. apply batch_lists_aligned.
           ++ unfold batch_after. cbn. apply batch_lists_aligned.
      * simpl in H. intuition discriminate.
    + unfold fetch_and_ingest. rewrite Hs, Hf. simpl. intuition discriminate.
  - unfold fetch_and_ingest. rewrite Hs. simpl. intuition discriminate.
Qed.

Lemma insert_all_again (mongo : Mongo.MongoDBHandler)
    (articles : list Article.t) :
  fst (insert_all (fst (insert_all mongo articles)) articles) =
  fst (insert_all mongo articles).
Proof.
  destruct mongo as [[coll |]].
  - change {| Mongo.articles_collection := Some coll |} with (connected coll).
    destruct (MongoExtra.insert_all_effect articles coll)
      as (coll' & Hrun & _ & Hall & _).
    rewrite Hrun. apply MongoExtra.insert_all_skips, Hall.
  - rewrite (proj1 (MongoExtra.insert_all_not_connected articles)).
    apply MongoExtra.insert_all_not_connected.
Qed.

(** X29.  Ingesting again is a no-op for the metadata store: when the
    bibliographic source answers a second run as it answered the first, the
    metadata handler after the second run is the one after the first. *)
Theorem second_run_leaves_metadata_store {vector : Type}
    (collection_add :
       list (Chroma.Row vector) -> list string -> list vector ->
       list Metadata.t -> list string -> result (list (Chroma.Row vector)))
    (esearch : string -> Z -> result (list string))
    (efetch : list string -> result (list Medline.t))
    (re_match : string -> string -> bool)
    (strptime_isoformat : string -> string -> option string)
    (self : PubMedIngestor vector) (term : string) (max_results : Z) :
  let first := fetch_and_ingest collection_add esearch efetch re_match
                 strptime_isoformat self term max_results in
  let second := fetch_and_ingest collection_add esearch efetch re_match
                  strptime_isoformat (snd (fst first)) term max_results in
  mongo_handler (snd (fst second)) = mongo_handler (snd (fst first)).
Proof.
  cbv zeta.
  destruct (esearch term max_results) as [[| id ids] | e] eqn:Hs.
  - unfold fetch_and_ingest. rewrite ?Hs. cbn. rewrite ?Hs. reflexivity.
  - destruct (efetch (id :: ids)) as [records | e] eqn:Hf.
    + rewrite !(fetch_and_ingest_run collection_add esearch efetch re_match
                  strptime_isoformat _ term max_results id ids records Hs Hf).
      cbn [fst snd mongo_handler]. apply insert_all_again.
    + unfold fetch_and_ingest. rewrite ?Hs, ?Hf. cbn. rewrite ?Hs, ?Hf.
      reflexivity.
  - unfold fetch_and_ingest. rewrite ?Hs. cbn. rewrite ?Hs. reflexivity.
Qed.

(** X30.  The metadata write does not wait for the vector write: when the
    search finds identifiers, the fetch succeeds and the metadata store is
    connected, then after the run, whatever the embedding model and the
    vector index did, every fetched record that has a PMID is stored under
    it, and every document stored before is still stored unchanged. *)
Theorem completed_run_stores_every_record {vector : Type}
    (collection_add :
       list (Chroma.Row vector) -> list string -> list vector ->
       list Metadata.t -> list string -> result (list (Chroma.Row vector)))
    (esearch : string -> Z -> result (list string))
    (efetch : list string -> result (list Medline.t))
    (re_match : string -> string -> bool)
    (strptime_isoformat : string -> string -> option string)
    (self : PubMedIngestor vector) (term : string) (max_results : Z)
    (coll : Mongo.collection) (id : string) (ids : list string)
    (records : list Medline.t) :
  mongo_handler self = connected coll ->
  esearch term max_results = Ok (id :: ids) ->
  efetch (id :: ids) = Ok records ->
  exists coll',
    mongo_handler
      (snd (fst (fetch_and_ingest collection_add esearch efetch re_match
                   strptime_isoformat self term max_results))) =
      connected coll' /\
    (forall pmid, In pmid (ingested_ids records) ->
       exists d, Mongo.find_one coll' pmid = Some d) /\
    (forall k d, Mongo.find_one coll k = Some d ->
       Mongo.find_one coll' k = Some d).
Proof.
  intros Hm Hs Hf.
  rewrite (fetch_and_ingest_run collection_add esearch efetch re_match
             strptime_isoformat self term max_results id ids records Hs Hf).
  cbn [fst snd mongo_handler]. rewrite Hm.
  destruct (MongoExtra.insert_all_effect
              (articles_to_mongo
                 (batch_after re_match strptime_isoformat records empty_batch))
              coll) as (coll' & Hrun & Hkeep & Hall & _).
  exists coll'. split; [exact Hrun |]. split; [| exact Hkeep].
  intros pmid Hin.
  assert (Ha : In (Some pmid)
                 (map Article._id
                    (articles_to_mongo
                       (batch_after re_match strptime_isoformat records
                          empty_batch)))).
  { unfold batch_after. cbn. rewrite record_article_ids.
    apply in_map, Hin. }
  apply in_map_iff in Ha. destruct Ha as (a & Hid & Hina).
  specialize (Hall a pmid Hina Hid).
  destruct (Mongo.find_one coll' pmid) as [d |]; [eauto | congruence].
Qed.

Lemma completed_run_stores_every_record_witness :
  exists coll',
    mongo_handler
      (snd (fst (fetch_and_ingest sample_add sample_esearch sample_efetch
                   sample_re_match sample_strptime
                   {| mongo_handler := connected dummy_articles;
                      chroma_handler := failing_model |} "crispr" 5))) =
      connected coll' /\
    (exists d, Mongo.find_one coll' "A" = Some d) /\
    (exists d, Mongo.find_one coll' "PMID2" = Some d).
Proof.
  destruct (completed_run_stores_every_record sample_add sample_esearch
              sample_efetch sample_re_match sample_strptime
              {| mongo_handler := connected dummy_articles;
                 chroma_handler := failing_model |} "crispr" 5
              dummy_articles "A" ["B"] [record_A; record_anonymous]
              eq_refl eq_refl eq_refl)
    as (coll' & Hrun & Hall & Hkeep).
  exists coll'. split; [exact Hrun |]. split.
  - apply Hall. simpl. left. reflexivity.
  - eexists. apply Hkeep. reflexivity.
Defined.

End IngestExtra.
